(** * Ganh Hat Lo To: the game engine, embedded and verified

    A shallow embedding of the game logic of the repository: the number
    generator ([src/lib/number-generator.ts]), the legacy in-memory
    server ([server.js]) and the store-backed services
    ([src/services/*.service.ts]), followed by the theorems that settle
    the properties the specification states about them.

    Conventions of the embedding.
    - Ticket numbers, counts and indices are natural numbers.
    - [Math.random()] is an oracle: a stream [rnd : nat -> nat] read at a
      cursor [p] that every draw advances.  [Math.floor(Math.random() * n)]
      is [rnd p mod n], so every index below [n] can be drawn.
    - [arr.sort(() => Math.random() - 0.5)] sorts with an inconsistent
      comparator; the language only guarantees that the outcome is a
      rearrangement of [arr].  It is embedded as [permute (rnd p) arr],
      which reaches every rearrangement and consumes one oracle entry.
    - A loop with no bound in the source takes a [fuel] argument and
      answers [Diverges] when it runs out; an exception the function does
      not catch (a [TypeError], a rejected [insertMany]) is [Throws]. *)

From stdpp Require Import base tactics option list numbers sorting gmap strings.

Set Default Proof Using "Type".

(* ================================================================== *)
(** * Outcomes of a JavaScript call *)

Inductive outcome (A : Type) : Type :=
  | Returns (a : A)
  | Throws
  | Diverges.
Arguments Returns {A} a.
Arguments Throws {A}.
Arguments Diverges {A}.

#[global] Instance outcome_ret : MRet outcome := λ A a, Returns a.
#[global] Instance outcome_bind : MBind outcome := λ A B f m,
  match m with
  | Returns a => f a
  | Throws => Throws
  | Diverges => Diverges
  end.

(** Runs the bind of [outcome] at the head of hypothesis [H]. *)
Ltac step_bind H := unfold mbind, outcome_bind in H; cbv beta iota in H.

(* ================================================================== *)
(** * Arrays and randomness *)

(** [insertAt i x l] puts [x] in front of position [i] of [l]. *)
Fixpoint insertAt {A} (i : nat) (x : A) (l : list A) : list A :=
  match i, l with
  | 0, _ => x :: l
  | S i', y :: l' => y :: insertAt i' x l'
  | S _, [] => [x]
  end.

(** The rearrangement of [l] numbered [r]. *)
Fixpoint permute {A} (r : nat) (l : list A) : list A :=
  match l with
  | [] => []
  | x :: l' => insertAt (r `mod` S (length l')) x (permute (r `div` S (length l')) l')
  end.

(** [Array.prototype.sort(cmp)]: a stable sort; [cmp a b <= 0] keeps
    [a] in front of [b]. *)
Fixpoint insertCmp {A} (cmp : A → A → Z) (x : A) (l : list A) : list A :=
  match l with
  | [] => [x]
  | y :: l' => if decide (cmp x y ≤ 0)%Z then x :: l else y :: insertCmp cmp x l'
  end.

Definition sortCmp {A} (cmp : A → A → Z) (l : list A) : list A :=
  foldr (insertCmp cmp) [] l.

(** [(a, b) => a - b] *)
Definition ascending (a b : nat) : Z := (Z.of_nat a - Z.of_nat b)%Z.

(** [Math.floor(Math.random() * n)] at cursor [p]. *)
Definition randomIndex (rnd : nat → nat) (p n : nat) : nat := rnd p `mod` n.

(* ================================================================== *)
(** * Game types ([src/lib/game-types.ts]) *)

Record TicketRow := mkRow {
  cells : list (option nat);   (* 9 cells, None if empty *)
  marked : list bool           (* 9 booleans *)
}.

Record TicketGrid := mkGrid {
  rows : list TicketRow        (* 3 rows *)
}.

Record LotoTicket := mkTicket {
  ticketId : string;
  grids : list TicketGrid;     (* 3 grids per ticket *)
  ownerId : string;
  roomId : string              (* [roomId] in the object [generateTicket] returns; the
                                  path [roomCode] of a stored ticket and of a ticket of
                                  [server.js] *)
}.

Record ValidationResult {A : Type} := mkResult {
  isValid : bool;
  isWinner : bool;
  matchedNumbers : list A;
  missingNumbers : list A
}.
Arguments ValidationResult A : clear implicits.
Arguments mkResult {A} _ _ _ _.

#[global] Instance TicketRow_inhabited : Inhabited TicketRow := populate (mkRow [] []).
#[global] Instance TicketGrid_inhabited : Inhabited TicketGrid := populate (mkGrid []).

(* ================================================================== *)
(** * The number generator ([src/lib/number-generator.ts]) *)

Module NumberGenerator.

(** The numbers of [1..top] that have not been called, in ascending order:
    the [available] array every draw builds. *)
Definition availableNumbers (top : nat) (calledNumbers : list nat) : list nat :=
  filter (λ i, i ∉ calledNumbers) (seq 1 top).

(** [generateNextNumber(calledNumbers)] *)
Definition generateNextNumber (rnd : nat → nat) (p : nat) (calledNumbers : list nat)
  : option nat :=
  let available := availableNumbers 90 calledNumbers in
  if decide (length available = 0) then None
  else Some (available !!! randomIndex rnd p (length available)).

(** Step 1 of the grid generators: [colCounts] starts at 1 per column and
    [remaining = 6] increments are handed out to columns below 3. *)
Fixpoint fillColCounts (fuel : nat) (rnd : nat → nat) (p : nat)
    (colCounts : list nat) (remaining : nat) : outcome (list nat * nat) :=
  match remaining with
  | 0 => Returns (colCounts, p)
  | S remaining' =>
    match fuel with
    | 0 => Diverges
    | S fuel' =>
      let colIndex := randomIndex rnd p 9 in
      if decide (colCounts !!! colIndex < 3)
      then fillColCounts fuel' rnd (S p)
             (<[colIndex := S (colCounts !!! colIndex)]> colCounts) remaining'
      else fillColCounts fuel' rnd (S p) colCounts remaining
    end
  end.

Definition colRanges : list (nat * nat) :=
  [(1, 9); (10, 19); (20, 29); (30, 39); (40, 49);
   (50, 59); (60, 69); (70, 79); (80, 90)].

(** [for (let n = min; n <= max; n++) if (!exclude.has(n)) available.push(n)] *)
Definition availableIn (exclude : gset nat) (min max : nat) : list nat :=
  filter (λ n, n ∉ exclude) (seq min (S max - min)).

(** Step 2 of [generateUniqueGrid]: the loop over the columns [cs];
    [None] is the early [return null]. *)
Fixpoint uniqueNumbers (rnd : nat → nat) (p : nat) (exclude : gset nat)
    (colCounts : list nat) (cs : list nat) (gridNumbers : list (list nat))
  : option (list (list nat)) * nat :=
  match cs with
  | [] => (Some gridNumbers, p)
  | c :: cs' =>
    let count := colCounts !!! c in
    let '(min, max) := colRanges !!! c in
    let available := availableIn exclude min max in
    if decide (length available < count) then (None, p)
    else
      let shuffled := permute (rnd p) available in
      let nums := sortCmp ascending (take count shuffled) in
      uniqueNumbers rnd (S p) exclude colCounts cs' (gridNumbers ++ [nums])
  end.

(** [Array.from({ length: 9 }, (_, i) => i).sort((a, b) => colCounts[b] - colCounts[a])] *)
Definition colsIndices (colCounts : list nat) : list nat :=
  sortCmp (λ a b, Z.of_nat (colCounts !!! b) - Z.of_nat (colCounts !!! a))%Z (seq 0 9).

(** [picked.forEach(r => { rowAssignments[c].push(r); rowFillCounts[r]++; })] *)
Definition pushPicked (c : nat) (st : list (list nat) * list nat) (picked : list nat)
  : list (list nat) * list nat :=
  foldl (λ '(rowAssignments, rowFillCounts) r,
           (alter (λ a, a ++ [r]) c rowAssignments, alter S r rowFillCounts))
        st picked.

(** One pass of [for (const c of colsIndices)]: the result is [valid],
    the assignments, the fill counts and the cursor. *)
Fixpoint assignRows (rnd : nat → nat) (p : nat) (colCounts : list nat) (cols : list nat)
    (rowAssignments : list (list nat)) (rowFillCounts : list nat)
  : bool * list (list nat) * list nat * nat :=
  match cols with
  | [] => (true, rowAssignments, rowFillCounts, p)
  | c :: cols' =>
    let count := colCounts !!! c in
    let availRows := filter (λ r, rowFillCounts !!! r < 5) [0; 1; 2] in
    if decide (length availRows < count) then (false, rowAssignments, rowFillCounts, p)
    else
      let picked := take count (permute (rnd p) availRows) in
      let '(rowAssignments', rowFillCounts') :=
        pushPicked c (rowAssignments, rowFillCounts) picked in
      assignRows rnd (S p) colCounts cols' rowAssignments' rowFillCounts'
  end.

Definition emptyRow : TicketRow := mkRow (replicate 9 None) (replicate 9 false).

(** [rows[r].cells[c] = n]; [rows[r]] undefined raises a [TypeError]. *)
Definition setCell (rows : list TicketRow) (r c n : nat) : outcome (list TicketRow) :=
  match rows !! r with
  | None => Throws
  | Some row => Returns (<[r := mkRow (<[c := Some n]> (cells row)) (marked row)]> rows)
  end.

(** [for (let k = 0; k < nums.length; k++) rows[rowIndices[k]].cells[c] = nums[k]] *)
Fixpoint placeColumn (rows : list TicketRow) (c : nat) (rowIndices nums : list nat)
    {struct nums} : outcome (list TicketRow) :=
  match nums with
  | [] => Returns rows
  | n :: nums' =>
    match rowIndices with
    | [] => Throws
    | r :: rowIndices' =>
      rows' ← setCell rows r c n;
      placeColumn rows' c rowIndices' nums'
    end
  end.

(** [for (let c = 0; c < 9; c++)] of the success branch. *)
Fixpoint placeColumns (rows : list TicketRow) (cs : list nat)
    (rowAssignments gridNumbers : list (list nat)) : outcome (list TicketRow) :=
  match cs with
  | [] => Returns rows
  | c :: cs' =>
    let rowIndices := sortCmp ascending (rowAssignments !!! c) in
    let nums := gridNumbers !!! c in
    rows' ← placeColumn rows c rowIndices nums;
    placeColumns rows' cs' rowAssignments gridNumbers
  end.

(** Step 3 of the grid generators: at most [attempts] randomized row
    distributions; [None] when every one of them failed. *)
Fixpoint distributeRows (attempts : nat) (rnd : nat → nat) (p : nat)
    (colCounts : list nat) (gridNumbers : list (list nat))
  : outcome (option TicketGrid * nat) :=
  match attempts with
  | 0 => Returns (None, p)
  | S attempts' =>
    let '(valid, rowAssignments, rowFillCounts, p') :=
      assignRows rnd p colCounts (colsIndices colCounts) (replicate 9 []) [0; 0; 0] in
    if valid && forallb (λ c, bool_decide (c = 5)) rowFillCounts
    then
      rows ← placeColumns [emptyRow; emptyRow; emptyRow] (seq 0 9)
                rowAssignments gridNumbers;
      Returns (Some (mkGrid rows), p')
    else distributeRows attempts' rnd p' colCounts gridNumbers
  end.

(** [generateUniqueGrid(exclude)] *)
Definition generateUniqueGrid (fuel : nat) (rnd : nat → nat) (p : nat) (exclude : gset nat)
  : outcome (option TicketGrid * nat) :=
  '(colCounts, p1) ← fillColCounts fuel rnd p (replicate 9 1) 6;
  match uniqueNumbers rnd p1 exclude colCounts (seq 0 9) [] with
  | (None, p2) => Returns (None, p2)
  | (Some gridNumbers, p2) => distributeRows 100 rnd p2 colCounts gridNumbers
  end.

(** [grid.rows.forEach(r => r.cells.forEach(n => { if (n) usedNumbers.add(n); }))] *)
Definition addUsed (usedNumbers : gset nat) (grid : TicketGrid) : gset nat :=
  foldl (λ used r,
           foldl (λ used' n,
                    match n with
                    | Some (S m) => {[S m]} ∪ used'
                    | _ => used'
                    end) used (cells r))
        usedNumbers (rows grid).

(** [while (grids.length < 3 && attempts < 50)], with [budget = 50 - attempts]. *)
Fixpoint ticketLoop (budget fuel : nat) (rnd : nat → nat) (p : nat)
    (grids : list TicketGrid) (usedNumbers : gset nat)
  : outcome (list TicketGrid * nat) :=
  match budget with
  | 0 => Returns (grids, p)
  | S budget' =>
    if decide (length grids < 3) then
      '(grid, p') ← generateUniqueGrid fuel rnd p usedNumbers;
      match grid with
      | Some g => ticketLoop budget' fuel rnd p' (grids ++ [g]) (addUsed usedNumbers g)
      | None => ticketLoop budget' fuel rnd p' grids usedNumbers
      end
    else Returns (grids, p)
  end.

(** [generateTicket(roomId, ownerId)]; [uuid] is the value of [uuidv4()]. *)
Definition generateTicket (fuel : nat) (rnd : nat → nat) (p : nat)
    (uuid roomId ownerId : string) : outcome (LotoTicket * nat) :=
  '(grids, p') ← ticketLoop 50 fuel rnd p [] ∅;
  Returns (mkTicket uuid grids ownerId roomId, p').


(** [row.cells.filter(n => n !== null)] *)
Definition rowNumbers (row : TicketRow) : list nat := omap (λ n, n) (cells row).

(** [checkRowWinner(row, calledNumbers)] *)
Definition checkRowWinner (row : TicketRow) (calledNumbers : list nat) : bool :=
  forallb (λ num, bool_decide (num ∈ calledNumbers)) (rowNumbers row).

(** [validateNumbers(numbers, calledNumbers)] *)
Definition validateNumbers `{EqDecision A} (numbers calledNumbers : list A)
  : ValidationResult A :=
  let matched := filter (λ n, n ∈ calledNumbers) numbers in
  let missing := filter (λ n, n ∉ calledNumbers) numbers in
  mkResult true
           (bool_decide (length matched = 5) && bool_decide (length numbers = 5))
           matched missing.

(** The scan [for (const grid of ticket.grids) for (const row of grid.rows)]
    of [validateTicket]: the first winning row's result. *)
Definition scanRows (allRows : list TicketRow) (calledNumbers : list nat)
  : ValidationResult nat :=
  match list_find (λ res, isWinner res = true)
                  (map (λ row, validateNumbers (rowNumbers row) calledNumbers) allRows) with
  | Some (_, res) => res
  | None => mkResult true false [] []
  end.

(** [validateTicket(ticket, calledNumbers, claimedGrid?, claimedRow?)];
    the claimed indices are JavaScript numbers, here integers. *)
Definition validateTicket (ticket : LotoTicket) (calledNumbers : list nat)
    (claimedGrid claimedRow : option Z) : outcome (ValidationResult nat) :=
  let scan := Returns (scanRows (concat (map rows (grids ticket))) calledNumbers) in
  match claimedGrid, claimedRow with
  | Some g, Some r =>
    if decide ((0 ≤ g)%Z ∧ (g < Z.of_nat (length (grids ticket)))%Z ∧ (0 ≤ r)%Z ∧ (r < 3)%Z)
    then
      match (grids ticket !! Z.to_nat g) ≫= (λ grid, rows grid !! Z.to_nat r) with
      | Some row => Returns (validateNumbers (rowNumbers row) calledNumbers)
      | None => Throws
      end
    else scan
  | _, _ => scan
  end.

End NumberGenerator.

(* ================================================================== *)
(** * Strings *)

(** [String.prototype.toUpperCase] on ASCII letters. *)
Definition upperAscii (a : Ascii.ascii) : Ascii.ascii :=
  let n := Ascii.nat_of_ascii a in
  if decide (97 ≤ n ∧ n ≤ 122) then Ascii.ascii_of_nat (n - 32) else a.

Fixpoint toUpperCase (s : string) : string :=
  match s with
  | EmptyString => EmptyString
  | String a s' => String (upperAscii a) (toUpperCase s')
  end.

(** JavaScript truthiness of a string. *)
Definition truthy (s : string) : bool := negb (bool_decide (s = ""%string)).

(* ================================================================== *)
(** * Shared records of the two servers *)

Inductive RoomStatus := waiting | playing | finished.
Inductive CheckMode := manual | auto.

#[global] Instance RoomStatus_eq_dec : EqDecision RoomStatus.
Proof. solve_decision. Defined.
#[global] Instance CheckMode_eq_dec : EqDecision CheckMode.
Proof. solve_decision. Defined.

Record RoomSettings := mkSettings {
  maxPlayers : nat;
  ticketsPerPlayer : Z;
  autoCall : bool;
  callSpeed : nat;
  checkMode : CheckMode
}.

Record CalledNumber := mkCalled {
  number : nat;
  calledAt : nat
}.

(** The failures a request reports to its caller. *)
Inductive Failure :=
  | RoomNotFound      (* 'Room not found' *)
  | RoomFull          (* 'Room is full' *)
  | PlayerNotFound
  | NotHost
  | NotPlaying
  | NoNumbersLeft.

#[global] Instance Failure_eq_dec : EqDecision Failure.
Proof. solve_decision. Defined.

(** The invalid answer [{ isValid: false, isWinner: false, matchedNumbers: [], missingNumbers: [] }]. *)
Definition invalidResult : ValidationResult nat := mkResult false false [] [].

(** [arr[i] = v] on a JavaScript array: an index past the end extends the
    array; the holes in between read as [undefined], which is falsy. *)
Definition jsWrite (arr : list bool) (i : nat) (v : bool) : list bool :=
  if decide (i < length arr) then <[i := v]> arr
  else arr ++ replicate (i - length arr) false ++ [v].

(** [!arr[i]]: the negation of [undefined] is [true]. *)
Definition jsNot (arr : list bool) (i : nat) : bool :=
  match arr !! i with
  | Some b => negb b
  | None => true
  end.

(** [cells[col] !== null]: [undefined], past the end, is not [null]. *)
Definition notNull (cells : list (option nat)) (col : nat) : bool :=
  match cells !! col with
  | Some None => false
  | _ => true
  end.

(** [rowData.marked[col] = !rowData.marked[col]] *)
Definition toggleMarked (row : TicketRow) (col : nat) : TicketRow :=
  mkRow (cells row) (jsWrite (marked row) col (jsNot (marked row) col)).

(** The ticket with the mark at [grid], [row], [col] toggled. *)
Definition toggleCell (ticket : LotoTicket) (grid row col : nat) : LotoTicket :=
  mkTicket (ticketId ticket)
           (alter (λ g, mkGrid (alter (λ r, toggleMarked r col) row (rows g))) grid
                  (grids ticket))
           (ownerId ticket) (roomId ticket).

(* ================================================================== *)
(** * The rest of the number generator ([src/lib/number-generator.ts]) *)

Module GameLogic.
Import NumberGenerator.

(** The loop [for (let r = 0; r < 3; r++)] of [checkTicketWinner] from
    row [r] on, with [left = 3 - r].  [grid.rows[r]] of a grid with fewer
    rows is [undefined], on which [checkRowWinner] raises a [TypeError]. *)
Fixpoint checkRowsFrom (left r : nat) (grid : TicketGrid) (calledNumbers : list nat)
  : outcome (option nat) :=
  match left with
  | 0 => Returns None
  | S left' =>
    match rows grid !! r with
    | None => Throws
    | Some row =>
      if checkRowWinner row calledNumbers then Returns (Some r)
      else checkRowsFrom left' (S r) grid calledNumbers
    end
  end.

(** The loop [for (let g = 0; g < ticket.grids.length; g++)]. *)
Fixpoint checkGridsFrom (g : nat) (gs : list TicketGrid) (calledNumbers : list nat)
  : outcome (option (nat * nat)) :=
  match gs with
  | [] => Returns None
  | grid :: gs' =>
    r ← checkRowsFrom 3 0 grid calledNumbers;
    match r with
    | Some r' => Returns (Some (g, r'))
    | None => checkGridsFrom (S g) gs' calledNumbers
    end
  end.

(** [checkTicketWinner(ticket, calledNumbers)]: [Some (g, r)] stands for
    [{ isWinner: true, winningGrid: g, winningRow: r }] and [None] for
    [{ isWinner: false, winningGrid: null, winningRow: null }]. *)
Definition checkTicketWinner (ticket : LotoTicket) (calledNumbers : list nat)
  : outcome (option (nat * nat)) :=
  checkGridsFrom 0 (grids ticket) calledNumbers.





(** [row.cells.indexOf(number)]; [None] is [-1]. *)
Definition indexOf (cells : list (option nat)) (number : nat) : option nat :=
  fst <$> list_find (λ c, c = Some number) cells.

(** The row callback of [autoMarkNumber]. *)
Definition autoMarkRow (number : nat) (row : TicketRow) : TicketRow :=
  match indexOf (cells row) number with
  | Some cellIndex => mkRow (cells row) (jsWrite (marked row) cellIndex true)
  | None => row
  end.

(** [autoMarkNumber(ticket, number)] *)
Definition autoMarkNumber (ticket : LotoTicket) (number : nat) : LotoTicket :=
  mkTicket (ticketId ticket)
           (map (λ grid, mkGrid (map (autoMarkRow number) (rows grid))) (grids ticket))
           (ownerId ticket) (roomId ticket).

Record GameStats := mkStats {
  totalCalled : nat;
  remaining : Z;
  lastNumber : option nat;
  percentComplete : nat
}.

(** [getGameStats(calledNumbers)].  [(length / 90) * 100] is a ninth of an
    integer, never within 1/18 of a half, so [Math.round] of the
    floating-point product is the rounding of the exact quotient:
    [floor((20 * length + 9) / 18)]. *)
Definition getGameStats (calledNumbers : list CalledNumber) : GameStats :=
  let len := length calledNumbers in
  mkStats len (90 - Z.of_nat len) (number <$> last calledNumbers)
          ((20 * len + 9) `div` 18).

End GameLogic.

(* ================================================================== *)
(** * The store-backed services ([src/services/*.service.ts]) *)

Module Services.
Import NumberGenerator.

Record PlayerDoc := mkPlayer {
  oderId : string;
  nickname : string;
  roomCode : string;
  isHost : bool
}.

Record RoomDoc := mkRoom {
  code : string;
  hostId : string;
  status : RoomStatus;
  settings : RoomSettings;
  players : list PlayerDoc
}.

Record Winner := mkWinner {
  winnerId : string;
  winnerNickname : string;
  winnerTicket : string;
  winnerRow : nat
}.

Record SessionDoc := mkSession {
  sessionId : string;
  sessionRoom : string;
  calledNumbers : list CalledNumber;
  startedAt : nat;
  endedAt : option nat;
  winner : option Winner
}.

(** The collections of the durable store and the two cache key spaces
    ['room:' + code] and ['session:' + code]. *)
Record Db := mkDb {
  roomDocs : list RoomDoc;
  playerDocs : list PlayerDoc;
  ticketDocs : list LotoTicket;
  sessionDocs : list SessionDoc;
  roomCache : gmap string RoomDoc;
  sessionCache : gmap string SessionDoc
}.

Definition emptyDb : Db := mkDb [] [] [] [] ∅ ∅.

Definition withRooms (db : Db) (r : list RoomDoc) (c : gmap string RoomDoc) : Db :=
  mkDb r (playerDocs db) (ticketDocs db) (sessionDocs db) c (sessionCache db).
Definition withPlayers (db : Db) (ps : list PlayerDoc) : Db :=
  mkDb (roomDocs db) ps (ticketDocs db) (sessionDocs db) (roomCache db) (sessionCache db).
Definition withTickets (db : Db) (ts : list LotoTicket) : Db :=
  mkDb (roomDocs db) (playerDocs db) ts (sessionDocs db) (roomCache db) (sessionCache db).
Definition withSessions (db : Db) (ss : list SessionDoc) (c : gmap string SessionDoc) : Db :=
  mkDb (roomDocs db) (playerDocs db) (ticketDocs db) ss (roomCache db) c.

Definition setStatus (room : RoomDoc) (st : RoomStatus) : RoomDoc :=
  mkRoom (code room) (hostId room) st (settings room) (players room).

(** [Room.findOne({ code })] with the position of the document. *)
Definition findRoom (c : string) (db : Db) : option (nat * RoomDoc) :=
  list_find (λ r, code r = c) (roomDocs db).

(** [Room.findOneAndUpdate({ code }, { status })] *)
Definition updateRoomStatus (c : string) (st : RoomStatus) (rooms : list RoomDoc)
  : list RoomDoc :=
  match list_find (λ r, code r = c) rooms with
  | Some (i, room) => <[i := setStatus room st]> rooms
  | None => rooms
  end.

(** [GameSession.findOne({ roomCode, endedAt: { $exists: false } }).sort({ startedAt: -1 })] *)
Definition findActiveSession (c : string) (sessions : list SessionDoc)
  : option (nat * SessionDoc) :=
  head (sortCmp (λ a b, Z.of_nat (startedAt b.2) - Z.of_nat (startedAt a.2))%Z
                (filter (λ e, sessionRoom e.2 = c ∧ endedAt e.2 = None)
                        (imap (λ i s, (i, s)) sessions))).

(** ** RoomService *)

(** [RoomService.createRoom(hostNickname, settings)]; [newCode] and [newId]
    are the values of [generateRoomCode()] and [generateId()].  The unique
    index on [code] rejects a second room with the same code while the
    host's player document is saved regardless. *)
Definition createRoom (newCode newId hostNickname : string) (st : RoomSettings) (db : Db)
  : outcome (RoomDoc * PlayerDoc) * Db :=
  let player := mkPlayer newId hostNickname newCode true in
  let room := mkRoom newCode newId waiting st [player] in
  let db1 := withPlayers db (playerDocs db ++ [player]) in
  match findRoom newCode db with
  | Some _ => (Throws, db1)
  | None =>
    (Returns (room, player),
     withRooms db1 (roomDocs db1 ++ [room]) (<[newCode := room]> (roomCache db1)))
  end.

(** [RoomService.getRoom(code)]: the cached room, else the stored one,
    which is then cached. *)
Definition getRoom (c : string) (db : Db) : option RoomDoc * Db :=
  match roomCache db !! toUpperCase c with
  | Some room => (Some room, db)
  | None =>
    match findRoom (toUpperCase c) db with
    | Some (_, room) =>
      (Some room, withRooms db (roomDocs db) (<[code room := room]> (roomCache db)))
    | None => (None, db)
    end
  end.

(** [Player.countDocuments({ roomCode })] *)
Definition countPlayers (c : string) (db : Db) : nat :=
  length (filter (λ pl, roomCode pl = c) (playerDocs db)).

(** [RoomService.joinRoom(code, nickname)]; a thrown [Error] is [inl]. *)
Definition joinRoom (newId c nick : string) (db : Db)
  : (Failure + RoomDoc * PlayerDoc) * Db :=
  match findRoom (toUpperCase c) db with
  | None => (inl RoomNotFound, db)
  | Some (i, room) =>
    let playerCount := countPlayers (toUpperCase c) db in
    if decide (maxPlayers (settings room) ≤ playerCount) then (inl RoomFull, db)
    else
      let player := mkPlayer newId nick (toUpperCase c) false in
      let room' := mkRoom (code room) (hostId room) (status room) (settings room)
                          (players room ++ [player]) in
      (inr (room', player),
       mkDb (<[i := room']> (roomDocs db)) (playerDocs db ++ [player])
            (ticketDocs db) (sessionDocs db)
            (<[code room' := room']> (roomCache db)) (sessionCache db))
  end.

(** ** GameService *)

(** [GameService.startGame(roomCode)]; [newId] is the session id. *)
Definition startGame (newId : string) (now : nat) (c : string) (db : Db)
  : SessionDoc * Db :=
  let session := mkSession newId (toUpperCase c) [] now None None in
  (session,
   mkDb (updateRoomStatus (toUpperCase c) playing (roomDocs db)) (playerDocs db)
        (ticketDocs db) (sessionDocs db ++ [session])
        (delete (toUpperCase c) (roomCache db))
        (<[sessionRoom session := session]> (sessionCache db))).

Definition pushCalled (session : SessionDoc) (n now : nat) : SessionDoc :=
  mkSession (sessionId session) (sessionRoom session)
            (calledNumbers session ++ [mkCalled n now])
            (startedAt session) (endedAt session) (winner session).

(** [GameService.spinNumber(roomCode)]: the pool is [1..89]. *)
Definition spinNumber (rnd : nat → nat) (p now : nat) (c : string) (db : Db)
  : option (nat * SessionDoc) * Db * nat :=
  match findActiveSession (toUpperCase c) (sessionDocs db) with
  | None => (None, db, p)
  | Some (i, session) =>
    let calledNums := map number (calledNumbers session) in
    let available := availableNumbers 89 calledNums in
    if decide (length available = 0) then (None, db, p)
    else
      let n := available !!! randomIndex rnd p (length available) in
      let session' := pushCalled session n now in
      (Some (n, session'),
       withSessions db (<[i := session']> (sessionDocs db))
                    (<[sessionRoom session' := session']> (sessionCache db)),
       S p)
  end.

(** [GameService.getActiveSession(roomCode)]: the cache answers first. *)
Definition getActiveSession (c : string) (db : Db) : option SessionDoc :=
  match sessionCache db !! toUpperCase c with
  | Some session => Some session
  | None => snd <$> findActiveSession (toUpperCase c) (sessionDocs db)
  end.

Definition endSession (session : SessionDoc) (now : nat) (w : option Winner) : SessionDoc :=
  mkSession (sessionId session) (sessionRoom session) (calledNumbers session)
            (startedAt session) (Some now) w.

(** [GameService.resetGame(roomCode)] *)
Definition resetGame (now : nat) (c : string) (db : Db) : Db :=
  let db1 :=
    match findActiveSession (toUpperCase c) (sessionDocs db) with
    | Some (i, session) =>
      withSessions db (<[i := endSession session now (winner session)]> (sessionDocs db))
                   (delete (toUpperCase c) (sessionCache db))
    | None => db
    end in
  withRooms db1 (updateRoomStatus (toUpperCase c) waiting (roomDocs db1))
            (delete (toUpperCase c) (roomCache db1)).

(** The first row of [rows], from index [rowIndex] on, whose numbers are
    all called. *)
Fixpoint winningRowFrom (rowIndex : nat) (rs : list TicketRow) (called : list nat)
  : option nat :=
  match rs with
  | [] => None
  | row :: rs' =>
    if forallb (λ n, bool_decide (n ∈ called)) (rowNumbers row) then Some rowIndex
    else winningRowFrom (S rowIndex) rs' called
  end.

(** [for (const grid of ticket.grids)] *)
Fixpoint winningRowOf (gs : list TicketGrid) (called : list nat) : option nat :=
  match gs with
  | [] => None
  | grid :: gs' =>
    match winningRowFrom 0 (rows grid) called with
    | Some r => Some r
    | None => winningRowOf gs' called
    end
  end.

(** [for (const ticket of tickets)] *)
Fixpoint firstWinner (ts : list LotoTicket) (called : list nat)
  : option (LotoTicket * nat) :=
  match ts with
  | [] => None
  | t :: ts' =>
    match winningRowOf (grids t) called with
    | Some r => Some (t, r)
    | None => firstWinner ts' called
    end
  end.

(** [GameService.checkAutoWinner(roomCode, calledNumbers)]: on a hit the
    update [{ winner, endedAt: new Date() }] goes to the first session
    matching [{ roomCode, endedAt: null }]. *)
Definition checkAutoWinner (now : nat) (c : string) (called : list nat) (db : Db)
  : option Winner * Db :=
  let tickets := filter (λ t, roomId t = toUpperCase c) (ticketDocs db) in
  match firstWinner tickets called with
  | None => (None, db)
  | Some (ticket, rowIndex) =>
    let nick :=
      match list_find (λ pl, oderId pl = ownerId ticket) (playerDocs db) with
      | Some (_, pl) => if truthy (nickname pl) then nickname pl else "Unknown"%string
      | None => "Unknown"%string
      end in
    let w := mkWinner (ownerId ticket) nick (ticketId ticket) rowIndex in
    let sessions :=
      match list_find (λ s, sessionRoom s = toUpperCase c ∧ endedAt s = None)
                      (sessionDocs db) with
      | Some (i, session) => <[i := endSession session now (Some w)]> (sessionDocs db)
      | None => sessionDocs db
      end in
    (Some w, withSessions db sessions (sessionCache db))
  end.

(** ** TicketService *)

(** [Ticket.countDocuments({ roomCode, ownerId })] *)
Definition countTickets (c owner : string) (db : Db) : nat :=
  length (filter (λ t, roomId t = c ∧ ownerId t = owner) (ticketDocs db)).

(** The loop [for (let i = 0; i < actualCount; i++)] of [createTickets];
    [uuid i] is the identifier the [i]-th ticket receives. *)
Fixpoint makeTickets (n i fuel : nat) (rnd : nat → nat) (p : nat) (uuid : nat → string)
    (c owner : string) : outcome (list LotoTicket * nat) :=
  match n with
  | 0 => Returns ([], p)
  | S n' =>
    '(ticket, p') ← generateTicket fuel rnd p (uuid i) c owner;
    '(rest, p'') ← makeTickets n' (S i) fuel rnd p' uuid c owner;
    Returns (ticket :: rest, p'')
  end.

(** What [new Ticket(data)] keeps of [data]: the paths the ticket schema
    declares, [id], [roomCode], [ownerId] and [grids] ([createdAt] has a
    default).  [None] is a path [data] does not set. *)
Record TicketInput := mkInput {
  inputId : option string;
  inputRoomCode : option string;
  inputOwnerId : option string;
  inputGrids : list TicketGrid
}.

(** [new Ticket(ticketData)] on the object [generateTicket] returns, whose
    keys are [id], [grids], [ownerId], [roomId] and [createdAt]: the schema
    declares no path [roomId], so the key is dropped, and nothing sets
    [roomCode]. *)
Definition newTicket (ticketData : LotoTicket) : TicketInput :=
  mkInput (Some (ticketId ticketData)) None (Some (ownerId ticketData)) (grids ticketData).

(** [required: true] on a string path: the path is set and not empty. *)
Definition required (v : option string) : option string :=
  match v with
  | Some s => if truthy s then Some s else None
  | None => None
  end.

(** Validation of a ticket document: [id], [roomCode] and [ownerId] are
    required.  A valid document is stored, and read back as the ticket
    whose [roomId] holds the path [roomCode]. *)
Definition validated (doc : TicketInput) : option LotoTicket :=
  i ← required (inputId doc);
  c ← required (inputRoomCode doc);
  o ← required (inputOwnerId doc);
  Some (mkTicket i (inputGrids doc) o c).

(** [Ticket.insertMany(docs)]: every document is validated before any is
    written, and one that fails rejects the call with a
    [ValidationError].  The unique index on [id] is left out: the
    identifiers are fresh [uuidv4()] values. *)
Definition insertMany (docs : list TicketInput) (db : Db)
  : outcome (list LotoTicket * Db) :=
  match mapM validated docs with
  | Some ts => Returns (ts, withTickets db (ticketDocs db ++ ts))
  | None => Throws
  end.

(** [TicketService.createTickets(roomCode, ownerId, count, maxPerPlayer)] *)
Definition createTickets (fuel : nat) (rnd : nat → nat) (p : nat) (uuid : nat → string)
    (c owner : string) (count maxPerPlayer : Z) (db : Db)
  : outcome (list LotoTicket * Db * nat) :=
  let existingCount := countTickets (toUpperCase c) owner db in
  let allowed := Z.max 0 (maxPerPlayer - Z.of_nat existingCount) in
  let actualCount := Z.min count allowed in
  if decide (actualCount ≤ 0)%Z then Returns ([], db, p)
  else
    '(ticketData, p') ← makeTickets (Z.to_nat actualCount) 0 fuel rnd p uuid
                          (toUpperCase c) owner;
    '(newTickets, db') ← insertMany (map newTicket ticketData) db;
    Returns (newTickets, db', p').

(** One pass of the body of [markNumber]'s retry loop: the ticket to save,
    if the addressed row exists and its cell is not [null]. *)
Definition markedTicket (ticket : LotoTicket) (grid row col : nat) : option LotoTicket :=
  match (grids ticket !! grid) ≫= (λ g, rows g !! row) with
  | Some rowData =>
    if notNull (cells rowData) col then Some (toggleCell ticket grid row col) else None
  | None => None
  end.

(** The loop [while (attempt < MAX_RETRIES)]; [conflict a] tells whether
    the [save()] of attempt [a] meets a [VersionError], and [left] is
    [MAX_RETRIES - attempt]. *)
Fixpoint markLoop (left attempt : nat) (conflict : nat → bool)
    (tid : string) (grid row col : nat) (db : Db) : outcome Db :=
  match left with
  | 0 => Returns db
  | S left' =>
    match list_find (λ t, ticketId t = tid) (ticketDocs db) with
    | None => Returns db
    | Some (i, ticket) =>
      match markedTicket ticket grid row col with
      | None => Returns db
      | Some ticket' =>
        if conflict attempt then
          if decide (attempt < 2) then markLoop left' (S attempt) conflict tid grid row col db
          else Throws
        else Returns (withTickets db (<[i := ticket']> (ticketDocs db)))
      end
    end
  end.

(** [TicketService.markNumber(ticketId, grid, row, col)] *)
Definition markNumber (conflict : nat → bool) (tid : string) (grid row col : nat) (db : Db)
  : outcome Db :=
  markLoop 3 0 conflict tid grid row col db.

(** [TicketService.getTicketById(id)] *)
Definition getTicketById (tid : string) (db : Db) : option LotoTicket :=
  snd <$> list_find (λ t, ticketId t = tid) (ticketDocs db).

(** [RoomService.getRoomPlayers(code)] *)
Definition getRoomPlayers (c : string) (db : Db) : list PlayerDoc :=
  filter (λ pl, roomCode pl = toUpperCase c) (playerDocs db).

(** [TicketService.getPlayerTickets(roomCode, ownerId)]; [getTickets] has
    the same body. *)
Definition getPlayerTickets (c owner : string) (db : Db) : list LotoTicket :=
  filter (λ t, roomId t = toUpperCase c ∧ ownerId t = owner) (ticketDocs db).

End Services.

(* ================================================================== *)
(** * The socket handlers of the store-backed server ([server.ts]) *)

Module Server.
Import NumberGenerator Services.

(** [socket.data] once a client created or joined a room. *)
Record SocketData := mkData {
  dataRoom : string;
  dataOder : string;
  dataHost : bool;
  dataNick : string
}.

(** What a handler broadcasts to a room with [io.to(room).emit]. *)
Inductive Event :=
  | GameStarted (room : string)
  | RoomUpdated (room : string) (doc : RoomDoc)
  | NumberCalled (room : string) (n : nat) (called : list nat)
  | AudioPlaySequence (room : string) (n : nat)
  | AutoWinner (room : string) (w : Winner)
  | GameWinner (room winner nick ticket : string) (grid row : option Z)
  | KinhCalled (room player nick ticket : string) (grid row : option Z)
  | GameReset (room : string).

(** The store, the rooms with a running auto-call timer and the events
    broadcast so far. *)
Record World := mkWorld {
  db : Db;
  autoCallIntervals : gset string;
  emitted : list Event
}.

(** [stopAutoCall(roomCode)] *)
Definition stopAutoCall (c : string) (timers : gset string) : gset string :=
  timers ∖ {[c]}.

(** [startAutoCall(roomCode, speed, io)]: any running timer is cleared first. *)
Definition startAutoCall (c : string) (timers : gset string) : gset string :=
  {[c]} ∪ stopAutoCall c timers.

(** The part the spin handler and the timer tick share once
    [GameService.spinNumber] has answered [{ number, session }]. *)
Definition announce (now : nat) (c : string) (n : nat) (session : SessionDoc) (w : World)
  : World :=
  let called := map number (calledNumbers session) in
  let ev := emitted w ++ [NumberCalled c n called; AudioPlaySequence c n] in
  let '(room, db1) := getRoom c (db w) in
  match room with
  | Some r =>
    if decide (checkMode (settings r) = auto) then
      match checkAutoWinner now c called db1 with
      | (Some win, db2) =>
        mkWorld db2 (stopAutoCall c (autoCallIntervals w)) (ev ++ [AutoWinner c win])
      | (None, db2) => mkWorld db2 (autoCallIntervals w) ev
      end
    else mkWorld db1 (autoCallIntervals w) ev
  | None => mkWorld db1 (autoCallIntervals w) ev
  end.

(** [socket.on('game:spin', callback)]: the answer handed to [callback]. *)
Definition onSpin (rnd : nat → nat) (p now : nat) (data : option SocketData) (w : World)
  : (Failure + nat) * World * nat :=
  match data with
  | Some d =>
    if dataHost d && truthy (dataRoom d) then
      match spinNumber rnd p now (dataRoom d) (db w) with
      | (None, db1, p') => (inl NoNumbersLeft, mkWorld db1 (autoCallIntervals w) (emitted w), p')
      | (Some (n, session), db1, p') =>
        (inr n,
         announce now (dataRoom d) n session (mkWorld db1 (autoCallIntervals w) (emitted w)),
         p')
      end
    else (inl NotHost, w, p)
  | None => (inl NotHost, w, p)
  end.

(** One tick of the interval [startAutoCall] installs for room [c]. *)
Definition autoCallTick (rnd : nat → nat) (p now : nat) (c : string) (w : World)
  : World * nat :=
  match spinNumber rnd p now c (db w) with
  | (None, db1, p') => (mkWorld db1 (stopAutoCall c (autoCallIntervals w)) (emitted w), p')
  | (Some (n, session), db1, p') =>
    (announce now c n session (mkWorld db1 (autoCallIntervals w) (emitted w)), p')
  end.

(** [socket.on('game:start')] *)
Definition onStart (newId : string) (now : nat) (data : option SocketData) (w : World)
  : World :=
  match data with
  | Some d =>
    if dataHost d && truthy (dataRoom d) then
      let '(session, db1) := startGame newId now (dataRoom d) (db w) in
      let '(room, db2) := getRoom (dataRoom d) db1 in
      match room with
      | Some r =>
        mkWorld db2
                (if autoCall (settings r) then startAutoCall (dataRoom d) (autoCallIntervals w)
                 else autoCallIntervals w)
                (emitted w ++ [GameStarted (dataRoom d); RoomUpdated (dataRoom d) r])
      | None => mkWorld db2 (autoCallIntervals w) (emitted w ++ [GameStarted (dataRoom d)])
      end
    else w
  | None => w
  end.

(** [socket.on('game:reset')] *)
Definition onReset (now : nat) (data : option SocketData) (w : World) : World :=
  match data with
  | Some d =>
    if dataHost d && truthy (dataRoom d) then
      let db1 := resetGame now (dataRoom d) (db w) in
      let '(room, db2) := getRoom (dataRoom d) db1 in
      mkWorld db2 (stopAutoCall (dataRoom d) (autoCallIntervals w))
              (emitted w ++ GameReset (dataRoom d) ::
                 match room with Some r => [RoomUpdated (dataRoom d) r] | None => [] end)
    else w
  | None => w
  end.

(** [socket.on('player:call-kinh', (ticketId, grid, row, callback))]:
    [None] when [callback] is never invoked. *)
Definition onCallKinh (data : option SocketData) (tid : string) (grid row : option Z)
    (w : World) : option (ValidationResult nat) * World :=
  match data with
  | Some d =>
    if truthy (dataRoom d) && truthy (dataOder d) then
      match getActiveSession (dataRoom d) (db w), getTicketById tid (db w) with
      | Some session, Some ticket =>
        let timers := stopAutoCall (dataRoom d) (autoCallIntervals w) in
        let calledNums := map number (calledNumbers session) in
        match validateTicket ticket calledNums grid row with
        | Returns result =>
          let kinh := KinhCalled (dataRoom d) (dataOder d) (dataNick d) tid grid row in
          let win := GameWinner (dataRoom d) (dataOder d) (dataNick d) tid grid row in
          (Some result,
           mkWorld (db w) timers
                   (emitted w ++ kinh :: (if isWinner result then [win] else [])))
        | _ => (None, mkWorld (db w) timers (emitted w))
        end
      | _, _ => (None, w)
      end
    else (None, w)
  | None => (None, w)
  end.

(** [socket.on('player:mark-number', ...)] *)
Definition onMarkNumber (conflict : nat → bool) (tid : string) (grid row col : nat)
    (w : World) : outcome World :=
  db' ← markNumber conflict tid grid row col (db w);
  Returns (mkWorld db' (autoCallIntervals w) (emitted w)).

End Server.

(* ================================================================== *)
(** * The legacy in-memory server ([server.js]) *)

Module ServerJs.
Import NumberGenerator.

(** [validateNumbers(numbers, calledNumbers)] *)
Definition validateNumbers `{EqDecision A} (numbers calledNumbers : list A)
  : ValidationResult A :=
  let matched := filter (λ n, n ∈ calledNumbers) numbers in
  let missing := filter (λ n, n ∉ calledNumbers) numbers in
  mkResult true
           (bool_decide (length matched = 5) && bool_decide (length numbers = 5))
           matched missing.

(** Step 2 of [generateGrid] for one column: draw in [min..max] until
    [count] distinct numbers are there. *)
Fixpoint sampleColumn (fuel : nat) (rnd : nat → nat) (p : nat) (min max count : nat)
    (nums : list nat) : outcome (list nat * nat) :=
  match fuel with
  | 0 => if decide (length nums < count) then Diverges else Returns (nums, p)
  | S fuel' =>
    if decide (length nums < count) then
      let n := randomIndex rnd p (max - min + 1) + min in
      if decide (n ∈ nums) then sampleColumn fuel' rnd (S p) min max count nums
      else sampleColumn fuel' rnd (S p) min max count (nums ++ [n])
    else Returns (nums, p)
  end.

(** [for (let c = 0; c < 9; c++)] of step 2. *)
Fixpoint randomNumbers (fuel : nat) (rnd : nat → nat) (p : nat) (colCounts : list nat)
    (cs : list nat) (gridNumbers : list (list nat)) : outcome (list (list nat) * nat) :=
  match cs with
  | [] => Returns (gridNumbers, p)
  | c :: cs' =>
    let count := colCounts !!! c in
    let '(min, max) := colRanges !!! c in
    '(nums, p') ← sampleColumn fuel rnd p min max count [];
    randomNumbers fuel rnd p' colCounts cs' (gridNumbers ++ [sortCmp ascending nums])
  end.

(** [generateGrid()]; [retries] bounds the depth of the closing
    [return generateGrid()]. *)
Fixpoint generateGrid (retries fuel : nat) (rnd : nat → nat) (p : nat)
  : outcome (TicketGrid * nat) :=
  match retries with
  | 0 => Diverges
  | S retries' =>
    '(colCounts, p1) ← fillColCounts fuel rnd p (replicate 9 1) 6;
    '(gridNumbers, p2) ← randomNumbers fuel rnd p1 colCounts (seq 0 9) [];
    '(grid, p3) ← distributeRows 100 rnd p2 colCounts gridNumbers;
    match grid with
    | Some g => Returns (g, p3)
    | None => generateGrid retries' fuel rnd p3
    end
  end.

(** [for (let i = 0; i < 3; i++) grids.push(generateGrid())] *)
Fixpoint threeGrids (n retries fuel : nat) (rnd : nat → nat) (p : nat)
    (grids : list TicketGrid) : outcome (list TicketGrid * nat) :=
  match n with
  | 0 => Returns (grids, p)
  | S n' =>
    '(g, p') ← generateGrid retries fuel rnd p;
    threeGrids n' retries fuel rnd p' (grids ++ [g])
  end.

(** [generateTicket(roomCode, ownerId)]; [newId] is [generateId()]. *)
Definition generateTicket (retries fuel : nat) (rnd : nat → nat) (p : nat)
    (newId roomCode owner : string) : outcome (LotoTicket * nat) :=
  '(grids, p') ← threeGrids 3 retries fuel rnd p [];
  Returns (mkTicket newId grids owner roomCode, p').

Record Player := mkPlayer {
  playerId : string;
  nickname : string;
  socketId : string;
  tickets : list string;
  isHost : bool
}.

Record Winner := mkWinner {
  winnerId : string;
  winnerNick : string;
  winnerTicket : string;
  winnerGrid : Z;
  winnerRow : Z
}.

Record Session := mkSession {
  sessionId : string;
  sessionRoom : string;
  calledNumbers : list CalledNumber;
  winner : option Winner
}.

Record Settings := mkSettings {
  maxPlayers : nat;
  ticketsPerPlayer : Z
}.

Record Room := mkRoom {
  code : string;
  hostId : string;
  players : list Player;
  status : RoomStatus;
  currentSession : option Session;
  settings : Settings
}.

(** An entry of the map [players], keyed by socket id. *)
Record PlayerData := mkData {
  oderId : string;
  roomCode : string;
  dataHost : bool
}.

(** The module-level maps [rooms], [players] and [tickets]. *)
Record State := mkState {
  rooms : gmap string Room;
  playerMap : gmap string PlayerData;
  ticketMap : gmap string LotoTicket
}.

Definition emptyState : State := mkState ∅ ∅ ∅.

Inductive Event :=
  | PlayerJoined (room : string) (pl : Player)
  | RoomUpdated (room : string)
  | GameStarted (room : string)
  | NumberCalled (room : string) (n : nat) (called : list nat)
  | AudioPlaySequence (room : string) (n : nat)
  | KinhCalled (room player nick ticket : string) (grid row : Z)
  | GameWinner (room winner nick ticket : string) (grid row : Z)
  | GameReset (room : string).

(** [{ maxPlayers: 50, ticketsPerPlayer: 5, ...settings }] *)
Definition mergeSettings (maxP : option nat) (perPlayer : option Z) : Settings :=
  mkSettings (default 50 maxP) (default 5%Z perPlayer).

(** [socket.on('room:create', ...)]; [newCode] and [newId] are the values
    of [generateRoomCode()] and of the first [generateId()]. *)
Definition onCreate (socket newCode newId hostNickname : string)
    (maxP : option nat) (perPlayer : option Z) (st : State) : Room * State :=
  let hostPlayer := mkPlayer newId hostNickname socket [] true in
  let room := mkRoom newCode newId [hostPlayer] waiting None (mergeSettings maxP perPlayer) in
  (room,
   mkState (<[newCode := room]> (rooms st))
           (<[socket := mkData newId newCode true]> (playerMap st))
           (ticketMap st)).

(** [socket.on('room:join', (code, nickname, callback))] *)
Definition onJoin (socket newId c nick : string) (st : State)
  : (Failure + Room) * State * list Event :=
  match rooms st !! toUpperCase c with
  | None => (inl RoomNotFound, st, [])
  | Some room =>
    if decide (maxPlayers (settings room) ≤ length (players room)) then (inl RoomFull, st, [])
    else
      let player := mkPlayer newId nick socket [] false in
      let room' := mkRoom (code room) (hostId room) (players room ++ [player])
                          (status room) (currentSession room) (settings room) in
      (inr room',
       mkState (<[toUpperCase c := room']> (rooms st))
               (<[socket := mkData newId c false]> (playerMap st))
               (ticketMap st),
       [PlayerJoined c player; RoomUpdated c; PlayerJoined c player; RoomUpdated c])
  end.

(** [socket.on('game:start')]; [newId] is the session id. *)
Definition onStart (socket newId : string) (st : State) : State :=
  match playerMap st !! socket with
  | Some pd =>
    if dataHost pd then
      match rooms st !! roomCode pd with
      | Some room =>
        let session := mkSession newId (roomCode pd) [] None in
        mkState (<[roomCode pd :=
                     mkRoom (code room) (hostId room) (players room) playing (Some session)
                            (settings room)]> (rooms st))
                (playerMap st) (ticketMap st)
      | None => st
      end
    else st
  | None => st
  end.

Definition setSession (room : Room) (s : option Session) : Room :=
  mkRoom (code room) (hostId room) (players room) (status room) s (settings room).

(** [socket.on('game:spin', callback)]: the pool is [1..90].  A playing
    room without a session raises a [TypeError]. *)
Definition onSpin (rnd : nat → nat) (p now : nat) (socket : string) (st : State)
  : outcome ((Failure + nat) * State * nat) :=
  match playerMap st !! socket with
  | Some pd =>
    if dataHost pd then
      match rooms st !! roomCode pd with
      | Some room =>
        if decide (status room = playing) then
          match currentSession room with
          | None => Throws
          | Some session =>
            let calledNums := map number (calledNumbers session) in
            let available := availableNumbers 90 calledNums in
            if decide (length available = 0) then Returns (inl NoNumbersLeft, st, p)
            else
              let n := available !!! randomIndex rnd p (length available) in
              let session' := mkSession (sessionId session) (sessionRoom session)
                                        (calledNumbers session ++ [mkCalled n now])
                                        (winner session) in
              Returns (inr n,
                       mkState (<[roomCode pd := setSession room (Some session')]> (rooms st))
                               (playerMap st) (ticketMap st),
                       S p)
          end
        else Returns (inl NotPlaying, st, p)
      | None => Returns (inl NotPlaying, st, p)
      end
    else Returns (inl NotHost, st, p)
  | None => Returns (inl NotHost, st, p)
  end.

(** The loop of [player:create-tickets]; [ids i] names the [i]-th ticket. *)
Fixpoint makeTickets (n i retries fuel : nat) (rnd : nat → nat) (p : nat)
    (ids : nat → string) (c owner : string) (store : gmap string LotoTicket)
  : outcome (list LotoTicket * gmap string LotoTicket * nat) :=
  match n with
  | 0 => Returns ([], store, p)
  | S n' =>
    '(ticket, p') ← generateTicket retries fuel rnd p (ids i) c owner;
    '(rest, store', p'') ←
      makeTickets n' (S i) retries fuel rnd p' ids c owner
                  (<[ticketId ticket := ticket]> store);
    Returns (ticket :: rest, store', p'')
  end.

Definition addTickets (new : list string) (pl : Player) : Player :=
  mkPlayer (playerId pl) (nickname pl) (socketId pl) (tickets pl ++ new) (isHost pl).

(** [room.players.find(p => p.id === oderId)] then
    [player.tickets = [...player.tickets, ...ids]]: only the first match. *)
Fixpoint giveTickets (oder : string) (new : list string) (ps : list Player) : list Player :=
  match ps with
  | [] => []
  | pl :: ps' =>
    if decide (playerId pl = oder) then addTickets new pl :: ps'
    else pl :: giveTickets oder new ps'
  end.

(** [socket.on('player:create-tickets', (count, callback))] *)
Definition onCreateTickets (retries fuel : nat) (rnd : nat → nat) (p : nat)
    (ids : nat → string) (socket : string) (count : Z) (st : State)
  : outcome ((Failure + list LotoTicket) * State * nat) :=
  match playerMap st !! socket with
  | None => Returns (inl PlayerNotFound, st, p)
  | Some pd =>
    match rooms st !! roomCode pd with
    | None => Returns (inl RoomNotFound, st, p)
    | Some room =>
      let n := Z.to_nat (Z.min count (ticketsPerPlayer (settings room))) in
      '(newTickets, store, p') ←
        makeTickets n 0 retries fuel rnd p ids (roomCode pd) (oderId pd) (ticketMap st);
      let room' := mkRoom (code room) (hostId room)
                          (giveTickets (oderId pd) (map ticketId newTickets) (players room))
                          (status room) (currentSession room) (settings room) in
      Returns (inr newTickets,
               mkState (<[roomCode pd := room']> (rooms st)) (playerMap st) store,
               p')
    end
  end.

(** [socket.on('player:mark-number', (ticketId, grid, row, col))]; a grid
    without the addressed row raises a [TypeError], which leaves the maps
    as they are. *)
Definition onMarkNumber (tid : string) (grid row col : Z) (st : State) : State :=
  match ticketMap st !! tid with
  | None => st
  | Some ticket =>
    if decide ((0 ≤ grid)%Z ∧ (grid < Z.of_nat (length (grids ticket)))%Z ∧
               (0 ≤ row)%Z ∧ (row < 3)%Z ∧ (0 ≤ col)%Z ∧ (col < 9)%Z)
    then
      match (grids ticket !! Z.to_nat grid) ≫= (λ g, rows g !! Z.to_nat row) with
      | Some ticketRow =>
        if notNull (cells ticketRow) (Z.to_nat col)
        then mkState (rooms st) (playerMap st)
                     (<[tid := toggleCell ticket (Z.to_nat grid) (Z.to_nat row) (Z.to_nat col)]>
                        (ticketMap st))
        else st
      | None => st
      end
    else st
  end.

(** [l[i]] for a JavaScript number [i]. *)
Definition at_ {A} (l : list A) (i : Z) : option A :=
  if decide (0 ≤ i)%Z then l !! Z.to_nat i else None.

(** [socket.on('player:call-kinh', (ticketId, grid, row, callback))] with
    the nickname [nick] of [socket.data]. *)
Definition onCallKinh (socket nick tid : string) (grid row : Z) (st : State)
  : ValidationResult nat * State * list Event :=
  match playerMap st !! socket with
  | None => (invalidResult, st, [])
  | Some pd =>
    match rooms st !! roomCode pd, ticketMap st !! tid with
    | Some room, Some ticket =>
      match currentSession room with
      | None => (invalidResult, st, [])
      | Some session =>
        let calledNums := map number (calledNumbers session) in
        match at_ (grids ticket) grid ≫= (λ g, at_ (rows g) row) with
        | None => (invalidResult, st, [])
        | Some ticketRow =>
          let rowNums := rowNumbers ticketRow in
          let matched := filter (λ n, n ∈ calledNums) rowNums in
          let missing := filter (λ n, n ∉ calledNums) rowNums in
          let isWinner := bool_decide (length matched = 5) in
          let kinh := KinhCalled (roomCode pd) (oderId pd) nick tid grid row in
          if isWinner then
            let session' := mkSession (sessionId session) (sessionRoom session)
                                      (calledNumbers session)
                                      (Some (mkWinner (oderId pd) nick tid grid row)) in
            (mkResult true isWinner matched missing,
             mkState (<[roomCode pd := setSession room (Some session')]> (rooms st))
                     (playerMap st) (ticketMap st),
             [kinh; GameWinner (roomCode pd) (oderId pd) nick tid grid row])
          else (mkResult true isWinner matched missing, st, [kinh])
        end
      end
    | _, _ => (invalidResult, st, [])
    end
  end.

(** [socket.on('game:reset')] *)
Definition onReset (socket : string) (st : State) : State :=
  match playerMap st !! socket with
  | Some pd =>
    if dataHost pd then
      match rooms st !! roomCode pd with
      | Some room =>
        let owned := concat (map tickets (players room)) in
        let cleared := map (λ pl, mkPlayer (playerId pl) (nickname pl) (socketId pl) []
                                           (isHost pl)) (players room) in
        mkState (<[roomCode pd := mkRoom (code room) (hostId room) cleared waiting None
                                         (settings room)]> (rooms st))
                (playerMap st)
                (foldl (λ m tId, delete tId m) (ticketMap st) owned)
      | None => st
      end
    else st
  | None => st
  end.

(** [validateTicket(ticket, calledNumbers)] of [server.js]; [None] is a
    ticket that is [undefined]. *)
Definition validateTicket (ticket : option LotoTicket) (calledNumbers : list nat)
  : ValidationResult nat :=
  match ticket with
  | None => invalidResult
  | Some t =>
    match list_find (λ res, isWinner res = true)
                    (map (λ row, validateNumbers (rowNumbers row) calledNumbers)
                         (concat (map rows (grids t)))) with
    | Some (_, res) => res
    | None => mkResult true false [] []
    end
  end.

(** [socket.on('host:validate-numbers', (numbers, callback))] *)
Definition onValidateNumbers (socket : string) (numbers : list nat) (st : State)
  : ValidationResult nat :=
  match playerMap st !! socket with
  | Some pd =>
    if dataHost pd then
      match rooms st !! roomCode pd ≫= currentSession with
      | Some session => validateNumbers numbers (map number (calledNumbers session))
      | None => invalidResult
      end
    else invalidResult
  | None => invalidResult
  end.

(** [socket.on('host:validate-ticket', (ticketId, callback))] *)
Definition onValidateTicket (socket tid : string) (st : State) : ValidationResult nat :=
  match playerMap st !! socket with
  | Some pd =>
    if dataHost pd then
      match rooms st !! roomCode pd ≫= currentSession, ticketMap st !! tid with
      | Some session, Some ticket =>
        validateTicket (Some ticket) (map number (calledNumbers session))
      | _, _ => invalidResult
      end
    else invalidResult
  | None => invalidResult
  end.

(** [socket.on('room:leave')]: the maps after the handler; a host who
    leaves closes the room. *)
Definition onLeave (socket : string) (st : State) : State :=
  match playerMap st !! socket with
  | None => st
  | Some pd =>
    match rooms st !! roomCode pd with
    | None => st
    | Some room =>
      let room' := mkRoom (code room) (hostId room)
                          (filter (λ pl, socketId pl ≠ socket) (players room))
                          (status room) (currentSession room) (settings room) in
      mkState (if dataHost pd then delete (roomCode pd) (rooms st)
               else <[roomCode pd := room']> (rooms st))
              (delete socket (playerMap st)) (ticketMap st)
    end
  end.

End ServerJs.

(* ================================================================== *)
(** * Specification predicates *)

(** [res] splits [numbers] by membership in [called], keeping the order. *)
Definition partitions {A} (res : ValidationResult A) (numbers called : list A) : Prop :=
  isValid res = true ∧
  (∀ n, n ∈ matchedNumbers res ↔ n ∈ numbers ∧ n ∈ called) ∧
  (∀ n, n ∈ missingNumbers res ↔ n ∈ numbers ∧ n ∉ called) ∧
  (∀ n, ¬ (n ∈ matchedNumbers res ∧ n ∈ missingNumbers res)) ∧
  matchedNumbers res `sublist_of` numbers ∧
  missingNumbers res `sublist_of` numbers ∧
  numbers ≡ₚ matchedNumbers res ++ missingNumbers res ∧
  length (matchedNumbers res) + length (missingNumbers res) = length numbers.

(** The answer to a claim on [row]: the row wins exactly when all of its
    numbers are called, and the two lists report its called and uncalled
    numbers. *)
Definition judgesRow (res : ValidationResult nat) (row : TicketRow) (called : list nat)
  : Prop :=
  isValid res = true ∧
  (isWinner res = true ↔ ∀ n, n ∈ NumberGenerator.rowNumbers row → n ∈ called) ∧
  (length (filter (λ n, n ∈ called) (NumberGenerator.rowNumbers row)) = 4 →
   isWinner res = false) ∧
  matchedNumbers res = filter (λ n, n ∈ called) (NumberGenerator.rowNumbers row) ∧
  missingNumbers res = filter (λ n, n ∉ called) (NumberGenerator.rowNumbers row).

(** The number in row [r], column [c] of the rows [rs], if any. *)
Definition cellAt (rs : list TicketRow) (r c : nat) : option nat :=
  rs !! r ≫= λ row, cells row !! c ≫= λ n, n.

(** The numbers of column [c], from the top row to the bottom row. *)
Definition columnNumbers (g : TicketGrid) (c : nat) : list nat :=
  omap (λ row, cells row !! c ≫= λ n, n) (rows g).

(** The numbers of a grid, row by row, and of a ticket, grid by grid. *)
Definition numbersOf (g : TicketGrid) : list nat :=
  concat (map NumberGenerator.rowNumbers (rows g)).

Definition ticketNumbers (t : LotoTicket) : list nat :=
  concat (map numbersOf (grids t)).

(** [n] lies in the decade band of column [c]: 1-9, 10-19, ..., 80-90. *)
Definition inBand (c n : nat) : Prop :=
  (NumberGenerator.colRanges !!! c).1 ≤ n ≤ (NumberGenerator.colRanges !!! c).2.

(** The structural invariants of a grid: 3 rows of 9 cells, 15 numbers,
    5 in every row, 1 to 3 in every column, each column strictly
    increasing from top to bottom and within its band. *)
Definition validGrid (g : TicketGrid) : Prop :=
  length (rows g) = 3 ∧
  Forall (λ row, length (cells row) = 9 ∧ length (NumberGenerator.rowNumbers row) = 5)
         (rows g) ∧
  length (numbersOf g) = 15 ∧
  ∀ c, c < 9 →
    (1 ≤ length (columnNumbers g c) ≤ 3) ∧
    StronglySorted lt (columnNumbers g c) ∧
    Forall (inBand c) (columnNumbers g c).

(** Column counts as step 1 leaves them: nine entries between 1 and 3. *)
Definition countsOK (colCounts : list nat) : Prop :=
  length colCounts = 9 ∧ Forall (λ n, 1 ≤ n ≤ 3) colCounts.

(** The numbers step 2 hands to column [c]: as many as the column counts
    ask for, strictly increasing, in the band and outside [exclude]. *)
Definition goodColumn (colCounts : list nat) (exclude : gset nat) (c : nat)
    (nums : list nat) : Prop :=
  length nums = colCounts !!! c ∧ StronglySorted lt nums ∧
  Forall (inBand c) nums ∧ Forall (λ n, n ∉ exclude) nums.

(** The number of columns whose row assignment contains row [r]. *)
Definition rowCount (rowAssignments : list (list nat)) (r : nat) : nat :=
  length (filter (λ c, r ∈ rowAssignments !!! c) (seq 0 9)).

(** The state of one row distribution while the columns [pending] are
    still to be served. *)
Definition assignInv (colCounts pending : list nat) (rowAssignments : list (list nat))
    (rowFillCounts : list nat) : Prop :=
  length rowAssignments = 9 ∧ length rowFillCounts = 3 ∧
  (∀ c, c < 9 →
     NoDup (rowAssignments !!! c) ∧ Forall (λ r, r < 3) (rowAssignments !!! c) ∧
     (c ∈ pending → rowAssignments !!! c = []) ∧
     (c ∉ pending → length (rowAssignments !!! c) = colCounts !!! c)) ∧
  (∀ r, r < 3 → rowFillCounts !!! r = rowCount rowAssignments r).

(** What the loop [rows[rowIndices[k]].cells[c] = nums[k]] leaves in the
    cell of row [r] that held [d]: the last number written to it. *)
Fixpoint paired (rowIndices nums : list nat) (r : nat) (d : option nat) {struct nums}
  : option nat :=
  match nums, rowIndices with
  | n0 :: nums', r0 :: rowIndices' =>
    paired rowIndices' nums' r (if decide (r = r0) then Some n0 else d)
  | _, _ => d
  end.

(** Three rows of nine cells. *)
Definition shaped (rs : list TicketRow) : Prop :=
  length rs = 3 ∧ Forall (λ row, length (cells row) = 9) rs.

(** No number of the grid is in [exclude]. *)
Definition avoids (exclude : gset nat) (g : TicketGrid) : Prop :=
  ∀ n, n ∈ numbersOf g → n ∉ exclude.

(** The cells of a grid, row by row. *)
Definition positions : list (nat * nat) :=
  map (pair 0) (seq 0 9) ++ map (pair 1) (seq 0 9) ++ map (pair 2) (seq 0 9).

(** What [generateTicket] keeps true while it collects grids: the grids
    are valid, no number occurs twice in them, and [usedNumbers] holds
    exactly their numbers. *)
Definition ticketInv (grids : list TicketGrid) (usedNumbers : gset nat) : Prop :=
  Forall validGrid grids ∧
  NoDup (concat (map numbersOf grids)) ∧
  ∀ n, n ∈ usedNumbers ↔ n ∈ concat (map numbersOf grids).

(** A random source is fair when, from every position on, every column
    index is drawn again. *)
Definition fair (rnd : nat → nat) : Prop :=
  ∀ p c, c < 9 → ∃ k, randomIndex rnd (p + k) 9 = c.

(** [k] draws in a row by a caller that appends each number
    [generateNextNumber] returns to its called list; [None] as soon as a
    draw returns null. *)
Fixpoint drawMany (k : nat) (rnd : nat → nat) (p : nat) (called : list nat)
  : option (list nat) :=
  match k with
  | 0 => Some called
  | S k' =>
    match NumberGenerator.generateNextNumber rnd p called with
    | None => None
    | Some n => drawMany k' rnd (S p) (called ++ [n])
    end
  end.

(** The numbers [k] successive calls of [GameService.spinNumber] answer
    ([None] for null), with the store and the cursor they leave. *)
Fixpoint spinMany (k : nat) (rnd : nat → nat) (p now : nat) (c : string) (db : Services.Db)
  : list (option nat) * Services.Db * nat :=
  match k with
  | 0 => ([], db, p)
  | S k' =>
    let '(r, db1, p1) := Services.spinNumber rnd p now c db in
    let '(rs, db2, p2) := spinMany k' rnd p1 now c db1 in
    ((fst <$> r) :: rs, db2, p2)
  end.

(** The called numbers of the active session of room [c]. *)
Definition calledIn (c : string) (db : Services.Db) : option (list nat) :=
  (λ e, map number (Services.calledNumbers e.2)) <$>
    Services.findActiveSession (toUpperCase c) (Services.sessionDocs db).

(** A room with the default settings and its game just started. *)
Definition freshGame : Services.Db :=
  (Services.startGame "s1" 0 "ABCDEF"
     (Services.createRoom "ABCDEF" "h1" "host" (mkSettings 50 2 false 5 manual)
                          Services.emptyDb).2).2.

(** ** Predicates and runs for the further properties *)

(** A row that wins a claim: it holds five numbers and all are called. *)
Definition rowComplete (row : TicketRow) (called : list nat) : Prop :=
  length (NumberGenerator.rowNumbers row) = 5 ∧
  ∀ n, n ∈ NumberGenerator.rowNumbers row → n ∈ called.

(** The rows of a ticket in the order the scans visit them. *)
Definition allRows (ticket : LotoTicket) : list TicketRow :=
  concat (map rows (grids ticket)).

(** Row [r] of grid [g] is one of the three rows [checkTicketWinner]
    looks at and all of its numbers are called. *)
Definition winsAt (ticket : LotoTicket) (called : list nat) (g r : nat) : Prop :=
  ∃ grid row, grids ticket !! g = Some grid ∧ rows grid !! r = Some row ∧ r < 3 ∧
              ∀ n, n ∈ NumberGenerator.rowNumbers row → n ∈ called.

(** The mark and the cell at column [c] of row [r] of grid [g]. *)
Definition markAt (ticket : LotoTicket) (g r c : nat) : option bool :=
  grids ticket !! g ≫= λ grid, rows grid !! r ≫= λ row, marked row !! c.
Definition rowAt (ticket : LotoTicket) (g r : nat) : option TicketRow :=
  grids ticket !! g ≫= λ grid, rows grid !! r.

(** No cell of the ticket is marked, and every row has nine marks. *)
Definition unmarked (ticket : LotoTicket) : Prop :=
  Forall (λ g, Forall (λ row, marked row = replicate 9 false) (rows g)) (grids ticket).

(** The calls a server makes on the services. *)
Inductive Request :=
  | CreateRoom (newCode newId hostNickname : string) (st : RoomSettings)
  | GetRoom (c : string)
  | JoinRoom (newId c nick : string)
  | StartGame (newId : string) (now : nat) (c : string)
  | SpinNumber (rnd : nat → nat) (p now : nat) (c : string)
  | ResetGame (now : nat) (c : string)
  | CheckAutoWinner (now : nat) (c : string) (called : list nat)
  | CreateTickets (fuel : nat) (rnd : nat → nat) (p : nat) (uuid : nat → string)
                  (c owner : string) (count cap : Z)
  | MarkNumber (conflict : nat → bool) (tid : string) (grid row col : nat).

(** The store after a call; a call that throws or does not return has
    written what it wrote before. *)
Definition serve (db : Services.Db) (req : Request) : Services.Db :=
  match req with
  | CreateRoom newCode newId hostNickname st =>
    (Services.createRoom newCode newId hostNickname st db).2
  | GetRoom c => (Services.getRoom c db).2
  | JoinRoom newId c nick => (Services.joinRoom newId c nick db).2
  | StartGame newId now c => (Services.startGame newId now c db).2
  | SpinNumber rnd p now c => (Services.spinNumber rnd p now c db).1.2
  | ResetGame now c => Services.resetGame now c db
  | CheckAutoWinner now c called => (Services.checkAutoWinner now c called db).2
  | CreateTickets fuel rnd p uuid c owner count cap =>
    match Services.createTickets fuel rnd p uuid c owner count cap db with
    | Returns (_, db', _) => db'
    | _ => db
    end
  | MarkNumber conflict tid grid row col =>
    match Services.markNumber conflict tid grid row col db with
    | Returns db' => db'
    | _ => db
    end
  end.

(** Every cached room is the stored room of its code. *)
Definition roomCacheOK (db : Services.Db) : Prop :=
  ∀ c room, Services.roomCache db !! c = Some room →
            ∃ i, Services.findRoom c db = Some (i, room).

(** The room has no open session but, possibly, the one at index [i]. *)
Definition onlyOpenAt (c : string) (i : nat) (sessions : list Services.SessionDoc) : Prop :=
  ∀ j s, sessions !! j = Some s → Services.sessionRoom s = c →
         Services.endedAt s = None → j = i.

(** A row all of whose numbers are called, as [checkAutoWinner] and
    [checkRowWinner] take it. *)
Definition allCalled (row : TicketRow) (called : list nat) : Prop :=
  ∀ n, n ∈ NumberGenerator.rowNumbers row → n ∈ called.

(** A run of joins, each with the identifier its player receives. *)
Definition joinAll (db : Services.Db) (joins : list (string * string * string)) : Services.Db :=
  foldl (λ db '(newId, c, nick), (Services.joinRoom newId c nick db).2) db joins.

(** The messages a client sends to [server.js]. *)
Inductive Message :=
  | OnCreate (socket newCode newId hostNickname : string)
             (maxP : option nat) (perPlayer : option Z)
  | OnJoin (socket newId c nick : string)
  | OnLeave (socket : string)
  | OnStart (socket newId : string)
  | OnSpin (rnd : nat → nat) (p now : nat) (socket : string)
  | OnCreateTickets (retries fuel : nat) (rnd : nat → nat) (p : nat) (ids : nat → string)
                    (socket : string) (count : Z)
  | OnMarkNumber (tid : string) (grid row col : Z)
  | OnCallKinh (socket nick tid : string) (grid row : Z)
  | OnReset (socket : string).

(** The maps of [server.js] after a message; a handler that throws or
    does not return leaves them as they were. *)
Definition handle (st : ServerJs.State) (m : Message) : ServerJs.State :=
  match m with
  | OnCreate socket newCode newId hostNickname maxP perPlayer =>
    (ServerJs.onCreate socket newCode newId hostNickname maxP perPlayer st).2
  | OnJoin socket newId c nick => (ServerJs.onJoin socket newId c nick st).1.2
  | OnLeave socket => ServerJs.onLeave socket st
  | OnStart socket newId => ServerJs.onStart socket newId st
  | OnSpin rnd p now socket =>
    match ServerJs.onSpin rnd p now socket st with
    | Returns (_, st', _) => st'
    | _ => st
    end
  | OnCreateTickets retries fuel rnd p ids socket count =>
    match ServerJs.onCreateTickets retries fuel rnd p ids socket count st with
    | Returns (_, st', _) => st'
    | _ => st
    end
  | OnMarkNumber tid grid row col => ServerJs.onMarkNumber tid grid row col st
  | OnCallKinh socket nick tid grid row => (ServerJs.onCallKinh socket nick tid grid row st).1.2
  | OnReset socket => ServerJs.onReset socket st
  end.

(** What [server.js] keeps true of every room: it is stored under its own
    code, it is never [finished], and it is [playing] exactly when it has
    a session. *)
Definition roomKept (c : string) (room : ServerJs.Room) : Prop :=
  ServerJs.code room = c ∧ ServerJs.status room ≠ finished ∧
  (ServerJs.status room = playing ↔ is_Some (ServerJs.currentSession room)).

Definition roomsKept (st : ServerJs.State) : Prop :=
  ∀ c room, ServerJs.rooms st !! c = Some room → roomKept c room.

(** The calls of the grid generator one [generateTicket] makes, in order:
    [results] are their answers, each call reads the random source where
    the one before stopped, and its exclusion set holds the numbers of the
    grids returned so far. *)
Fixpoint gridCalls (fuel : nat) (rnd : nat → nat) (p : nat) (used : gset nat)
    (results : list (option TicketGrid)) (p' : nat) : Prop :=
  match results with
  | [] => p' = p
  | r :: rs =>
    ∃ p1, NumberGenerator.generateUniqueGrid fuel rnd p used = Returns (r, p1) ∧
          gridCalls fuel rnd p1
                    (match r with
                     | Some g => NumberGenerator.addUsed used g
                     | None => used
                     end) rs p'
  end.

(** The grids among the answers; [None] is an answer [null]. *)
Definition accepted (results : list (option TicketGrid)) : list TicketGrid :=
  omap (λ r, r) results.



(* ================================================================== *)
(** * Example data *)

Definition row_ (cs : list (option nat)) : TicketRow := mkRow cs (replicate 9 false).

(** The ticket [generateTicket] builds from the random source
    [p => 7 p + 3]. *)
Definition exampleTicket : LotoTicket :=
  mkTicket "t1"
    [ mkGrid [ row_ [Some 1; Some 12; Some 22; None; Some 42; None; Some 62; None; None];
               row_ [None; Some 13; Some 23; Some 32; None; None; None; Some 71; Some 82];
               row_ [None; None; None; Some 33; Some 43; Some 50; Some 63; None; Some 83] ];
      mkGrid [ row_ [Some 5; Some 15; Some 21; None; None; Some 54; None; Some 70; None];
               row_ [Some 6; Some 16; None; Some 31; None; None; Some 65; None; Some 85];
               row_ [None; None; None; Some 35; Some 45; Some 55; None; Some 74; Some 86] ];
      mkGrid [ row_ [Some 4; Some 14; Some 26; None; None; Some 56; Some 61; None; None];
               row_ [Some 7; None; Some 27; None; Some 46; None; None; Some 73; Some 84];
               row_ [None; None; None; Some 30; Some 47; Some 57; Some 64; Some 75; None] ] ]
    "p1" "ABCDEF".

Definition exampleGrid : TicketGrid :=
  mkGrid [ row_ [Some 1; Some 12; Some 22; None; Some 42; None; Some 62; None; None];
           row_ [None; Some 13; Some 23; Some 32; None; None; None; Some 71; Some 82];
           row_ [None; None; None; Some 33; Some 43; Some 50; Some 63; None; Some 83] ].

Definition exampleRow : TicketRow :=
  row_ [Some 1; Some 12; Some 22; None; Some 42; None; Some 62; None; None].

(** A random source that hands the column counts two numbers in each of
    six columns and then never shuffles: every row distribution fails. *)
Definition stubborn (p : nat) : nat :=
  let q := p `mod` 515 in if decide (q < 9) then q else 0.

(** The number of grids of the ticket a call returned. *)
Definition gridCount (o : outcome (LotoTicket * nat)) : option nat :=
  match o with
  | Returns (t, _) => Some (length (grids t))
  | _ => None
  end.

(** Identifiers for the tickets of the examples. *)
Definition ids (i : nat) : string := String (Ascii.ascii_of_nat (65 + i)) "".

(** How many tickets the players of room ABCDEF of [server.js] own. *)
Definition ownedIn (st : ServerJs.State) : list nat :=
  match ServerJs.rooms st !! "ABCDEF"%string with
  | Some r => map (λ pl, length (ServerJs.tickets pl)) (ServerJs.players r)
  | None => []
  end.

(** A host of [server.js], in a room with the default cap of 5 tickets per
    player, asks for 5 tickets twice; the result is what the second
    request returned, the tickets owned after each request and the size
    of the ticket store. *)
Definition askTwice : outcome (nat * list nat * list nat * nat) :=
  let st0 := (ServerJs.onCreate "s0" "ABCDEF" "h1" "host" None None ServerJs.emptyState).2 in
  '(r1, st1, p1) ← ServerJs.onCreateTickets 5 100 (λ p, p) 0 ids "s0" 5 st0;
  '(r2, st2, p2) ← ServerJs.onCreateTickets 5 100 (λ p, p) p1 (λ i, ids (5 + i)) "s0" 5 st1;
  Returns (match r2 with inr new => length new | inl _ => 0 end,
           ownedIn st1, ownedIn st2, size (ServerJs.ticketMap st2)).

(** What pushing a called number onto session [i] does to the indexed
    sessions [findActiveSession] sorts. *)
Definition bump (i n now : nat) (e : nat * Services.SessionDoc) : nat * Services.SessionDoc :=
  if decide (e.1 = i) then (e.1, Services.pushCalled e.2 n now) else e.

(** Every row carries nine cells and nine marks. *)
Definition nineWide (ticket : LotoTicket) : Prop :=
  Forall (λ g, Forall (λ row, length (cells row) = 9 ∧ length (marked row) = 9) (rows g))
         (grids ticket).

(** A store that holds [exampleTicket] only. *)
Definition ticketStore : Services.Db :=
  Services.withTickets Services.emptyDb [exampleTicket].

(** Two calls of [markNumber] in a row on the first row of the first grid. *)
Definition markTwice (col : nat) : outcome Services.Db :=
  Services.markNumber (λ _, false) "t1" 0 0 col ticketStore
    ≫= Services.markNumber (λ _, false) "t1" 0 0 col.

(** The marks of the first row of the first grid of ticket [t1]. *)
Definition marksOf (o : outcome Services.Db) : option (list bool) :=
  match o with
  | Returns db =>
    t ← Services.getTicketById "t1" db; g ← grids t !! 0; row ← rows g !! 0;
    Some (marked row)
  | _ => None
  end.

(** A playing room with automatic checking in which player [p1] holds
    [exampleTicket]. *)
Definition autoGame : Services.Db :=
  let db0 := (Services.createRoom "ABCDEF" "h1" "host" (mkSettings 50 2 false 5 auto)
                                  Services.emptyDb).2 in
  let db1 := (Services.joinRoom "p1" "ABCDEF" "An" db0).2 in
  (Services.startGame "s1" 0 "ABCDEF" (Services.withTickets db1 [exampleTicket])).2.





(** A room for two that the host and one guest have filled. *)
Definition fullRoom : Services.Db :=
  (Services.joinRoom "p1" "abcdef" "An"
     (Services.createRoom "ABCDEF" "h1" "host" (mkSettings 2 2 false 5 manual)
                          Services.emptyDb).2).2.



(** A room of [server.js] whose host, on socket [s0], has started the
    game, and the same room after a guest on socket [s1] joined it under
    the code typed in lower case. *)
Definition jsGame : ServerJs.State :=
  ServerJs.onStart "s0" "g1"
    (ServerJs.onCreate "s0" "ABCDEF" "h1" "host" None None ServerJs.emptyState).2.

Definition jsJoined : ServerJs.State :=
  (ServerJs.onJoin "s1" "p1" "abcdef" "An" jsGame).1.2.

(* ================================================================== *)
(** * Theorems *)

Import NumberGenerator.

(** ** Validation of numbers *)

Section Validation.
Context `{EqDecision A}.
Implicit Types numbers called : list A.

Lemma filter_split_perm numbers called :
  numbers ≡ₚ filter (λ n, n ∈ called) numbers ++ filter (λ n, n ∉ called) numbers.
Proof.
  induction numbers as [|x l IH]; [done|].
  rewrite !filter_cons. destruct (decide (x ∈ called)) as [Hx|Hx].
  - rewrite decide_False by tauto. simpl. by f_equiv.
  - rewrite decide_True by done. rewrite <- Permutation_middle. by f_equiv.
Qed.

Lemma partitions_filter numbers called b :
  partitions (mkResult true b (filter (λ n, n ∈ called) numbers)
                       (filter (λ n, n ∉ called) numbers)) numbers called.
Proof.
  unfold partitions; simpl. split_and!.
  - done.
  - intros n. by rewrite list_elem_of_filter, (comm and).
  - intros n. by rewrite list_elem_of_filter, (comm and).
  - intros n. rewrite !list_elem_of_filter. tauto.
  - apply sublist_filter.
  - apply sublist_filter.
  - apply filter_split_perm.
  - rewrite <- length_app. symmetry. apply Permutation_length, filter_split_perm.
Qed.

Lemma filter_all_iff numbers called :
  length (filter (λ n, n ∈ called) numbers) = length numbers ↔
  ∀ n, n ∈ numbers → n ∈ called.
Proof.
  induction numbers as [|x l IH]; simpl.
  - split; [intros _ n Hn; by apply not_elem_of_nil in Hn | done].
  - rewrite filter_cons. pose proof (length_filter (λ n, n ∈ called) l) as Hle.
    destruct (decide (x ∈ called)) as [Hx|Hx]; simpl.
    + split.
      * intros Hlen n [->|Hn]%elem_of_cons; [done|]. apply IH; [lia|done].
      * intros Hall. f_equal. apply IH. intros n Hn. apply Hall. by right.
    + split; [lia|]. intros Hall. destruct Hx. apply Hall. by left.
Qed.

(** C10: [validateNumbers], in both servers, always answers
    [isValid = true] with [matchedNumbers] and [missingNumbers] splitting
    the input by membership in the called list: every input number is in
    exactly one of them, both keep the input order, their lengths add up
    to the input's, and equal arguments give equal results. *)
Theorem validateNumbers_partitions numbers called :
  partitions (validateNumbers numbers called) numbers called ∧
  partitions (ServerJs.validateNumbers numbers called) numbers called ∧
  (∀ numbers' called', numbers' = numbers → called' = called →
     validateNumbers numbers' called' = validateNumbers numbers called ∧
     ServerJs.validateNumbers numbers' called' = ServerJs.validateNumbers numbers called).
Proof.
  split_and!.
  - apply partitions_filter.
  - apply partitions_filter.
  - by intros ?? -> ->.
Qed.
End Validation.

(** ** The claim of a row *)

Lemma judges_five (row : TicketRow) (called : list nat) (b : bool) :
  length (rowNumbers row) = 5 →
  (b = true ↔ length (filter (λ n, n ∈ called) (rowNumbers row)) = 5) →
  judgesRow (mkResult true b (filter (λ n, n ∈ called) (rowNumbers row))
                      (filter (λ n, n ∉ called) (rowNumbers row))) row called.
Proof.
  intros Hfive Hb. unfold judgesRow; simpl. split_and!; try done.
  - rewrite Hb, <- filter_all_iff. by rewrite Hfive.
  - intros Hfour. destruct b; [|done].
    assert (length (filter (λ n, n ∈ called) (rowNumbers row)) = 5) by by apply Hb.
    lia.
Qed.

Lemma validateNumbers_judges (row : TicketRow) (called : list nat) :
  length (rowNumbers row) = 5 →
  judgesRow (validateNumbers (rowNumbers row) called) row called.
Proof.
  intros Hfive. apply judges_five; [done|].
  rewrite andb_true_iff, !bool_decide_eq_true. tauto.
Qed.

Lemma validateTicket_claimed (ticket : LotoTicket) (called : list nat) (g r : nat)
    (grid : TicketGrid) (row : TicketRow) :
  grids ticket !! g = Some grid → rows grid !! r = Some row → r < 3 →
  validateTicket ticket called (Some (Z.of_nat g)) (Some (Z.of_nat r))
  = Returns (validateNumbers (rowNumbers row) called).
Proof.
  intros Hg Hr Hlt. unfold validateTicket.
  apply lookup_lt_Some in Hg as Hglt.
  rewrite decide_True by lia.
  rewrite !Nat2Z.id, Hg. simpl. by rewrite Hr.
Qed.

Lemma at_nat {A} (l : list A) (i : nat) : ServerJs.at_ l (Z.of_nat i) = l !! i.
Proof. unfold ServerJs.at_. rewrite decide_True by lia. by rewrite Nat2Z.id. Qed.

(** C5: a claim on grid [g], row [r] of a ticket judges that row alone.
    For a row holding five numbers, [validateTicket], the [player:call-kinh]
    handler of [server.ts] and the one of [server.js] all answer
    [isWinner = true] exactly when the five numbers are called, [false]
    when four of them are, and report the row's called and uncalled
    numbers. *)
Theorem callRow_judges_claimed_row (ticket : LotoTicket) (called : list nat) (g r : nat)
    (grid : TicketGrid) (row : TicketRow) :
  grids ticket !! g = Some grid → rows grid !! r = Some row → r < 3 →
  length (rowNumbers row) = 5 →
  (∃ res, validateTicket ticket called (Some (Z.of_nat g)) (Some (Z.of_nat r)) = Returns res ∧
          judgesRow res row called) ∧
  (∀ d tid w session,
     truthy (Server.dataRoom d) = true → truthy (Server.dataOder d) = true →
     Services.getActiveSession (Server.dataRoom d) (Server.db w) = Some session →
     map number (Services.calledNumbers session) = called →
     Services.getTicketById tid (Server.db w) = Some ticket →
     ∃ res, (Server.onCallKinh (Some d) tid (Some (Z.of_nat g)) (Some (Z.of_nat r)) w).1
            = Some res ∧ judgesRow res row called) ∧
  (∀ socket nick tid st pd room session,
     ServerJs.playerMap st !! socket = Some pd →
     ServerJs.rooms st !! ServerJs.roomCode pd = Some room →
     ServerJs.ticketMap st !! tid = Some ticket →
     ServerJs.currentSession room = Some session →
     map number (ServerJs.calledNumbers session) = called →
     judgesRow (ServerJs.onCallKinh socket nick tid (Z.of_nat g) (Z.of_nat r) st).1.1
               row called).
Proof.
  intros Hg Hr Hlt Hfive. split_and!.
  - eexists. split; [by eapply validateTicket_claimed|]. by apply validateNumbers_judges.
  - intros d tid w session Hroom Hoder Hs Hc Ht.
    unfold Server.onCallKinh. rewrite Hroom, Hoder, Hs, Ht. cbn [andb]. rewrite Hc.
    erewrite validateTicket_claimed by done. cbn [fst].
    eexists. split; [done|]. by apply validateNumbers_judges.
  - intros socket nick tid st pd room session Hpd Hroom Ht Hs Hc.
    unfold ServerJs.onCallKinh. rewrite Hpd, Hroom, Ht, Hs, Hc.
    rewrite at_nat, Hg. cbn [mbind option_bind]. rewrite at_nat, Hr.
    assert (judgesRow
              (mkResult true
                 (bool_decide (length (filter (λ n, n ∈ called) (rowNumbers row)) = 5))
                 (filter (λ n, n ∈ called) (rowNumbers row))
                 (filter (λ n, n ∉ called) (rowNumbers row))) row called) as Hj.
    { apply judges_five; [done|]. by rewrite bool_decide_eq_true. }
    cbv zeta. revert Hj.
    generalize (bool_decide (length (filter (λ n, n ∈ called) (rowNumbers row)) = 5)).
    by intros [|].
Qed.

(** ** The draw pool *)

Section Pool.
Implicit Types called : list nat.

Lemma availableNumbers_elem top called n :
  n ∈ availableNumbers top called ↔ (1 ≤ n ≤ top) ∧ n ∉ called.
Proof.
  unfold availableNumbers. rewrite list_elem_of_filter, elem_of_seq.
  split; intros [? ?]; split; try done; lia.
Qed.

Lemma availableNumbers_NoDup top called : NoDup (availableNumbers top called).
Proof. apply NoDup_filter, NoDup_seq. Qed.

Lemma availableNumbers_split top called :
  NoDup called → (∀ n, n ∈ called → 1 ≤ n ≤ top) →
  availableNumbers top called ++ called ≡ₚ seq 1 top.
Proof.
  intros Hnd Hin. apply NoDup_Permutation.
  - apply NoDup_app. split_and!; [apply availableNumbers_NoDup| |done].
    intros n Hn. apply availableNumbers_elem in Hn. tauto.
  - apply NoDup_seq.
  - intros n. rewrite elem_of_app, availableNumbers_elem, elem_of_seq.
    split.
    + intros [[? _]|Hn]; [lia|]. apply Hin in Hn. lia.
    + intros Hn. destruct (decide (n ∈ called)); [by right|left]. split; [lia|done].
Qed.

Lemma availableNumbers_length top called :
  NoDup called → (∀ n, n ∈ called → 1 ≤ n ≤ top) →
  length (availableNumbers top called) + length called = top.
Proof.
  intros Hnd Hin. rewrite <- length_app, (availableNumbers_split top called Hnd Hin).
  apply length_seq.
Qed.

Lemma pick_elem (l : list nat) (rnd : nat → nat) (p : nat) :
  length l ≠ 0 → l !!! randomIndex rnd p (length l) ∈ l.
Proof.
  intros Hl. apply list_elem_of_lookup_total_2. unfold randomIndex.
  apply Nat.mod_upper_bound. done.
Qed.

(** A draw from the pool [1..top] is a number of the pool that was not
    called, and calling it keeps the called list duplicate-free. *)
Lemma pick_fresh top called rnd p :
  length (availableNumbers top called) ≠ 0 →
  let n := availableNumbers top called !!! randomIndex rnd p (length (availableNumbers top called)) in
  (1 ≤ n ≤ top) ∧ n ∉ called.
Proof. intros Hl. apply availableNumbers_elem, pick_elem, Hl. Qed.

Lemma generateNextNumber_fresh rnd p called n :
  generateNextNumber rnd p called = Some n → (1 ≤ n ≤ 90) ∧ n ∉ called.
Proof.
  unfold generateNextNumber. case_decide as Hl; [done|]. intros [= <-].
  by apply pick_fresh.
Qed.

Lemma generateNextNumber_None rnd p called :
  generateNextNumber rnd p called = None ↔ ∀ n, 1 ≤ n ≤ 90 → n ∈ called.
Proof.
  unfold generateNextNumber. case_decide as Hl.
  - split; [intros _ n Hn|done]. apply length_zero_iff_nil in Hl.
    destruct (decide (n ∈ called)) as [|Hn']; [done|].
    assert (n ∈ availableNumbers 90 called) as Hin by by apply availableNumbers_elem.
    rewrite Hl in Hin. by apply not_elem_of_nil in Hin.
  - split; [done|]. intros Hall. exfalso.
    destruct (availableNumbers 90 called) as [|n l] eqn:E; [done|].
    assert (n ∈ availableNumbers 90 called) as Hin by (rewrite E; left).
    apply availableNumbers_elem in Hin as [Hr Hn]. by apply Hn, Hall.
Qed.

End Pool.

(** ** Sorting and shuffling *)

Section Sorting.
Context {A : Type}.
Implicit Types (cmp : A → A → Z) (l : list A).

Lemma insertCmp_Permutation cmp x l : insertCmp cmp x l ≡ₚ x :: l.
Proof.
  induction l as [|y l IH]; simpl; [done|].
  case_decide; [done|]. rewrite IH. apply Permutation_swap.
Qed.

Lemma sortCmp_Permutation cmp l : sortCmp cmp l ≡ₚ l.
Proof.
  induction l as [|x l IH]; simpl; [done|].
  rewrite insertCmp_Permutation. by f_equiv.
Qed.

Lemma sortCmp_length cmp l : length (sortCmp cmp l) = length l.
Proof. apply Permutation_length, sortCmp_Permutation. Qed.

Lemma sortCmp_elem cmp l x : x ∈ sortCmp cmp l ↔ x ∈ l.
Proof. by rewrite sortCmp_Permutation. Qed.

Lemma sortCmp_NoDup cmp l : NoDup l → NoDup (sortCmp cmp l).
Proof. by rewrite sortCmp_Permutation. Qed.

Lemma insertAt_Permutation (i : nat) (x : A) l : insertAt i x l ≡ₚ x :: l.
Proof.
  revert i. induction l as [|y l IH]; intros [|i]; simpl; try done.
  rewrite IH. apply Permutation_swap.
Qed.

Lemma permute_Permutation (r : nat) l : permute r l ≡ₚ l.
Proof.
  revert r. induction l as [|x l IH]; intros r; simpl; [done|].
  rewrite insertAt_Permutation. by f_equiv.
Qed.

Lemma permute_zero l : permute 0 l = l.
Proof.
  induction l as [|x l IH]; [done|]. cbn [permute].
  by rewrite Nat.Div0.div_0_l, Nat.Div0.mod_0_l, IH.
Qed.

End Sorting.

Lemma insertCmp_map {A B} (g : A → B) (cmp : A → A → Z) (cmp' : B → B → Z) x l :
  (∀ a b, cmp' (g a) (g b) = cmp a b) →
  insertCmp cmp' (g x) (map g l) = map g (insertCmp cmp x l).
Proof.
  intros Hg. induction l as [|y l IH]; simpl; [done|].
  rewrite Hg. case_decide; simpl; [done|]. by rewrite IH.
Qed.

Lemma sortCmp_map {A B} (g : A → B) (cmp : A → A → Z) (cmp' : B → B → Z) l :
  (∀ a b, cmp' (g a) (g b) = cmp a b) →
  sortCmp cmp' (map g l) = map g (sortCmp cmp l).
Proof.
  intros Hg. induction l as [|y l IH]; simpl; [done|].
  fold (sortCmp cmp' (map g l)). fold (sortCmp cmp l).
  rewrite IH. by apply insertCmp_map.
Qed.

Lemma filter_map_compat {A} (g : A → A) (P : A → Prop) `{!∀ x, Decision (P x)} (l : list A) :
  (∀ x, P (g x) ↔ P x) → filter P (map g l) = map g (filter P l).
Proof.
  intros Hg. induction l as [|x l IH]; [done|]. simpl.
  rewrite !filter_cons. destruct (decide (P x)) as [Hx|Hx].
  - rewrite decide_True by by apply Hg. simpl. by rewrite IH.
  - rewrite decide_False by by rewrite Hg. done.
Qed.

(** [(a, b) => a - b] sorts into ascending order. *)
Lemma insertCmp_ascending_sorted (x : nat) (l : list nat) :
  StronglySorted le l → StronglySorted le (insertCmp ascending x l).
Proof.
  induction 1 as [|y l Hs IH Hall]; simpl.
  - repeat constructor.
  - unfold ascending at 1. case_decide as Hc.
    + constructor; [by constructor|]. constructor; [lia|].
      eapply Forall_impl; [done|]. simpl. lia.
    + constructor; [done|].
      rewrite (insertCmp_Permutation ascending x l). constructor; [lia|done].
Qed.

Lemma sortCmp_ascending_sorted (l : list nat) : StronglySorted le (sortCmp ascending l).
Proof.
  induction l as [|x l IH]; simpl; [constructor|]. by apply insertCmp_ascending_sorted.
Qed.

(** Sorting distinct numbers leaves them strictly increasing. *)
Lemma sortCmp_ascending_strict (l : list nat) :
  NoDup l → StronglySorted lt (sortCmp ascending l).
Proof.
  intros Hnd. apply (sortCmp_NoDup ascending) in Hnd.
  pose proof (sortCmp_ascending_sorted l) as Hs.
  induction Hs as [|y l' Hs IH Hall]; [constructor|].
  apply NoDup_cons in Hnd as [Hy Hnd]. constructor; [by apply IH|].
  rewrite Forall_forall in Hall |- *. intros z Hz.
  specialize (Hall z Hz). assert (y ≠ z) by (intros ->; done). lia.
Qed.

(** ** Draws of a session *)

Lemma called_full (top : nat) (called : list nat) :
  NoDup called → (∀ n, n ∈ called → 1 ≤ n ≤ top) → length called = top →
  called ≡ₚ seq 1 top ∧ availableNumbers top called = [].
Proof.
  intros Hnd Hin Hlen.
  pose proof (availableNumbers_length top called Hnd Hin) as Hl.
  assert (availableNumbers top called = []) as Hnil by (apply length_zero_iff_nil; lia).
  split; [|done]. rewrite <- (availableNumbers_split top called Hnd Hin). by rewrite Hnil.
Qed.

Lemma drawMany_spec (k : nat) (rnd : nat → nat) (p : nat) (called : list nat) :
  NoDup called → (∀ n, n ∈ called → 1 ≤ n ≤ 90) → length called + k ≤ 90 →
  ∃ called', drawMany k rnd p called = Some called' ∧ NoDup called' ∧
             (∀ n, n ∈ called' → 1 ≤ n ≤ 90) ∧ length called' = length called + k.
Proof.
  revert p called. induction k as [|k IH]; intros p called Hnd Hin Hlen; simpl.
  - exists called. split_and!; try done; lia.
  - destruct (generateNextNumber rnd p called) as [n|] eqn:E.
    + apply generateNextNumber_fresh in E as [Hr Hn].
      destruct (IH (S p) (called ++ [n])) as (called' & -> & ? & ? & Hl).
      * apply NoDup_app. split_and!; [done| |apply NoDup_singleton].
        intros x Hx ->%list_elem_of_singleton. done.
      * intros x [Hx| ->%list_elem_of_singleton]%elem_of_app; [by apply Hin|done].
      * rewrite length_app. simpl. lia.
      * exists called'. split_and!; try done. rewrite Hl, length_app. simpl. lia.
    + exfalso. unfold generateNextNumber in E. case_decide as Hz; [|done].
      pose proof (availableNumbers_length 90 called Hnd Hin). lia.
Qed.

Section ActiveSession.
Import Services.

Lemma imap_insert_bump (l : list SessionDoc) i s n now :
  l !! i = Some s →
  imap (λ j x, (j, x)) (<[i := pushCalled s n now]> l) = map (bump i n now) (imap (λ j x, (j, x)) l).
Proof.
  intros Hi. apply list_eq. intros j.
  rewrite list_lookup_fmap, !list_lookup_imap.
  destruct (decide (j = i)) as [->|Hne].
  - rewrite list_lookup_insert_eq by by eapply lookup_lt_Some.
    rewrite Hi. simpl. unfold bump. simpl. by rewrite decide_True.
  - rewrite list_lookup_insert_ne by done.
    destruct (l !! j); simpl; [|done]. unfold bump. simpl. by rewrite decide_False.
Qed.

Lemma findActiveSession_lookup c (l : list SessionDoc) i s :
  findActiveSession c l = Some (i, s) →
  l !! i = Some s ∧ sessionRoom s = c ∧ endedAt s = None.
Proof.
  unfold findActiveSession. intros Hh.
  apply head_Some_elem_of in Hh.
  apply sortCmp_elem, list_elem_of_filter in Hh as [[? ?] Hin].
  apply list_elem_of_lookup in Hin as [j Hj].
  rewrite list_lookup_imap in Hj. destruct (l !! j) eqn:E; simplify_eq/=. done.
Qed.

(** Recording a draw leaves the session the one the next query finds. *)
Lemma findActiveSession_pushCalled c (l : list SessionDoc) i s n now :
  findActiveSession c l = Some (i, s) →
  findActiveSession c (<[i := pushCalled s n now]> l) = Some (i, pushCalled s n now).
Proof.
  intros Hf. pose proof (findActiveSession_lookup _ _ _ _ Hf) as (Hi & _ & _).
  unfold findActiveSession in *. rewrite (imap_insert_bump _ _ _ _ _ Hi).
  rewrite filter_map_compat.
  2:{ intros [j x]. unfold bump; simpl. by case_decide. }
  rewrite (sortCmp_map (bump i n now)
             (λ a b, Z.of_nat (startedAt b.2) - Z.of_nat (startedAt a.2))%Z).
  2:{ intros [j x] [j' x']. unfold bump; simpl. by repeat case_decide. }
  apply head_Some in Hf as [rest ->]. simpl. unfold bump at 1; simpl.
  by rewrite decide_True.
Qed.

Lemma spinNumber_draws rnd p now c db i s :
  findActiveSession (toUpperCase c) (sessionDocs db) = Some (i, s) →
  length (availableNumbers 89 (map number (calledNumbers s))) ≠ 0 →
  ∃ n db', spinNumber rnd p now c db = (Some (n, pushCalled s n now), db', S p) ∧
           (1 ≤ n ≤ 89) ∧ (n ∉ map number (calledNumbers s)) ∧
           findActiveSession (toUpperCase c) (sessionDocs db') = Some (i, pushCalled s n now).
Proof.
  intros Hf Hl. unfold spinNumber. rewrite Hf. rewrite decide_False by done.
  eexists _, _. split; [done|].
  pose proof (pick_fresh 89 (map number (calledNumbers s)) rnd p Hl) as [[? ?] ?].
  split_and!; [done|done|done|]. simpl. by apply findActiveSession_pushCalled.
Qed.

Lemma spinNumber_exhausted rnd p now c db i s :
  findActiveSession (toUpperCase c) (sessionDocs db) = Some (i, s) →
  length (availableNumbers 89 (map number (calledNumbers s))) = 0 →
  spinNumber rnd p now c db = (None, db, p).
Proof. intros Hf Hl. unfold spinNumber. rewrite Hf. by rewrite decide_True. Qed.

Lemma spinMany_spec k rnd p now c db i s :
  findActiveSession (toUpperCase c) (sessionDocs db) = Some (i, s) →
  NoDup (map number (calledNumbers s)) →
  (∀ n, n ∈ map number (calledNumbers s) → 1 ≤ n ≤ 89) →
  length (calledNumbers s) + k ≤ 89 →
  ∃ drawn db' s',
    spinMany k rnd p now c db = (map Some drawn, db', p + k) ∧
    findActiveSession (toUpperCase c) (sessionDocs db') = Some (i, s') ∧
    map number (calledNumbers s') = map number (calledNumbers s) ++ drawn ∧
    NoDup (map number (calledNumbers s')) ∧
    (∀ n, n ∈ map number (calledNumbers s') → 1 ≤ n ≤ 89) ∧
    length drawn = k.
Proof.
  revert p db s. induction k as [|k IH]; intros p db s Hf Hnd Hin Hlen.
  - exists [], db, s. simpl. rewrite Nat.add_0_r, app_nil_r. done.
  - assert (length (availableNumbers 89 (map number (calledNumbers s))) ≠ 0) as Hl.
    { pose proof (availableNumbers_length 89 _ Hnd Hin) as Hal.
      rewrite length_map in Hal. lia. }
    destruct (spinNumber_draws rnd p now c db i s Hf Hl) as (n & db1 & Hspin & Hr & Hn & Hf1).
    assert (map number (calledNumbers (pushCalled s n now))
            = map number (calledNumbers s) ++ [n]) as Hpush.
    { simpl. by rewrite map_app. }
    destruct (IH (S p) db1 (pushCalled s n now) Hf1) as (drawn & db' & s' & Hm & Hf' & Hc & ? & ? & ?).
    + rewrite Hpush. apply NoDup_app. split_and!; [done| |apply NoDup_singleton].
      intros x Hx ->%list_elem_of_singleton. done.
    + rewrite Hpush. intros x [Hx| ->%list_elem_of_singleton]%elem_of_app; [by apply Hin|done].
    + simpl. rewrite length_app. simpl. lia.
    + exists (n :: drawn), db', s'. cbn [spinMany]. rewrite Hspin, Hm. simpl.
      split_and!; try done.
      * do 2 f_equal. lia.
      * rewrite Hc, Hpush, <- app_assoc. done.
      * simpl. lia.
Qed.

End ActiveSession.

(** No draw returns a number that was already called, whichever of the two
    functions draws. *)
Lemma draws_never_repeat (rnd : nat → nat) (p now : nat) :
  (∀ called n, generateNextNumber rnd p called = Some n → (1 ≤ n ≤ 90) ∧ n ∉ called) ∧
  (∀ c db n session,
     (Services.spinNumber rnd p now c db).1.1 = Some (n, session) →
     ∃ i before, Services.findActiveSession (toUpperCase c) (Services.sessionDocs db)
                 = Some (i, before) ∧
                 (1 ≤ n ≤ 89) ∧ (n ∉ map number (Services.calledNumbers before)) ∧
                 session = Services.pushCalled before n now).
Proof.
  split; [intros called n; apply generateNextNumber_fresh|].
  intros c db n session. unfold Services.spinNumber.
  destruct (Services.findActiveSession _ _) as [[i before]|] eqn:Hf; [|done].
  case_decide as Hl; [done|]. simpl. intros [= <- <-].
  exists i, before. split; [done|].
  pose proof (pick_fresh 89 _ rnd p Hl) as [[? ?] ?]. done.
Qed.

(** Ninety draws with [generateNextNumber] from an empty called list call
    exactly [1..90], and every further draw returns null. *)
Lemma generateNextNumber_exhausts_90 (rnd : nat → nat) (p : nat) :
  ∃ called, drawMany 90 rnd p [] = Some called ∧ called ≡ₚ seq 1 90 ∧
            ∀ rnd' q, generateNextNumber rnd' q called = None.
Proof.
  destruct (drawMany_spec 90 rnd p []) as (called & Hd & Hnd & Hin & Hlen).
  - constructor.
  - intros n Hn. by apply not_elem_of_nil in Hn.
  - simpl. lia.
  - exists called. split; [done|].
    destruct (called_full 90 called Hnd Hin Hlen) as [Hperm Hnil]. split; [done|].
    intros rnd' q. apply generateNextNumber_None. intros n Hn.
    rewrite Hperm, elem_of_seq. lia.
Qed.

(** C1: [GameService.spinNumber] draws from [1..89].  From a freshly
    started game, whatever the random source, 89 spins succeed and call
    exactly [1..89]; the 90th spin answers null although 90 was never
    called, so the called set never becomes [1..90]. *)
Theorem spinNumber_pool_ends_at_89 (rnd : nat → nat) (p now : nat) :
  ∃ drawn db',
    spinMany 89 rnd p now "ABCDEF" freshGame = (map Some drawn, db', p + 89) ∧
    calledIn "ABCDEF" db' = Some drawn ∧
    drawn ≡ₚ seq 1 89 ∧
    (90 ∉ drawn) ∧
    Services.spinNumber rnd (p + 89) now "ABCDEF" db' = (None, db', p + 89).
Proof.
  assert (Services.findActiveSession (toUpperCase "ABCDEF") (Services.sessionDocs freshGame)
          = Some (0, Services.mkSession "s1" "ABCDEF" [] 0 None None)) as Hf by reflexivity.
  destruct (spinMany_spec 89 rnd p now "ABCDEF" freshGame _ _ Hf)
    as (drawn & db' & s' & Hm & Hf' & Hc & Hnd & Hin & Hlen).
  - constructor.
  - intros n Hn. by apply not_elem_of_nil in Hn.
  - simpl. lia.
  - simpl in Hc. exists drawn, db'. split; [done|].
    assert (length (map number (Services.calledNumbers s')) = 89) as Hlen'
      by by rewrite Hc.
    destruct (called_full 89 _ Hnd Hin Hlen') as [Hperm Hnil].
    rewrite Hc in Hperm. split_and!.
    + unfold calledIn. rewrite Hf'. simpl. by rewrite Hc.
    + done.
    + rewrite Hperm, elem_of_seq. lia.
    + eapply spinNumber_exhausted; [done|]. by rewrite Hnil.
Qed.

(** ** Step 1: the column counts *)

Lemma sum_list_insert (l : list nat) (i x y : nat) :
  l !! i = Some x → sum_list (<[i := y]> l) + x = sum_list l + y.
Proof.
  revert i. induction l as [|z l IH]; intros [|i] Hi; simplify_eq/=.
  - lia.
  - specialize (IH _ Hi). lia.
Qed.

Lemma fillColCounts_spec fuel rnd p colCounts remaining colCounts' p' :
  fillColCounts fuel rnd p colCounts remaining = Returns (colCounts', p') →
  countsOK colCounts →
  countsOK colCounts' ∧ sum_list colCounts' = sum_list colCounts + remaining.
Proof.
  revert p colCounts remaining.
  induction fuel as [|fuel IH]; intros p colCounts [|remaining] Hfill [Hlen Hall];
    cbn [fillColCounts] in Hfill; simplify_eq.
  - split; [done|lia].
  - split; [done|lia].
  - set (colIndex := randomIndex rnd p 9) in *.
    assert (colIndex < 9) as Hlt by (apply Nat.mod_upper_bound; lia).
    destruct (lookup_lt_is_Some_2 colCounts colIndex) as [x Hx]; [lia|].
    rewrite (list_lookup_total_correct _ _ _ Hx) in Hfill.
    case_decide as Hc.
    + apply IH in Hfill as [Hok Hsum].
      * split; [done|]. rewrite Hsum.
        pose proof (sum_list_insert colCounts colIndex x (S x) Hx). lia.
      * split; [by rewrite length_insert|].
        apply Forall_insert; [done|].
        rewrite Forall_lookup in Hall. specialize (Hall _ _ Hx). simpl in Hall. lia.
    + apply IH in Hfill as [Hok Hsum]; [|done]. split; [done|lia].
Qed.

Lemma countsOK_initial : countsOK (replicate 9 1).
Proof. split; [done|]. repeat constructor. Qed.

Lemma countsOK_lookup colCounts c :
  countsOK colCounts → c < 9 → 1 ≤ colCounts !!! c ≤ 3.
Proof.
  intros [Hlen Hall] Hc.
  destruct (lookup_lt_is_Some_2 colCounts c) as [x Hx]; [lia|].
  rewrite (list_lookup_total_correct _ _ _ Hx).
  rewrite Forall_lookup in Hall. exact (Hall _ _ Hx).
Qed.

(** ** Step 2: the numbers of each column *)

Lemma ranges_ordered c : (colRanges !!! c).1 ≤ (colRanges !!! c).2.
Proof. do 9 (destruct c as [|c]; [simpl; lia|]). simpl. lia. Qed.

Lemma chosen_goodColumn colCounts exclude c (nums : list nat) :
  length nums = colCounts !!! c → NoDup nums →
  Forall (inBand c) nums → Forall (λ n, n ∉ exclude) nums →
  goodColumn colCounts exclude c (sortCmp ascending nums).
Proof.
  intros Hlen Hnd Hband Hex. unfold goodColumn. split_and!.
  - by rewrite sortCmp_length.
  - by apply sortCmp_ascending_strict.
  - by rewrite sortCmp_Permutation.
  - by rewrite sortCmp_Permutation.
Qed.

Lemma uniqueNumbers_spec rnd p exclude colCounts cs gridNumbers0 gridNumbers p' :
  uniqueNumbers rnd p exclude colCounts cs gridNumbers0 = (Some gridNumbers, p') →
  ∃ tail, gridNumbers = gridNumbers0 ++ tail ∧
          Forall2 (goodColumn colCounts exclude) cs tail.
Proof.
  revert p gridNumbers0 gridNumbers.
  induction cs as [|c cs IH]; intros p gn0 gn Hu; cbn [uniqueNumbers] in Hu.
  - simplify_eq. exists []. by rewrite app_nil_r.
  - destruct (colRanges !!! c) as [min max] eqn:Hrange.
    cbv zeta in Hu. case_decide as Hshort; [done|].
    apply IH in Hu as (tail & -> & Htail).
    eexists (_ :: tail). split; [by rewrite <- app_assoc|].
    constructor; [|done].
    set (available := availableIn exclude min max) in *.
    assert (take (colCounts !!! c) (permute (rnd p) available) ⊆ available) as Hsub.
    { intros n Hn. apply elem_of_take in Hn as (i & Hn & _).
      apply list_elem_of_lookup_2 in Hn. by rewrite permute_Permutation in Hn. }
    assert (∀ n, n ∈ available → inBand c n ∧ n ∉ exclude) as Hav.
    { intros n Hn. unfold available, availableIn in Hn.
      apply list_elem_of_filter in Hn as [Hex Hn]. apply elem_of_seq in Hn.
      split; [|done]. unfold inBand. rewrite Hrange. simpl. lia. }
    apply chosen_goodColumn.
    + rewrite length_take_le; [done|].
      rewrite (Permutation_length (permute_Permutation _ _)). lia.
    + eapply sublist_NoDup; [|apply sublist_take].
      rewrite permute_Permutation. apply NoDup_filter, NoDup_seq.
    + apply Forall_forall. intros n Hn. by apply Hav, Hsub.
    + apply Forall_forall. intros n Hn. by apply Hav, Hsub.
Qed.

Lemma Forall2_seq_lookup {A} `{!Inhabited A} (P : nat → A → Prop) (n : nat) (l : list A) :
  Forall2 P (seq 0 n) l → length l = n ∧ ∀ c, c < n → P c (l !!! c).
Proof.
  intros HF. pose proof (Forall2_length _ _ _ HF) as Hlen. rewrite length_seq in Hlen.
  split; [done|]. intros c Hc.
  destruct (lookup_lt_is_Some_2 l c) as [x Hx]; [lia|].
  rewrite (list_lookup_total_correct _ _ _ Hx).
  eapply Forall2_lookup_lr; [done| |done]. by apply lookup_seq_lt.
Qed.

Lemma sampleColumn_spec fuel rnd p min max count (nums nums' : list nat) p' :
  ServerJs.sampleColumn fuel rnd p min max count nums = Returns (nums', p') →
  min ≤ max → NoDup nums → Forall (λ n, min ≤ n ≤ max) nums → length nums ≤ count →
  NoDup nums' ∧ Forall (λ n, min ≤ n ≤ max) nums' ∧ length nums' = count.
Proof.
  intros Hs Hmm. revert p nums Hs.
  induction fuel as [|fuel IH]; intros p nums Hs Hnd Hall Hlen;
    cbn [ServerJs.sampleColumn] in Hs.
  - case_decide; [done|]. simplify_eq. split_and!; [done|done|lia].
  - case_decide as Hc; [|simplify_eq; split_and!; [done|done|lia]].
    cbv zeta in Hs. case_decide as Hin.
    + by apply IH in Hs.
    + apply IH in Hs; [done| | |].
      * apply NoDup_app. split_and!; [done| |apply NoDup_singleton].
        intros x Hx ->%list_elem_of_singleton. done.
      * apply Forall_app. split; [done|]. constructor; [|done].
        unfold randomIndex.
        pose proof (Nat.mod_upper_bound (rnd p) (max - min + 1)). lia.
      * rewrite length_app. simpl. lia.
Qed.

Lemma randomNumbers_spec fuel rnd p colCounts cs gridNumbers0 gridNumbers p' :
  ServerJs.randomNumbers fuel rnd p colCounts cs gridNumbers0 = Returns (gridNumbers, p') →
  ∃ tail, gridNumbers = gridNumbers0 ++ tail ∧ Forall2 (goodColumn colCounts ∅) cs tail.
Proof.
  revert p gridNumbers0 gridNumbers. induction cs as [|c cs IH]; intros p gn0 gn Hr;
    cbn [ServerJs.randomNumbers] in Hr.
  - simplify_eq. exists []. by rewrite app_nil_r.
  - destruct (colRanges !!! c) as [min max] eqn:Hrange.
    destruct (ServerJs.sampleColumn fuel rnd p min max (colCounts !!! c) [])
      as [[nums p1]| |] eqn:Hs; [|done|done].
    cbn in Hr. apply IH in Hr as (tail & -> & Htail).
    eexists (_ :: tail). split; [by rewrite <- app_assoc|].
    constructor; [|done].
    pose proof (ranges_ordered c) as Hord. rewrite Hrange in Hord. simpl in Hord.
    apply sampleColumn_spec in Hs as (Hnd & Hall & Hlen);
      [|done|constructor|constructor|simpl; lia].
    apply chosen_goodColumn; [done|done| |].
    + eapply Forall_impl; [done|]. intros n Hn. unfold inBand. by rewrite Hrange.
    + apply Forall_forall. intros n _. apply not_elem_of_empty.
Qed.

(** ** Step 3: the distribution over the rows *)

Lemma pushPicked_fst c ra rf picked :
  (pushPicked c (ra, rf) picked).1 = alter (λ a, a ++ picked) c ra.
Proof.
  revert ra rf. induction picked as [|r picked IH]; intros ra rf.
  - simpl. symmetry. apply list_alter_id. intros a. apply app_nil_r.
  - unfold pushPicked in *. cbn [foldl]. rewrite IH, list_alter_alter_eq.
    apply list_alter_ext; [|done]. intros a _. simpl. by rewrite <- app_assoc.
Qed.

Lemma pushPicked_snd c ra rf picked :
  length rf = 3 → NoDup picked →
  length (pushPicked c (ra, rf) picked).2 = 3 ∧
  ∀ r, r < 3 →
    (pushPicked c (ra, rf) picked).2 !!! r = rf !!! r + (if decide (r ∈ picked) then 1 else 0).
Proof.
  revert ra rf. induction picked as [|r0 picked IH]; intros ra rf Hlen Hnd.
  - unfold pushPicked. cbn [foldl snd]. split; [done|]. intros r _.
    destruct (decide (r ∈ [])) as [Hn|]; [by apply not_elem_of_nil in Hn|lia].
  - apply NoDup_cons in Hnd as [Hr0 Hnd]. unfold pushPicked in *. cbn [foldl].
    destruct (IH (alter (λ a, a ++ [r0]) c ra) (alter S r0 rf)) as [Hl Hv];
      [by rewrite length_alter|done|].
    split; [done|]. intros r Hr. rewrite (Hv r Hr).
    destruct (decide (r = r0)) as [->|Hne].
    + rewrite list_lookup_total_alter_eq by lia.
      destruct (decide (r0 ∈ picked)); [done|].
      destruct (decide (r0 ∈ r0 :: picked)) as [|Hn]; [lia|]. destruct Hn. left.
    + rewrite list_lookup_total_alter_ne by done.
      destruct (decide (r ∈ picked)) as [Hin|Hin];
        destruct (decide (r ∈ r0 :: picked)) as [Hin'|Hin']; try done.
      * destruct Hin'. by right.
      * by apply elem_of_cons in Hin' as [?|?].
Qed.

Lemma filter_length_same (P P' : nat → Prop)
    `{!∀ x, Decision (P x), !∀ x, Decision (P' x)} (l : list nat) :
  (∀ x, x ∈ l → (P' x ↔ P x)) → length (filter P' l) = length (filter P l).
Proof.
  induction l as [|x l IH]; intros Hsame; [done|].
  rewrite !filter_cons.
  assert (P' x ↔ P x) as Hx by (apply Hsame; left).
  assert (length (filter P' l) = length (filter P l)) as Hl
    by (apply IH; intros y Hy; apply Hsame; by right).
  destruct (decide (P x)), (decide (P' x)); simpl; tauto || lia.
Qed.

Lemma filter_length_flip (P P' : nat → Prop)
    `{!∀ x, Decision (P x), !∀ x, Decision (P' x)} (l : list nat) (c : nat) :
  NoDup l → c ∈ l → ¬ P c → (∀ x, x ∈ l → x ≠ c → (P' x ↔ P x)) →
  length (filter P' l) = length (filter P l) + (if decide (P' c) then 1 else 0).
Proof.
  induction 1 as [|x l Hx Hnd IH]; intros Hc HPc Hsame.
  - by apply not_elem_of_nil in Hc.
  - rewrite !filter_cons. apply elem_of_cons in Hc as [->|Hc].
    + assert (length (filter P' l) = length (filter P l)) as Hl.
      { apply filter_length_same. intros y Hy. apply Hsame; [by right|]. intros ->. done. }
      destruct (decide (P x)); [done|]. destruct (decide (P' x)); simpl; lia.
    + assert (x ≠ c) as Hne by (intros ->; done).
      assert (P' x ↔ P x) as Hxx by (apply Hsame; [left|done]).
      assert (length (filter P' l)
              = length (filter P l) + (if decide (P' c) then 1 else 0)) as Hl.
      { apply IH; [done|done|]. intros y Hy. apply Hsame. by right. }
      destruct (decide (P x)), (decide (P' x)); try tauto; simpl; lia.
Qed.

Lemma rowCount_alter (ra : list (list nat)) (c r : nat) (picked : list nat) :
  length ra = 9 → c < 9 → ra !!! c = [] →
  rowCount (alter (λ a, a ++ picked) c ra) r
  = rowCount ra r + (if decide (r ∈ picked) then 1 else 0).
Proof.
  intros Hlen Hc Hnil. unfold rowCount.
  assert (alter (λ a, a ++ picked) c ra !!! c = picked) as Hpicked.
  { rewrite list_lookup_total_alter_eq by lia. by rewrite Hnil. }
  rewrite (filter_length_flip (λ c0, r ∈ ra !!! c0) _ (seq 0 9) c).
  - rewrite Hpicked. done.
  - apply NoDup_seq.
  - apply elem_of_seq. lia.
  - rewrite Hnil. apply not_elem_of_nil.
  - intros x _ Hne. by rewrite list_lookup_total_alter_ne.
Qed.

Lemma picked_rows (rf : list nat) (r count : nat) :
  let availRows := filter (λ r, rf !!! r < 5) [0; 1; 2] in
  ¬ length availRows < count →
  let picked := take count (permute r availRows) in
  length picked = count ∧ NoDup picked ∧ Forall (λ r, r < 3) picked.
Proof.
  intros availRows Hlen picked. split_and!.
  - unfold picked. rewrite length_take_le; [done|].
    rewrite (Permutation_length (permute_Permutation _ _)). lia.
  - eapply sublist_NoDup; [|apply sublist_take].
    rewrite permute_Permutation. apply NoDup_filter. by apply (NoDup_seq 0 3).
  - apply Forall_forall. intros x Hx. apply elem_of_take in Hx as (i & Hx & _).
    apply list_elem_of_lookup_2 in Hx. rewrite permute_Permutation in Hx.
    apply list_elem_of_filter in Hx as [_ Hx]. apply (elem_of_seq 0 3) in Hx. lia.
Qed.

Lemma assignRows_spec rnd p colCounts cols ra rf ra' rf' p' :
  NoDup cols → Forall (λ c, c < 9) cols →
  assignInv colCounts cols ra rf →
  assignRows rnd p colCounts cols ra rf = (true, ra', rf', p') →
  assignInv colCounts [] ra' rf'.
Proof.
  intros Hnd. revert p ra rf.
  induction Hnd as [|c cols Hc Hnd IH]; intros p ra rf Hlt Hinv Ha; cbn [assignRows] in Ha.
  - by simplify_eq.
  - apply Forall_cons in Hlt as [Hc9 Hlt]. cbv zeta in Ha.
    case_decide as Hshort; [done|].
    destruct (picked_rows rf (rnd p) (colCounts !!! c) Hshort) as (Hplen & Hpnd & Hp3).
    set (picked := take (colCounts !!! c) (permute (rnd p) (filter (λ r, rf !!! r < 5) [0; 1; 2]))) in *.
    destruct Hinv as (Hra & Hrf & Hcols & Hrows).
    destruct (pushPicked c (ra, rf) picked) as [ra1 rf1] eqn:Hpush.
    pose proof (pushPicked_fst c ra rf picked) as H1.
    destruct (pushPicked_snd c ra rf picked Hrf Hpnd) as [Hl Hv].
    rewrite Hpush in H1, Hl, Hv. simpl in H1, Hl, Hv. subst ra1.
    assert (ra !!! c = []) as Hnil by (apply Hcols; [done|left]).
    eapply IH; [done| |done]. unfold assignInv. split_and!.
    + by rewrite length_alter.
    + done.
    + intros c0 Hc0. destruct (decide (c0 = c)) as [->|Hne].
      * rewrite list_lookup_total_alter_eq by lia. rewrite Hnil. simpl.
        split_and!; [done|done|by intros ?|done].
      * rewrite list_lookup_total_alter_ne by done.
        destruct (Hcols c0 Hc0) as (? & ? & Hpend & Hdone). split_and!; [done|done| |].
        -- intros Hin. apply Hpend. by right.
        -- intros Hnin. apply Hdone. by intros [?|?]%elem_of_cons.
    + intros r Hr. rewrite (Hv r Hr), (Hrows r Hr). symmetry. by apply rowCount_alter.
Qed.

Lemma colsIndices_spec colCounts :
  NoDup (colsIndices colCounts) ∧ Forall (λ c, c < 9) (colsIndices colCounts).
Proof.
  unfold colsIndices. split.
  - apply sortCmp_NoDup, NoDup_seq.
  - apply Forall_forall. intros c Hc. apply sortCmp_elem, elem_of_seq in Hc. lia.
Qed.

Lemma assignInv_initial colCounts :
  assignInv colCounts (colsIndices colCounts) (replicate 9 []) [0; 0; 0].
Proof.
  unfold assignInv. split_and!; [done|done| |].
  - intros c Hc. rewrite lookup_total_replicate_2 by done.
    split_and!; [constructor|constructor|done|].
    intros Hn. destruct Hn. apply sortCmp_elem, elem_of_seq. lia.
  - intros r Hr. unfold rowCount.
    do 3 (destruct r as [|r]; [vm_compute; reflexivity|]). lia.
Qed.

(** ** Placing the numbers *)

Lemma cellAt_insert (rs : list TicketRow) (r c n r' c' : nat) (row : TicketRow) :
  rs !! r = Some row → c < length (cells row) →
  cellAt (<[r := mkRow (<[c := Some n]> (cells row)) (marked row)]> rs) r' c'
  = if decide (r' = r ∧ c' = c) then Some n else cellAt rs r' c'.
Proof.
  intros Hr Hc. unfold cellAt. apply lookup_lt_Some in Hr as Hlt.
  destruct (decide (r' = r)) as [->|Hne].
  - rewrite list_lookup_insert_eq by done. rewrite Hr. simpl.
    destruct (decide (c' = c)) as [->|Hne].
    + rewrite decide_True by done. by rewrite list_lookup_insert_eq.
    + rewrite decide_False by tauto. by rewrite list_lookup_insert_ne.
  - rewrite decide_False by tauto. by rewrite list_lookup_insert_ne.
Qed.

Lemma setCell_spec (rs : list TicketRow) (r c n : nat) :
  shaped rs → r < 3 → c < 9 →
  ∃ rs', setCell rs r c n = Returns rs' ∧ shaped rs' ∧
         ∀ r' c', cellAt rs' r' c' = if decide (r' = r ∧ c' = c) then Some n else cellAt rs r' c'.
Proof.
  intros [Hlen Hall] Hr Hc. unfold setCell.
  destruct (lookup_lt_is_Some_2 rs r) as [row Hrow]; [lia|]. rewrite Hrow.
  assert (length (cells row) = 9) as Hcells.
  { rewrite Forall_lookup in Hall. exact (Hall _ _ Hrow). }
  eexists. split; [done|]. split.
  - split; [by rewrite length_insert|]. apply Forall_insert; [done|].
    simpl. by rewrite length_insert.
  - intros r' c'. apply cellAt_insert; [done|lia].
Qed.

Lemma placeColumn_spec (rs : list TicketRow) (c : nat) (rowIndices nums : list nat) :
  shaped rs → c < 9 → Forall (λ r, r < 3) rowIndices → length nums ≤ length rowIndices →
  ∃ rs', placeColumn rs c rowIndices nums = Returns rs' ∧ shaped rs' ∧
         ∀ r' c', cellAt rs' r' c'
                  = if decide (c' = c) then paired rowIndices nums r' (cellAt rs r' c)
                    else cellAt rs r' c'.
Proof.
  intros Hsh Hc. revert rs rowIndices Hsh.
  induction nums as [|n nums IH]; intros rs ris Hsh Hris Hlen.
  - exists rs. split_and!; [done|done|]. intros r' c'. simpl.
    case_decide; [by subst|done].
  - destruct ris as [|r ris]; [simpl in Hlen; lia|].
    apply Forall_cons in Hris as [Hr Hris]. cbn [placeColumn].
    destruct (setCell_spec rs r c n Hsh Hr Hc) as (rs1 & -> & Hsh1 & Hcell1).
    destruct (IH rs1 ris Hsh1 Hris) as (rs' & Hp & Hsh' & Hcell'); [simpl in Hlen; lia|].
    exists rs'. split_and!; [done|done|]. intros r' c'. rewrite Hcell'.
    case_decide as Hcc.
    + subst c'. cbn [paired]. rewrite Hcell1. f_equal.
      destruct (decide (r' = r)).
      * by rewrite decide_True.
      * by rewrite decide_False by tauto.
    + rewrite Hcell1. by rewrite decide_False by tauto.
Qed.

Lemma placeColumns_spec (rs : list TicketRow) (cs : list nat) (ra gn : list (list nat)) :
  shaped rs → NoDup cs → Forall (λ c, c < 9) cs →
  (∀ c, c ∈ cs → Forall (λ r, r < 3) (ra !!! c) ∧ length (gn !!! c) ≤ length (ra !!! c)) →
  ∃ rs', placeColumns rs cs ra gn = Returns rs' ∧ shaped rs' ∧
         ∀ r' c', cellAt rs' r' c'
                  = if decide (c' ∈ cs)
                    then paired (sortCmp ascending (ra !!! c')) (gn !!! c') r' (cellAt rs r' c')
                    else cellAt rs r' c'.
Proof.
  intros Hsh Hnd. revert rs Hsh.
  induction Hnd as [|c cs Hc Hnd IH]; intros rs Hsh Hlt Hcols.
  - exists rs. split_and!; [done|done|]. intros r' c'.
    by rewrite decide_False by apply not_elem_of_nil.
  - apply Forall_cons in Hlt as [Hc9 Hlt]. cbn [placeColumns].
    destruct (Hcols c) as [Hrows Hlen]; [left|].
    destruct (placeColumn_spec rs c (sortCmp ascending (ra !!! c)) (gn !!! c))
      as (rs1 & -> & Hsh1 & Hcell1); [done|done| | |].
    { by rewrite sortCmp_Permutation. }
    { by rewrite sortCmp_length. }
    destruct (IH rs1 Hsh1 Hlt) as (rs' & Hp & Hsh' & Hcell').
    { intros c0 Hc0. apply Hcols. by right. }
    exists rs'. split_and!; [done|done|]. intros r' c'. rewrite Hcell', !Hcell1.
    destruct (decide (c' = c)) as [->|Hne].
    + rewrite decide_False by done. rewrite decide_True by left. done.
    + destruct (decide (c' ∈ cs)) as [Hin|Hin].
      * rewrite decide_True by by right. done.
      * rewrite decide_False; [done|]. by intros [?|?]%elem_of_cons.
Qed.

(** ** Reading a grid by rows and by columns *)

Lemma omap_lookup_from {A B} (g : A → option B) (k l : list A) :
  omap g l = omap (λ i, (k ++ l) !! i ≫= g) (seq (length k) (length l)).
Proof.
  revert k. induction l as [|x l IH]; intros k; [done|].
  cbn [length seq omap list_omap].
  rewrite list_lookup_middle by done. cbn [mbind option_bind].
  specialize (IH (k ++ [x])). rewrite <- app_assoc, length_app in IH. simpl in IH.
  rewrite Nat.add_1_r in IH. fold (omap g l). rewrite IH. done.
Qed.

Lemma omap_lookup_seq {A B} (g : A → option B) (l : list A) :
  omap g l = omap (λ i, l !! i ≫= g) (seq 0 (length l)).
Proof. apply (omap_lookup_from g []). Qed.

Lemma length_omap_filter {A B} (f : A → option B) (l : list A) :
  length (omap f l) = length (filter (λ x, is_Some (f x)) l).
Proof.
  induction l as [|x l IH]; [done|]. cbn [omap list_omap]. rewrite filter_cons.
  fold (omap f l). destruct (f x) as [y|] eqn:E.
  - rewrite decide_True by done. simpl. by rewrite IH.
  - rewrite decide_False by by intros [? ?]. done.
Qed.

Lemma rowNumbers_cells (rs : list TicketRow) (r : nat) (row : TicketRow) :
  rs !! r = Some row → length (cells row) = 9 →
  rowNumbers row = omap (cellAt rs r) (seq 0 9).
Proof.
  intros Hr Hlen. unfold rowNumbers. rewrite omap_lookup_seq, Hlen.
  apply list_omap_ext, Forall2_same_length_lookup. split; [done|].
  intros i x y Hx Hy. simplify_eq. unfold cellAt. by rewrite Hr.
Qed.

Lemma columnNumbers_cells (rs : list TicketRow) (c : nat) :
  length rs = 3 →
  columnNumbers (mkGrid rs) c = omap (λ r, cellAt rs r c) (seq 0 3).
Proof.
  intros Hlen. unfold columnNumbers. simpl. by rewrite omap_lookup_seq, Hlen.
Qed.

Lemma paired_is_Some (ris nums : list nat) (r : nat) (d : option nat) :
  length nums = length ris →
  is_Some (paired ris nums r d) ↔ is_Some d ∨ r ∈ ris.
Proof.
  revert ris d. induction nums as [|n nums IH]; intros [|r0 ris] d Hlen; simplify_eq/=.
  - split; [by left|]. intros [?|Hn]; [done|]. by apply not_elem_of_nil in Hn.
  - rewrite IH by done. rewrite elem_of_cons. case_decide as Hr; subst.
    + split; intros _; [right; by left|by left].
    + tauto.
Qed.

(** Numbers placed in strictly increasing rows read back, top to bottom,
    in the order they were given. *)
Lemma column_read (ris nums : list nat) :
  StronglySorted lt ris → Forall (λ r, r < 3) ris → length nums = length ris →
  omap (λ r, paired ris nums r None) (seq 0 3) = nums.
Proof.
  intros Hs Hlt Hlen.
  destruct ris as [|a [|b [|c [|d ris]]]];
    destruct nums as [|x [|y [|z [|w nums]]]]; simplify_eq/=.
  - done.
  - apply Forall_cons in Hlt as [Ha _].
    destruct a as [|[|[|a]]]; [done|done|done|lia].
  - apply Forall_cons in Hlt as [Ha [Hb _]%Forall_cons].
    apply StronglySorted_inv in Hs as [_ [Hab _]%Forall_cons].
    destruct a as [|[|[|a]]], b as [|[|[|b]]]; try lia; done.
  - apply Forall_cons in Hlt as [Ha [Hb [Hc _]%Forall_cons]%Forall_cons].
    apply StronglySorted_inv in Hs as [Hs [Hab [Hac _]%Forall_cons]%Forall_cons].
    apply StronglySorted_inv in Hs as [_ [Hbc _]%Forall_cons].
    destruct a as [|[|[|a]]], b as [|[|[|b]]], c as [|[|[|c]]]; try lia; done.
  - exfalso.
    apply Forall_cons in Hlt as [Ha [Hb [Hc [Hd _]%Forall_cons]%Forall_cons]%Forall_cons].
    apply StronglySorted_inv in Hs as [Hs [Hab _]%Forall_cons].
    apply StronglySorted_inv in Hs as [Hs [Hbc _]%Forall_cons].
    apply StronglySorted_inv in Hs as [_ [Hcd _]%Forall_cons].
    lia.
Qed.

Lemma cellAt_empty (r c : nat) : cellAt [emptyRow; emptyRow; emptyRow] r c = None.
Proof.
  assert (∀ c, replicate 9 (@None nat) !! c ≫= (λ n, n) = None) as Hrow.
  { intros c0. destruct (replicate 9 None !! c0) as [x|] eqn:E; [|done].
    apply lookup_replicate in E as [-> _]. done. }
  unfold cellAt. destruct r as [|[|[|r]]]; simpl; try apply Hrow. done.
Qed.

Lemma elem_of_concat {A} (x : A) (ls : list (list A)) :
  x ∈ concat ls ↔ ∃ l, x ∈ l ∧ l ∈ ls.
Proof.
  induction ls as [|l ls IH]; simpl.
  - split; [intros Hx; by apply not_elem_of_nil in Hx|].
    intros (l & _ & Hl). by apply not_elem_of_nil in Hl.
  - rewrite elem_of_app, IH. split.
    + intros [Hx|(l' & Hx & Hl')]; [exists l; split; [done|left]|].
      exists l'. split; [done|by right].
    + intros (l' & Hx & [->|Hl']%elem_of_cons); [by left|]. right. by exists l'.
Qed.

(** Every number of a grid sits in one of its nine columns. *)
Lemma number_in_column (rs : list TicketRow) (n : nat) :
  shaped rs → n ∈ numbersOf (mkGrid rs) →
  ∃ c, c < 9 ∧ n ∈ columnNumbers (mkGrid rs) c.
Proof.
  intros [Hlen Hall] Hn. unfold numbersOf in Hn. simpl in Hn.
  apply elem_of_concat in Hn as (l & Hn & Hl).
  apply list_elem_of_fmap in Hl as (row & -> & Hrow).
  apply list_elem_of_lookup in Hrow as [r Hr].
  assert (length (cells row) = 9) as Hcells.
  { rewrite Forall_lookup in Hall. exact (Hall _ _ Hr). }
  rewrite (rowNumbers_cells rs r row Hr Hcells) in Hn.
  apply list_elem_of_omap in Hn as (c & Hc & Hcell). apply elem_of_seq in Hc.
  exists c. split; [lia|]. rewrite columnNumbers_cells by done.
  apply list_elem_of_omap. exists r. split; [|done].
  apply elem_of_seq. apply lookup_lt_Some in Hr. lia.
Qed.

Lemma placed_grid colCounts exclude ra rf gn :
  countsOK colCounts →
  assignInv colCounts [] ra rf →
  Forall (λ n, n = 5) rf →
  (∀ c, c < 9 → goodColumn colCounts exclude c (gn !!! c)) →
  ∃ rs, placeColumns [emptyRow; emptyRow; emptyRow] (seq 0 9) ra gn = Returns rs ∧
        validGrid (mkGrid rs) ∧ avoids exclude (mkGrid rs).
Proof.
  intros Hcounts (Hra & Hrf & Hcols & Hrows) Hfive Hgood.
  assert (∀ c, c < 9 → NoDup (ra !!! c) ∧ Forall (λ r, r < 3) (ra !!! c) ∧
                       length (ra !!! c) = length (gn !!! c)) as Hcol.
  { intros c Hc. destruct (Hcols c Hc) as (? & ? & _ & Hlen).
    destruct (Hgood c Hc) as (Hl & _). split_and!; [done|done|].
    rewrite Hl. apply Hlen, not_elem_of_nil. }
  destruct (placeColumns_spec [emptyRow; emptyRow; emptyRow] (seq 0 9) ra gn)
    as (rs & Hplace & Hsh & Hcell).
  { split; [done|]. repeat constructor. }
  { apply NoDup_seq. }
  { apply Forall_forall. intros c Hc. apply elem_of_seq in Hc. lia. }
  { intros c Hc. apply elem_of_seq in Hc. destruct (Hcol c) as (_ & ? & Hl); [lia|].
    split; [done|lia]. }
  assert (∀ r c, c < 9 →
            cellAt rs r c = paired (sortCmp ascending (ra !!! c)) (gn !!! c) r None) as Hcell'.
  { intros r c Hc. rewrite Hcell, cellAt_empty. rewrite decide_True; [done|].
    apply elem_of_seq. lia. }
  assert (∀ c, c < 9 → columnNumbers (mkGrid rs) c = gn !!! c) as Hcolumn.
  { intros c Hc. destruct Hsh as [Hlen _]. rewrite columnNumbers_cells by done.
    destruct (Hcol c Hc) as (Hnd & Hlt & Hl).
    rewrite <- (column_read (sortCmp ascending (ra !!! c)) (gn !!! c)).
    - apply list_omap_ext, Forall2_same_length_lookup. split; [done|].
      intros i x y Hx Hy. simplify_eq. by apply Hcell'.
    - by apply sortCmp_ascending_strict.
    - by rewrite sortCmp_Permutation.
    - by rewrite sortCmp_length. }
  exists rs. split; [done|]. split.
  - assert (Forall (λ row, length (cells row) = 9 ∧ length (rowNumbers row) = 5) rs) as Hfr.
    { destruct Hsh as [Hlen Hall]. apply Forall_lookup. intros r row Hr.
      assert (length (cells row) = 9) as Hcells.
      { rewrite Forall_lookup in Hall. exact (Hall _ _ Hr). }
      split; [done|]. apply lookup_lt_Some in Hr as Hr3. rewrite Hlen in Hr3.
      rewrite (rowNumbers_cells rs r row Hr Hcells), length_omap_filter.
      rewrite (filter_length_same (λ c, r ∈ ra !!! c) (λ c, is_Some (cellAt rs r c))).
      - fold (rowCount ra r). rewrite <- Hrows by done.
        destruct (lookup_lt_is_Some_2 rf r) as [x Hx]; [lia|].
        rewrite (list_lookup_total_correct _ _ _ Hx).
        rewrite Forall_lookup in Hfive. exact (Hfive _ _ Hx).
      - intros c Hc. apply elem_of_seq in Hc.
        destruct (Hcol c) as (_ & _ & Hl); [lia|].
        rewrite Hcell' by lia. rewrite paired_is_Some by by rewrite sortCmp_length.
        rewrite sortCmp_elem. split; [intros [[? ?]|?]; done|by right]. }
    unfold validGrid. simpl. destruct Hsh as [Hlen Hall]. split_and!; [done|done| |].
    + unfold numbersOf. simpl.
      destruct rs as [|a [|b [|c [|d rs]]]]; simplify_eq/=.
      apply Forall_cons in Hfr as [[_ Ha] [[_ Hb] [[_ Hc] _]%Forall_cons]%Forall_cons].
      rewrite !length_app, Ha, Hb, Hc. done.
    + intros c Hc. rewrite (Hcolumn c Hc).
      destruct (Hgood c Hc) as (Hl & Hs & Hb & _).
      pose proof (countsOK_lookup colCounts c Hcounts Hc). split_and!; [lia|lia|done|done].
  - intros n Hn. apply number_in_column in Hn as (c & Hc & Hn); [|done].
    rewrite (Hcolumn c Hc) in Hn. destruct (Hgood c Hc) as (_ & _ & _ & Hex).
    rewrite Forall_forall in Hex. by apply Hex.
Qed.

(** ** The grid generators *)

Lemma distributeRows_spec attempts rnd p colCounts exclude gn g p' :
  countsOK colCounts →
  (∀ c, c < 9 → goodColumn colCounts exclude c (gn !!! c)) →
  distributeRows attempts rnd p colCounts gn = Returns (Some g, p') →
  validGrid g ∧ avoids exclude g.
Proof.
  intros Hcounts Hgood. revert p.
  induction attempts as [|attempts IH]; intros p Hd; cbn [distributeRows] in Hd; [done|].
  destruct (assignRows rnd p colCounts (colsIndices colCounts) (replicate 9 []) [0; 0; 0])
    as [[[valid ra] rf] p1] eqn:Ha.
  destruct (valid && forallb (λ c, bool_decide (c = 5)) rf) eqn:Hok; [|by eapply IH].
  apply andb_true_iff in Hok as [-> Hfive].
  destruct (colsIndices_spec colCounts) as [Hnd Hlt].
  pose proof (assignRows_spec _ _ _ _ _ _ _ _ _ Hnd Hlt (assignInv_initial colCounts) Ha) as Hinv.
  assert (Forall (λ n, n = 5) rf) as Hfive'.
  { apply Forall_forall. intros n Hn. apply list_elem_of_In in Hn.
    rewrite List.forallb_forall in Hfive. specialize (Hfive n Hn).
    by apply bool_decide_eq_true in Hfive. }
  destruct (placed_grid colCounts exclude ra rf gn Hcounts Hinv Hfive' Hgood)
    as (rs & Hplace & Hvalid & Havoid).
  rewrite Hplace in Hd. step_bind Hd. by simplify_eq.
Qed.

Lemma generateUniqueGrid_spec fuel rnd p exclude g p' :
  generateUniqueGrid fuel rnd p exclude = Returns (Some g, p') →
  validGrid g ∧ avoids exclude g.
Proof.
  unfold generateUniqueGrid. intros Hg.
  destruct (fillColCounts fuel rnd p (replicate 9 1) 6) as [[colCounts p1]| |] eqn:Hfill;
    [|done|done].
  step_bind Hg. apply fillColCounts_spec in Hfill as [Hcounts _]; [|apply countsOK_initial].
  destruct (uniqueNumbers rnd p1 exclude colCounts (seq 0 9) []) as [[gn|] p2] eqn:Hu;
    [|by simplify_eq].
  apply uniqueNumbers_spec in Hu as (tail & -> & Htail).
  apply Forall2_seq_lookup in Htail as [_ Hgood].
  by eapply distributeRows_spec.
Qed.

Lemma generateGrid_spec retries fuel rnd p g p' :
  ServerJs.generateGrid retries fuel rnd p = Returns (g, p') → validGrid g.
Proof.
  revert p. induction retries as [|retries IH]; intros p Hg;
    cbn [ServerJs.generateGrid] in Hg; [done|].
  destruct (fillColCounts fuel rnd p (replicate 9 1) 6) as [[colCounts p1]| |] eqn:Hfill;
    [|done|done].
  step_bind Hg. apply fillColCounts_spec in Hfill as [Hcounts _]; [|apply countsOK_initial].
  destruct (ServerJs.randomNumbers fuel rnd p1 colCounts (seq 0 9) [])
    as [[gn p2]| |] eqn:Hr; [|done|done].
  step_bind Hg. apply randomNumbers_spec in Hr as (tail & -> & Htail).
  apply Forall2_seq_lookup in Htail as [_ Hgood].
  change ([] ++ tail) with tail in Hg.
  destruct (distributeRows 100 rnd p2 colCounts tail) as [[[g'|] p3]| |] eqn:Hd;
    step_bind Hg; [| |done|done].
  - simplify_eq. by eapply (distributeRows_spec _ _ _ _ ∅).
  - by eapply IH.
Qed.

(** C2: every grid the grid generators return, [generateUniqueGrid] of
    the number generator and [generateGrid] of [server.js] alike, has 3
    rows of 9 cells holding 15 numbers, 5 in each row and 1 to 3 in each
    column, with every column strictly increasing from the top row to the
    bottom row and within its band (1-9, 10-19, ..., 80-90). *)
Theorem generated_grid_valid (g : TicketGrid) :
  (∃ fuel rnd p exclude p', generateUniqueGrid fuel rnd p exclude = Returns (Some g, p')) ∨
  (∃ retries fuel rnd p p', ServerJs.generateGrid retries fuel rnd p = Returns (g, p')) →
  validGrid g.
Proof.
  intros [(fuel & rnd & p & exclude & p' & Hg)|(retries & fuel & rnd & p & p' & Hg)].
  - by apply generateUniqueGrid_spec in Hg as [? _].
  - by eapply generateGrid_spec.
Qed.

(** ** The numbers of a ticket *)

Lemma omap_map {A B C} (f : B → option C) (g : A → B) (l : list A) :
  omap f (map g l) = omap (λ x, f (g x)) l.
Proof.
  induction l as [|x l IH]; [done|]. cbn [map omap list_omap].
  fold (omap f (map g l)). fold (omap (λ x, f (g x)) l). by rewrite IH.
Qed.

Lemma NoDup_omap_inj {A B} (f : A → option B) (l : list A) :
  NoDup l →
  (∀ x y z, x ∈ l → y ∈ l → f x = Some z → f y = Some z → x = y) →
  NoDup (omap f l).
Proof.
  induction 1 as [|x l Hx Hnd IH]; intros Hinj; [constructor|].
  cbn [omap list_omap]. fold (omap f l).
  assert (NoDup (omap f l)) as Hrest.
  { apply IH. intros a b z Ha Hb. apply Hinj; by right. }
  destruct (f x) as [z|] eqn:E; [|done]. constructor; [|done].
  intros (y & Hy & Hfy)%list_elem_of_omap.
  assert (x = y) as -> by (eapply Hinj; [left|by right|done|done]). done.
Qed.

Lemma bands_disjoint (c c' n : nat) :
  c < 9 → c' < 9 → inBand c n → inBand c' n → c = c'.
Proof.
  unfold inBand. intros Hc Hc'.
  do 9 (destruct c as [|c]; [do 9 (destruct c' as [|c']; [simpl; lia|]); lia|]). lia.
Qed.

Lemma band_positive (c n : nat) : c < 9 → inBand c n → n ≠ 0.
Proof.
  unfold inBand. intros Hc. do 9 (destruct c as [|c]; [simpl; lia|]). lia.
Qed.

Lemma numbersOf_positions (rs : list TicketRow) :
  shaped rs → numbersOf (mkGrid rs) = omap (λ pos, cellAt rs pos.1 pos.2) positions.
Proof.
  intros [Hlen Hall]. unfold numbersOf, positions.
  destruct rs as [|a [|b [|c [|d rs]]]]; try discriminate Hlen.
  apply Forall_cons in Hall as [Ha [Hb [Hc _]%Forall_cons]%Forall_cons].
  rewrite !omap_app, !omap_map. cbn [rows map concat fst snd].
  rewrite (rowNumbers_cells [a; b; c] 0 a), (rowNumbers_cells [a; b; c] 1 b),
    (rowNumbers_cells [a; b; c] 2 c) by done.
  by rewrite app_nil_r.
Qed.

Lemma validGrid_shaped g : validGrid g → shaped (rows g).
Proof.
  intros (Hlen & Hall & _). split; [done|]. eapply Forall_impl; [done|]. by intros row [? _].
Qed.

Lemma column_cell_band (rs : list TicketRow) (r c n : nat) :
  validGrid (mkGrid rs) → r < 3 → c < 9 → cellAt rs r c = Some n → inBand c n.
Proof.
  intros Hv Hr Hc Hcell. pose proof Hv as (Hlen & _ & _ & Hcol).
  destruct (Hcol c Hc) as (_ & _ & Hband). rewrite Forall_forall in Hband. apply Hband.
  rewrite columnNumbers_cells by done. apply list_elem_of_omap.
  exists r. split; [|done]. apply elem_of_seq. lia.
Qed.

Lemma column_cell_order (rs : list TicketRow) (r r' c n n' : nat) :
  validGrid (mkGrid rs) → r < r' → r' < 3 → c < 9 →
  cellAt rs r c = Some n → cellAt rs r' c = Some n' → n < n'.
Proof.
  intros Hv Hrr Hr' Hc Hn Hn'. pose proof Hv as (Hlen & _ & _ & Hcol).
  destruct (Hcol c Hc) as (_ & Hs & _). rewrite columnNumbers_cells in Hs by done.
  cbn [seq omap list_omap] in Hs.
  destruct r as [|[|r]], r' as [|[|[|r']]]; try lia;
    rewrite ?Hn, ?Hn' in Hs;
    repeat match type of Hs with
           | context [match cellAt rs ?i c with _ => _ end] => destruct (cellAt rs i c)
           end;
    repeat match goal with
           | H : StronglySorted _ (_ :: _) |- _ =>
             apply StronglySorted_inv in H as [? ?]
           | H : Forall _ (_ :: _) |- _ => apply Forall_cons in H as [? ?]
           end; lia.
Qed.

(** In a valid grid no number occurs twice. *)
Lemma validGrid_NoDup g : validGrid g → NoDup (numbersOf g).
Proof.
  destruct g as [rs]. intros Hv. pose proof (validGrid_shaped _ Hv) as Hsh. simpl in Hsh.
  rewrite numbersOf_positions by done. apply NoDup_omap_inj.
  - unfold positions. by compute_done.
  - intros [r c] [r' c'] n Hpos Hpos' Hn Hn'. cbn [fst snd] in Hn, Hn'.
    assert (∀ r c, (r, c) ∈ positions → r < 3 ∧ c < 9) as Hrange.
    { intros r0 c0 Hp. unfold positions in Hp.
      rewrite !elem_of_app, !list_elem_of_fmap in Hp.
      destruct Hp as [(x & [= -> ->] & Hx)|[(x & [= -> ->] & Hx)|(x & [= -> ->] & Hx)]];
        apply elem_of_seq in Hx; lia. }
    destruct (Hrange _ _ Hpos) as [Hr Hc]. destruct (Hrange _ _ Hpos') as [Hr' Hc'].
    assert (c = c') as <-.
    { apply (bands_disjoint c c' n Hc Hc').
      - exact (column_cell_band rs r c n Hv Hr Hc Hn).
      - exact (column_cell_band rs r' c' n Hv Hr' Hc' Hn'). }
    destruct (Nat.lt_trichotomy r r') as [Hlt|[->|Hlt]]; [|done|].
    + pose proof (column_cell_order rs r r' c n n Hv Hlt Hr' Hc Hn Hn'). lia.
    + pose proof (column_cell_order rs r' r c n n Hv Hlt Hr Hc Hn' Hn). lia.
Qed.

Lemma addUsed_cells (used : gset nat) (l : list (option nat)) (n : nat) :
  n ∈ foldl (λ used' c, match c with Some (S m) => {[S m]} ∪ used' | _ => used' end) used l
  ↔ n ∈ used ∨ (n ≠ 0 ∧ Some n ∈ l).
Proof.
  revert used. induction l as [|c l IH]; intros used; cbn [foldl].
  - split; [by left|]. intros [?|[_ Hn]]; [done|]. by apply not_elem_of_nil in Hn.
  - rewrite IH, elem_of_cons. destruct c as [[|m]|].
    + split; [intros [?|[? ?]]; [by left|right; split; [done|by right]]|].
      intros [?|[Hn [[= ->]|?]]]; [by left|done|by right].
    + rewrite elem_of_union, elem_of_singleton. split.
      * intros [[->|?]|[? ?]]; [right; split; [done|by left]|by left|].
        right. split; [done|by right].
      * intros [?|[Hn [[= ->]|?]]]; [left; by right|left; by left|by right].
    + split; [intros [?|[? ?]]; [by left|right; split; [done|by right]]|].
      intros [?|[Hn [?|?]]]; [by left|done|by right].
Qed.

Lemma addUsed_spec (used : gset nat) (g : TicketGrid) (n : nat) :
  n ∈ addUsed used g ↔ n ∈ used ∨ (n ≠ 0 ∧ n ∈ numbersOf g).
Proof.
  unfold addUsed, numbersOf. revert used.
  induction (rows g) as [|row rs IH]; intros used; cbn [foldl map concat].
  - split; [by left|]. intros [?|[_ Hn]]; [done|]. by apply not_elem_of_nil in Hn.
  - rewrite IH, addUsed_cells, elem_of_app.
    assert (Some n ∈ cells row ↔ n ∈ rowNumbers row) as ->.
    { unfold rowNumbers. rewrite list_elem_of_omap. split.
      - intros Hn. by exists (Some n).
      - by intros (x & Hx & ->). }
    tauto.
Qed.

Lemma validGrid_positive g n : validGrid g → n ∈ numbersOf g → n ≠ 0.
Proof.
  destruct g as [rs]. intros Hv Hn. pose proof (validGrid_shaped _ Hv) as Hsh.
  apply number_in_column in Hn as (c & Hc & Hn); [|done].
  destruct Hv as (_ & _ & _ & Hcol). destruct (Hcol c Hc) as (_ & _ & Hband).
  rewrite Forall_forall in Hband. eapply band_positive; [done|]. by apply Hband.
Qed.

Lemma ticketInv_empty : ticketInv [] ∅.
Proof.
  split_and!; [constructor|constructor|]. intros n. simpl.
  split; [intros Hn; by apply not_elem_of_empty in Hn|intros Hn; by apply not_elem_of_nil in Hn].
Qed.

Lemma ticketInv_push grids used g :
  ticketInv grids used → validGrid g → avoids used g →
  ticketInv (grids ++ [g]) (addUsed used g).
Proof.
  intros (Hvalid & Hnd & Hused) Hg Havoid.
  assert (concat (map numbersOf (grids ++ [g]))
          = concat (map numbersOf grids) ++ numbersOf g) as Hcat.
  { rewrite map_app, concat_app. simpl. by rewrite app_nil_r. }
  split_and!.
  - apply Forall_app. split; [done|]. by constructor.
  - rewrite Hcat. apply NoDup_app. split_and!; [done| |by apply validGrid_NoDup].
    intros n Hn Hn'. apply Hused in Hn. by apply Havoid in Hn'.
  - intros n. rewrite Hcat, addUsed_spec, elem_of_app, Hused.
    split; [intros [?|[_ ?]]; [by left|by right]|].
    intros [?|Hn]; [by left|]. right. split; [|done]. by eapply validGrid_positive.
Qed.

Lemma ticketLoop_spec budget fuel rnd p grids used grids' p' :
  ticketLoop budget fuel rnd p grids used = Returns (grids', p') →
  ticketInv grids used → length grids ≤ 3 →
  (∃ used', ticketInv grids' used') ∧ length grids' ≤ 3.
Proof.
  revert p grids used.
  induction budget as [|budget IH]; intros p grids used Hloop Hinv Hlen;
    cbn [ticketLoop] in Hloop.
  - simplify_eq. split; [by exists used|done].
  - case_decide as Hlt; [|simplify_eq; split; [by exists used|done]].
    destruct (generateUniqueGrid fuel rnd p used) as [[[g|] p1]| |] eqn:Hg;
      step_bind Hloop; [| |done|done].
    + apply generateUniqueGrid_spec in Hg as [Hvalid Havoid].
      eapply IH; [done|by apply ticketInv_push|]. rewrite length_app. simpl. lia.
    + by eapply IH.
Qed.

Lemma threeGrids_spec n retries fuel rnd p grids grids' p' :
  ServerJs.threeGrids n retries fuel rnd p grids = Returns (grids', p') →
  Forall validGrid grids → Forall validGrid grids' ∧ length grids' = length grids + n.
Proof.
  revert p grids. induction n as [|n IH]; intros p grids Ht Hall;
    cbn [ServerJs.threeGrids] in Ht.
  - simplify_eq. split; [done|lia].
  - destruct (ServerJs.generateGrid retries fuel rnd p) as [[g p1]| |] eqn:Hg;
      step_bind Ht; [|done|done].
    apply generateGrid_spec in Hg. apply IH in Ht as [? Hl].
    + split; [done|]. rewrite Hl, length_app. simpl. lia.
    + apply Forall_app. split; [done|]. by constructor.
Qed.

Lemma ticketNumbers_length (gs : list TicketGrid) :
  Forall validGrid gs → length (concat (map numbersOf gs)) = 15 * length gs.
Proof.
  induction 1 as [|g gs Hg _ IH]; [done|]. simpl. rewrite length_app, IH.
  destruct Hg as (_ & _ & -> & _). lia.
Qed.

(** C3: the ticket generator of [server.js] draws its three grids
    independently: with the random source [p => p] the number 18 lands in
    the first and in the third grid. *)
Lemma serverjs_ticket_repeats_numbers :
  ∃ t p', ServerJs.generateTicket 5 100 (λ p, p) 0 "t1" "ABCDEF" "p1" = Returns (t, p') ∧
          ¬ NoDup (ticketNumbers t).
Proof.
  eexists _, _. split; [vm_compute; reflexivity|].
  intros Hnd. apply (bool_decide_pack _) in Hnd. vm_compute in Hnd. done.
Qed.

Lemma ticketLoop_ticket budget fuel rnd p uuid room owner t p' :
  ('(grids, p') ← ticketLoop budget fuel rnd p [] ∅;
   Returns (mkTicket uuid grids owner room, p')) = Returns (t, p') →
  NoDup (ticketNumbers t) ∧ Forall validGrid (grids t) ∧ length (grids t) ≤ 3 ∧
  (length (grids t) = 3 → length (ticketNumbers t) = 45).
Proof.
  intros Hg.
  destruct (ticketLoop budget fuel rnd p [] ∅) as [[gs p1]| |] eqn:Hloop;
    step_bind Hg; [|discriminate Hg|discriminate Hg].
  injection Hg as <- _. unfold ticketNumbers. cbn [grids].
  apply ticketLoop_spec in Hloop as [(used & Hvalid & Hnd & _) Hlen];
    [|apply ticketInv_empty|cbn [length]; lia].
  split_and!; [done|done|done|].
  intros H3. rewrite ticketNumbers_length by done. lia.
Qed.

Lemma threeGrids_ticket n retries fuel rnd p newId room owner t p' :
  ('(grids, p') ← ServerJs.threeGrids n retries fuel rnd p [];
   Returns (mkTicket newId grids owner room, p')) = Returns (t, p') →
  length (grids t) = n ∧ Forall validGrid (grids t) ∧
  Forall (λ g, NoDup (numbersOf g)) (grids t).
Proof.
  intros Hg.
  destruct (ServerJs.threeGrids n retries fuel rnd p []) as [[gs p1]| |] eqn:Ht;
    step_bind Hg; [|discriminate Hg|discriminate Hg].
  injection Hg as <- _. cbn [grids].
  apply threeGrids_spec in Ht as [Hvalid Hlen]; [|constructor].
  split_and!; [done|done|].
  eapply Forall_impl; [done|]. apply validGrid_NoDup.
Qed.

(** The bodies of the two ticket generators. *)
Lemma generateTicket_eq fuel rnd p uuid room owner :
  generateTicket fuel rnd p uuid room owner =
  ('(grids, p') ← ticketLoop 50 fuel rnd p [] ∅;
   Returns (mkTicket uuid grids owner room, p')).
Proof. reflexivity. Qed.

Lemma serverjs_generateTicket_eq retries fuel rnd p newId room owner :
  ServerJs.generateTicket retries fuel rnd p newId room owner =
  ('(grids, p') ← ServerJs.threeGrids 3 retries fuel rnd p [];
   Returns (mkTicket newId grids owner room, p')).
Proof. reflexivity. Qed.

(** C3 (amended): a ticket of the number generator's [generateTicket] has
    at most three valid grids and no number occurs twice on it, so a full
    ticket holds 45 distinct numbers; a ticket of [server.js] has three
    valid grids, each without a repeated number. *)
Theorem ticket_numbers_distinct (t : LotoTicket) :
  ((∃ fuel rnd p uuid room owner p',
      generateTicket fuel rnd p uuid room owner = Returns (t, p')) →
   NoDup (ticketNumbers t) ∧ Forall validGrid (grids t) ∧ length (grids t) ≤ 3 ∧
   (length (grids t) = 3 → length (ticketNumbers t) = 45)) ∧
  ((∃ retries fuel rnd p newId room owner p',
      ServerJs.generateTicket retries fuel rnd p newId room owner = Returns (t, p')) →
   length (grids t) = 3 ∧ Forall validGrid (grids t) ∧
   Forall (λ g, NoDup (numbersOf g)) (grids t)).
Proof.
  split.
  - intros (fuel & rnd & p & uuid & room & owner & p' & Hg).
    rewrite generateTicket_eq in Hg. by eapply ticketLoop_ticket.
  - intros (retries & fuel & rnd & p & newId & room & owner & p' & Hg).
    rewrite serverjs_generateTicket_eq in Hg. by eapply threeGrids_ticket.
Qed.

(** ** Termination of the generators *)

Lemma sum_list_lower (l : list nat) : Forall (λ n, 3 ≤ n) l → 3 * length l ≤ sum_list l.
Proof. induction 1 as [|x l Hx _ IH]; simpl; lia. Qed.

Lemma open_column (colCounts : list nat) :
  countsOK colCounts → sum_list colCounts < 27 → ∃ c, c < 9 ∧ colCounts !!! c < 3.
Proof.
  intros [Hlen Hall] Hsum.
  destruct (decide (Exists (λ n, n < 3) colCounts)) as [Hex|Hno].
  - apply Exists_exists in Hex as (x & Hx & Hlt).
    apply list_elem_of_lookup in Hx as [c Hc]. exists c.
    apply lookup_lt_Some in Hc as Hc9. split; [lia|].
    by rewrite (list_lookup_total_correct _ _ _ Hc).
  - apply not_Exists_Forall in Hno; [|intros n; apply _].
    assert (Forall (λ n, 3 ≤ n) colCounts) as Hge.
    { eapply Forall_impl; [done|]. simpl. lia. }
    apply sum_list_lower in Hge. lia.
Qed.

Lemma fillColCounts_accept rnd colCounts remaining p :
  countsOK colCounts → colCounts !!! randomIndex rnd p 9 < 3 →
  ∃ colCounts',
    (∀ fuel, fillColCounts (S fuel) rnd p colCounts (S remaining)
             = fillColCounts fuel rnd (S p) colCounts' remaining) ∧
    countsOK colCounts' ∧ sum_list colCounts' = S (sum_list colCounts).
Proof.
  intros [Hlen Hall] Hlt. eexists. split_and!.
  - intros fuel. cbn [fillColCounts]. by rewrite decide_True by done.
  - split; [by rewrite length_insert|]. apply Forall_insert; [done|lia].
  - assert (randomIndex rnd p 9 < 9) as H9 by (apply Nat.mod_upper_bound; lia).
    destruct (lookup_lt_is_Some_2 colCounts (randomIndex rnd p 9)) as [x Hx]; [lia|].
    rewrite (list_lookup_total_correct _ _ _ Hx).
    pose proof (sum_list_insert colCounts _ x (S x) Hx). lia.
Qed.

Lemma fillColCounts_skip rnd colCounts remaining k :
  countsOK colCounts →
  ∀ p, colCounts !!! randomIndex rnd (p + k) 9 < 3 →
  ∃ j colCounts',
    (∀ fuel, fillColCounts (S j + fuel) rnd p colCounts (S remaining)
             = fillColCounts fuel rnd (p + S j) colCounts' remaining) ∧
    countsOK colCounts' ∧ sum_list colCounts' = S (sum_list colCounts).
Proof.
  intros Hok. induction k as [|k IH]; intros p Hlt.
  - rewrite Nat.add_0_r in Hlt.
    destruct (fillColCounts_accept rnd colCounts remaining p Hok Hlt) as (cc & Hrun & ? & ?).
    exists 0, cc. split_and!; [|done|done]. intros fuel. rewrite Nat.add_1_r. apply Hrun.
  - destruct (decide (colCounts !!! randomIndex rnd p 9 < 3)) as [Hnow|Hfull].
    + destruct (fillColCounts_accept rnd colCounts remaining p Hok Hnow) as (cc & Hrun & ? & ?).
      exists 0, cc. split_and!; [|done|done]. intros fuel. rewrite Nat.add_1_r. apply Hrun.
    + destruct (IH (S p)) as (j & cc & Hrun & ? & ?).
      { by replace (S p + k) with (p + S k) by lia. }
      exists (S j), cc. split_and!; [|done|done]. intros fuel.
      replace (p + S (S j)) with (S p + S j) by lia. rewrite <- Hrun.
      cbn [Nat.add fillColCounts]. by rewrite decide_False by done.
Qed.

Lemma fillColCounts_terminates rnd remaining :
  fair rnd → ∀ p colCounts,
  countsOK colCounts → sum_list colCounts + remaining ≤ 15 →
  ∃ n colCounts' p', ∀ fuel, n ≤ fuel →
    fillColCounts fuel rnd p colCounts remaining = Returns (colCounts', p').
Proof.
  intros Hfair. induction remaining as [|remaining IH]; intros p colCounts Hok Hsum.
  - exists 0, colCounts, p. intros fuel _. by destruct fuel.
  - destruct (open_column colCounts Hok) as (c & Hc & Hlt); [lia|].
    destruct (Hfair p c Hc) as [k Hk].
    destruct (fillColCounts_skip rnd colCounts remaining k Hok p) as (j & cc & Hrun & Hok' & Hs).
    { by rewrite Hk. }
    destruct (IH (p + S j) cc Hok') as (n & cc' & p' & Hret); [lia|].
    exists (S j + n), cc', p'. intros fuel Hfuel.
    replace fuel with (S j + (fuel - S j)) by lia. rewrite Hrun. apply Hret. lia.
Qed.

Lemma distributeRows_returns attempts rnd p colCounts exclude gn :
  countsOK colCounts →
  (∀ c, c < 9 → goodColumn colCounts exclude c (gn !!! c)) →
  ∃ r, distributeRows attempts rnd p colCounts gn = Returns r.
Proof.
  intros Hcounts Hgood. revert p.
  induction attempts as [|attempts IH]; intros p; cbn [distributeRows]; [by eexists|].
  destruct (assignRows rnd p colCounts (colsIndices colCounts) (replicate 9 []) [0; 0; 0])
    as [[[valid ra] rf] p1] eqn:Ha.
  destruct (valid && forallb (λ c, bool_decide (c = 5)) rf) eqn:Hok; [|apply IH].
  apply andb_true_iff in Hok as [-> Hfive].
  destruct (colsIndices_spec colCounts) as [Hnd Hlt].
  pose proof (assignRows_spec _ _ _ _ _ _ _ _ _ Hnd Hlt (assignInv_initial colCounts) Ha) as Hinv.
  assert (Forall (λ n, n = 5) rf) as Hfive'.
  { apply Forall_forall. intros n Hn. apply list_elem_of_In in Hn.
    rewrite List.forallb_forall in Hfive. specialize (Hfive n Hn).
    by apply bool_decide_eq_true in Hfive. }
  destruct (placed_grid colCounts exclude ra rf gn Hcounts Hinv Hfive' Hgood)
    as (rs & -> & _). by eexists.
Qed.

Lemma generateUniqueGrid_terminates rnd p exclude :
  fair rnd →
  ∃ n r, ∀ fuel, n ≤ fuel → generateUniqueGrid fuel rnd p exclude = Returns r.
Proof.
  intros Hfair.
  destruct (fillColCounts_terminates rnd 6 Hfair p (replicate 9 1) countsOK_initial)
    as (n & colCounts & p1 & Hfill); [simpl; lia|].
  assert (countsOK colCounts) as Hcounts.
  { specialize (Hfill n (le_n n)). by apply fillColCounts_spec in Hfill as [? _];
      [|apply countsOK_initial]. }
  destruct (uniqueNumbers rnd p1 exclude colCounts (seq 0 9) []) as [[gn|] p2] eqn:Hu.
  - pose proof Hu as Hu'. apply uniqueNumbers_spec in Hu' as (tail & Heq & Htail).
    change ([] ++ tail) with tail in Heq. subst tail.
    apply Forall2_seq_lookup in Htail as [_ Hgood].
    destruct (distributeRows_returns 100 rnd p2 colCounts exclude gn Hcounts Hgood) as [r Hr].
    exists n, r. intros fuel Hfuel. unfold generateUniqueGrid.
    rewrite (Hfill fuel Hfuel). unfold mbind, outcome_bind. cbv beta iota. by rewrite Hu.
  - exists n, (None, p2). intros fuel Hfuel. unfold generateUniqueGrid.
    rewrite (Hfill fuel Hfuel). unfold mbind, outcome_bind. cbv beta iota. by rewrite Hu.
Qed.

Lemma ticketLoop_terminates rnd budget :
  fair rnd → ∀ p grids used,
  ∃ n r, ∀ fuel, n ≤ fuel → ticketLoop budget fuel rnd p grids used = Returns r.
Proof.
  intros Hfair. induction budget as [|budget IH]; intros p grids used.
  - exists 0, (grids, p). done.
  - destruct (decide (length grids < 3)) as [Hlt|Hge].
    + destruct (generateUniqueGrid_terminates rnd p used Hfair) as (n1 & [[g|] p1] & Hg).
      * destruct (IH p1 (grids ++ [g]) (addUsed used g)) as (n2 & r & Hr).
        exists (n1 `max` n2), r. intros fuel Hfuel. cbn [ticketLoop].
        rewrite decide_True by done. rewrite Hg by lia.
        unfold mbind, outcome_bind. cbv beta iota. apply Hr. lia.
      * destruct (IH p1 grids used) as (n2 & r & Hr).
        exists (n1 `max` n2), r. intros fuel Hfuel. cbn [ticketLoop].
        rewrite decide_True by done. rewrite Hg by lia.
        unfold mbind, outcome_bind. cbv beta iota. apply Hr. lia.
    + exists 0, (grids, p). intros fuel _. cbn [ticketLoop]. by rewrite decide_False.
Qed.

Lemma uniqueNumbers_short rnd exclude colCounts c cs :
  c ∈ cs →
  length (availableIn exclude (colRanges !!! c).1 (colRanges !!! c).2) < colCounts !!! c →
  ∀ p gn0, ∃ p', uniqueNumbers rnd p exclude colCounts cs gn0 = (None, p').
Proof.
  intros Hc Hshort. induction cs as [|c0 cs IH]; intros p gn0.
  - by apply not_elem_of_nil in Hc.
  - cbn [uniqueNumbers]. destruct (colRanges !!! c0) as [min max] eqn:Hr. cbv zeta.
    case_decide as Hs; [by eexists|].
    apply elem_of_cons in Hc as [->|Hc]; [|by apply IH].
    rewrite Hr in Hshort. simpl in Hshort. lia.
Qed.

Lemma stubborn_fair : fair stubborn.
Proof.
  intros p c Hc. exists (515 - p `mod` 515 + c).
  assert ((p + (515 - p `mod` 515 + c)) `mod` 515 = c) as Hq.
  { pose proof (Nat.Div0.div_mod p 515) as Hp.
    pose proof (Nat.mod_upper_bound p 515) as Hup.
    symmetry. apply (Nat.mod_unique (p + (515 - p `mod` 515 + c)) 515 (S (p `div` 515)) c); lia. }
  unfold randomIndex, stubborn. rewrite Hq. cbv zeta.
  rewrite decide_True by done. apply Nat.mod_small. lia.
Qed.

Lemma accepted_cons (r : option TicketGrid) (rs : list (option TicketGrid)) :
  accepted (r :: rs) = accepted [r] ++ accepted rs.
Proof. by destruct r. Qed.

Lemma ticketLoop_S budget fuel rnd p grids used :
  ticketLoop (S budget) fuel rnd p grids used =
  if decide (length grids < 3) then
    '(grid, p') ← generateUniqueGrid fuel rnd p used;
    match grid with
    | Some g => ticketLoop budget fuel rnd p' (grids ++ [g]) (addUsed used g)
    | None => ticketLoop budget fuel rnd p' grids used
    end
  else Returns (grids, p).
Proof. reflexivity. Qed.

Lemma ticketLoop_calls budget fuel rnd p grids used grids' p' :
  ticketLoop budget fuel rnd p grids used = Returns (grids', p') →
  ∃ results,
    gridCalls fuel rnd p used results p' ∧
    grids' = grids ++ accepted results ∧
    length results ≤ budget ∧
    (∀ k, k < length results → length (grids ++ accepted (take k results)) < 3) ∧
    (length grids' < 3 → length results = budget).
Proof.
  revert p grids used. induction budget as [|budget IH]; intros p grids used Hloop.
  - injection Hloop as <- <-. exists []. rewrite app_nil_r.
    split_and!; [done|done|done| |done]. intros k Hk. simpl in Hk. lia.
  - rewrite ticketLoop_S in Hloop. case_decide as Hlen.
    + destruct (generateUniqueGrid fuel rnd p used) as [[r p1]| |] eqn:Hgrid;
        step_bind Hloop; [|discriminate Hloop|discriminate Hloop].
      assert (∃ results,
                gridCalls fuel rnd p1
                  (match r with Some g => addUsed used g | None => used end) results p' ∧
                grids' = (grids ++ accepted [r]) ++ accepted results ∧
                length results ≤ budget ∧
                (∀ k, k < length results →
                      length ((grids ++ accepted [r]) ++ accepted (take k results)) < 3) ∧
                (length grids' < 3 → length results = budget))
        as (results & Hcalls & -> & Hle & Hopen & Hshort).
      { destruct r as [g|]; apply IH in Hloop; [exact Hloop|].
        change (accepted [None]) with (@nil TicketGrid). rewrite app_nil_r. exact Hloop. }
      exists (r :: results). split_and!.
      * exists p1. done.
      * by rewrite (accepted_cons r results), app_assoc.
      * simpl. lia.
      * intros [|k] Hk.
        -- change (accepted (take 0 (r :: results))) with (@nil TicketGrid).
           by rewrite app_nil_r.
        -- simpl in Hk. specialize (Hopen k ltac:(lia)).
           change (take (S k) (r :: results)) with (r :: take k results).
           by rewrite (accepted_cons r (take k results)), app_assoc.
      * intros Hfew. simpl. f_equal. apply Hshort. done.
    + injection Hloop as <- <-. exists []. rewrite app_nil_r.
      split_and!; [done|done|simpl; lia| |lia]. intros k Hk. simpl in Hk. lia.
Qed.

(** The column-count loop under a source that always picks column 0. *)
Lemma fillColCounts_stuck fuel p colCounts remaining :
  0 < remaining → ¬ colCounts !!! 0 < 3 →
  fillColCounts fuel (λ _, 0) p colCounts remaining = Diverges.
Proof.
  intros Hrem Hfull. revert p. induction fuel as [|fuel IH]; intros p.
  - destruct remaining; [lia|done].
  - destruct remaining as [|remaining]; [lia|]. cbn [fillColCounts].
    unfold randomIndex. cbv zeta. change (0 `mod` 9) with 0.
    rewrite decide_False by done. apply IH.
Qed.

Lemma fillColCounts_constant fuel p :
  fillColCounts fuel (λ _, 0) p (replicate 9 1) 6 = Diverges.
Proof.
  destruct fuel as [|[|fuel]]; [done|done|].
  change (fillColCounts (S (S fuel)) (λ _, 0) p (replicate 9 1) 6)
    with (fillColCounts fuel (λ _, 0) (S (S p)) (3 :: replicate 8 1) 4).
  apply fillColCounts_stuck; [lia|]. simpl. lia.
Qed.

Lemma generateUniqueGrid_constant fuel p exclude :
  generateUniqueGrid fuel (λ _, 0) p exclude = Diverges.
Proof. unfold generateUniqueGrid. by rewrite fillColCounts_constant. Qed.

(** C9, the unbounded loop: under a random source that always yields 0
    the column-count loop of [generateUniqueGrid] draws column 0 for ever
    once its count is 3, so neither the grid generator nor
    [generateTicket] returns, whatever the fuel.  Such a source is not
    fair. *)
Theorem generateTicket_hangs_on_constant_source :
  (∀ fuel p exclude, generateUniqueGrid fuel (λ _, 0) p exclude = Diverges) ∧
  (∀ fuel p uuid room owner, generateTicket fuel (λ _, 0) p uuid room owner = Diverges) ∧
  ¬ fair (λ _, 0).
Proof.
  split_and!.
  - apply generateUniqueGrid_constant.
  - intros fuel p uuid room owner. rewrite generateTicket_eq, ticketLoop_S.
    rewrite decide_True by (simpl; lia). by rewrite generateUniqueGrid_constant.
  - intros Hfair. destruct (Hfair 0 1) as [k Hk]; [lia|]. done.
Qed.

(** C9, as the code has it: the retries of [generateTicket] are bounded.
    A call that returns has made at most 50 calls of the grid generator,
    each with the numbers of the grids returned so far as exclusion set,
    and none once three grids were returned; its ticket holds the grids
    returned, in order, so it has fewer than three grids only when all 50
    calls were made; the grids are valid and no number repeats.  For every
    fair random source the call returns once the fuel of the column-count
    loop suffices.  [generateUniqueGrid] returns null as soon as some
    column's band holds fewer free numbers than the column asks for.  Under
    the fair source [stubborn] all 50 calls fail and the ticket has no
    grid; under the source [p => 7 p + 3] it has three. *)
Theorem generateTicket_terminates :
  (∀ fuel rnd p uuid room owner t p',
     generateTicket fuel rnd p uuid room owner = Returns (t, p') →
     ticketId t = uuid ∧ ownerId t = owner ∧ roomId t = room ∧
     ∃ results,
       gridCalls fuel rnd p ∅ results p' ∧
       grids t = accepted results ∧
       length results ≤ 50 ∧
       (∀ k, k < length results → length (accepted (take k results)) < 3) ∧
       (length (grids t) < 3 → length results = 50) ∧
       length (grids t) ≤ 3 ∧ Forall validGrid (grids t) ∧ NoDup (ticketNumbers t)) ∧
  (∀ rnd, fair rnd → ∀ p uuid room owner,
     ∃ n t p',
       (∀ fuel, n ≤ fuel → generateTicket fuel rnd p uuid room owner = Returns (t, p')) ∧
       length (grids t) ≤ 3 ∧ NoDup (ticketNumbers t)) ∧
  (∀ fuel rnd p exclude colCounts p1 c,
     fillColCounts fuel rnd p (replicate 9 1) 6 = Returns (colCounts, p1) →
     c < 9 →
     length (availableIn exclude (colRanges !!! c).1 (colRanges !!! c).2) < colCounts !!! c →
     ∃ p2, generateUniqueGrid fuel rnd p exclude = Returns (None, p2)) ∧
  (fair stubborn ∧ gridCount (generateTicket 6 stubborn 0 "t1" "ABCDEF" "p1") = Some 0) ∧
  gridCount (generateTicket 100 (λ p, p * 7 + 3) 0 "t1" "ABCDEF" "p1") = Some 3.
Proof.
  split_and!.
  - intros fuel rnd p uuid room owner t p' Hgen.
    rewrite generateTicket_eq in Hgen.
    destruct (ticketLoop_ticket 50 fuel rnd p uuid room owner t p' Hgen)
      as (Hnd & Hvalid & Hlen & _).
    destruct (ticketLoop 50 fuel rnd p [] ∅) as [[gs p1]| |] eqn:Hloop;
      step_bind Hgen; [|discriminate Hgen|discriminate Hgen].
    injection Hgen as <- <-. cbn [grids ticketId ownerId roomId] in *.
    split_and!; [done|done|done|].
    destruct (ticketLoop_calls _ _ _ _ _ _ _ _ Hloop)
      as (results & Hcalls & Hgrids & Hle & Hopen & Hshort).
    exists results. split_and!; done.
  - intros rnd Hfair p uuid room owner.
    destruct (ticketLoop_terminates rnd 50 Hfair p [] ∅) as (n & [gs p'] & Hloop).
    exists n, (mkTicket uuid gs owner room), p'.
    assert (∀ fuel, n ≤ fuel →
              generateTicket fuel rnd p uuid room owner
              = Returns (mkTicket uuid gs owner room, p')) as Hret.
    { intros fuel Hfuel. rewrite generateTicket_eq, (Hloop fuel Hfuel). done. }
    split; [done|].
    destruct (ticketLoop_ticket 50 n rnd p uuid room owner (mkTicket uuid gs owner room) p')
      as (Hnd & _ & Hlen & _); [|done].
    by rewrite (Hloop n).
  - intros fuel rnd p exclude colCounts p1 c Hfill Hc Hshort.
    destruct (uniqueNumbers_short rnd exclude colCounts c (seq 0 9)) with (p := p1) (gn0 := @nil (list nat))
      as [p2 Hu]; [apply elem_of_seq; lia|done|].
    exists p2. unfold generateUniqueGrid. rewrite Hfill.
    unfold mbind, outcome_bind. cbv beta iota. by rewrite Hu.
  - apply stubborn_fair.
  - vm_compute. reflexivity.
  - vm_compute. reflexivity.
Qed.

(** ** Joining a room *)


(** ** Creating tickets *)

Lemma generateTicket_owner fuel rnd p uuid c owner t p' :
  generateTicket fuel rnd p uuid c owner = Returns (t, p') →
  ticketId t = uuid ∧ ownerId t = owner ∧ roomId t = c.
Proof.
  rewrite generateTicket_eq.
  destruct (ticketLoop 50 fuel rnd p [] ∅) as [[gs p1]| |];
    unfold mbind, outcome_bind; cbv beta iota; [|discriminate|discriminate].
  by intros [= <- _].
Qed.

Lemma makeTickets_S n i fuel rnd p uuid c owner :
  Services.makeTickets (S n) i fuel rnd p uuid c owner =
    ('(ticket, p') ← generateTicket fuel rnd p (uuid i) c owner;
     '(rest, p'') ← Services.makeTickets n (S i) fuel rnd p' uuid c owner;
     Returns (ticket :: rest, p'')).
Proof. reflexivity. Qed.

Lemma makeTickets_spec n i fuel rnd p uuid c owner ts p' :
  Services.makeTickets n i fuel rnd p uuid c owner = Returns (ts, p') →
  length ts = n ∧ Forall (λ t, roomId t = c ∧ ownerId t = owner) ts.
Proof.
  revert i p ts p'. induction n as [|n IH]; intros i p ts p' Hm.
  - injection Hm as <- _. done.
  - rewrite makeTickets_S in Hm. destruct (generateTicket fuel rnd p (uuid i) c owner) as [[t p1]| |] eqn:Ht;
      step_bind Hm; [|discriminate Hm|discriminate Hm].
    destruct (Services.makeTickets n (S i) fuel rnd p1 uuid c owner) as [[rest p2]| |] eqn:Hr;
      step_bind Hm; [|discriminate Hm|discriminate Hm].
    injection Hm as <- <-. apply IH in Hr as [<- Hall].
    apply generateTicket_owner in Ht as (_ & ? & ?). split; [done|]. by constructor.
Qed.

(** The documents [createTickets] builds fail the validation of
    [insertMany]: none of them has a [roomCode]. *)
Lemma insertMany_rejects (ticketData : list LotoTicket) (db : Services.Db) :
  ticketData ≠ [] → Services.insertMany (map Services.newTicket ticketData) db = Throws.
Proof.
  destruct ticketData as [|t ts]; [done|]. intros _. unfold Services.insertMany.
  assert (Services.validated (Services.newTicket t) = None) as Hinvalid.
  { unfold Services.validated, Services.newTicket, Services.required. simpl.
    by destruct (truthy (ticketId t)). }
  simpl. by rewrite Hinvalid.
Qed.

(** [TicketService.createTickets] computes [min(count, cap - owned)],
    clamped at 0, and returns only when that is 0: the answer is then
    empty and the store as it was. *)
Lemma createTickets_stores_nothing fuel rnd p uuid c owner count cap db new db' p' :
  Services.createTickets fuel rnd p uuid c owner count cap db = Returns (new, db', p') →
  new = [] ∧ db' = db ∧ p' = p ∧
  (Z.min count (Z.max 0 (cap - Z.of_nat (Services.countTickets (toUpperCase c) owner db)))
   ≤ 0)%Z.
Proof.
  intros Hc. unfold Services.createTickets in Hc. cbv zeta in Hc.
  case_decide as Hpos; [by injection Hc as <- <- <-|].
  destruct (Services.makeTickets _ 0 fuel rnd p uuid (toUpperCase c) owner)
    as [[ts p1]| |] eqn:Hm; step_bind Hc; [|discriminate Hc|discriminate Hc].
  apply makeTickets_spec in Hm as [Hlen _].
  rewrite insertMany_rejects in Hc; [discriminate Hc|].
  intros ->. simpl in Hlen. lia.
Qed.

Lemma generateTicket_returns rnd p uuid c owner :
  fair rnd →
  ∃ n r, ∀ fuel, n ≤ fuel → generateTicket fuel rnd p uuid c owner = Returns r.
Proof.
  intros Hfair.
  destruct (ticketLoop_terminates rnd 50 Hfair p [] ∅) as (n & [gs p'] & Hloop).
  exists n, (mkTicket uuid gs owner c, p'). intros fuel Hfuel.
  by rewrite generateTicket_eq, (Hloop fuel Hfuel).
Qed.

Lemma makeTickets_returns rnd uuid c owner n :
  fair rnd → ∀ i p,
  ∃ m r, ∀ fuel, m ≤ fuel → Services.makeTickets n i fuel rnd p uuid c owner = Returns r.
Proof.
  intros Hfair. induction n as [|n IH]; intros i p.
  - by exists 0, ([], p).
  - destruct (generateTicket_returns rnd p (uuid i) c owner Hfair) as (m1 & [t p1] & Ht).
    destruct (IH (S i) p1) as (m2 & [rest p2] & Hr).
    exists (m1 `max` m2), (t :: rest, p2). intros fuel Hfuel.
    rewrite makeTickets_S, Ht by lia.
    unfold mbind, outcome_bind. cbv beta iota. by rewrite Hr by lia.
Qed.

(** When [min(count, cap - owned)] is positive, [createTickets] generates
    the tickets and then throws the [ValidationError] of [insertMany]:
    under a fair random source the call throws. *)
Lemma createTickets_throws rnd p uuid c owner count cap db :
  fair rnd →
  (0 < Z.min count (Z.max 0 (cap - Z.of_nat (Services.countTickets (toUpperCase c) owner db))))%Z →
  ∃ m, ∀ fuel, m ≤ fuel →
    Services.createTickets fuel rnd p uuid c owner count cap db = Throws.
Proof.
  intros Hfair Hpos. unfold Services.createTickets. cbv zeta.
  case_decide; [lia|].
  destruct (makeTickets_returns rnd uuid (toUpperCase c) owner
              (Z.to_nat (Z.min count
                 (Z.max 0 (cap - Z.of_nat (Services.countTickets (toUpperCase c) owner db)))))
              Hfair 0 p) as (m & [ts p1] & Hm).
  exists m. intros fuel Hfuel. rewrite Hm by done.
  unfold mbind at 1, outcome_bind at 1. cbv beta iota.
  rewrite insertMany_rejects; [done|].
  specialize (Hm m (Nat.le_refl m)). apply makeTickets_spec in Hm as [Hlen _].
  intros ->. simpl in Hlen. lia.
Qed.

Lemma serverjs_makeTickets_S n i retries fuel rnd p ids c owner store :
  ServerJs.makeTickets (S n) i retries fuel rnd p ids c owner store =
    ('(ticket, p') ← ServerJs.generateTicket retries fuel rnd p (ids i) c owner;
     '(rest, store', p'') ←
       ServerJs.makeTickets n (S i) retries fuel rnd p' ids c owner
                            (<[ticketId ticket := ticket]> store);
     Returns (ticket :: rest, store', p'')).
Proof. reflexivity. Qed.

Lemma serverjs_makeTickets_length n i retries fuel rnd p ids c owner store ts store' p' :
  ServerJs.makeTickets n i retries fuel rnd p ids c owner store = Returns (ts, store', p') →
  length ts = n.
Proof.
  revert i p store ts store' p'.
  induction n as [|n IH]; intros i p store ts store' p' Hm.
  - injection Hm as <- _ _. done.
  - rewrite serverjs_makeTickets_S in Hm. destruct (ServerJs.generateTicket retries fuel rnd p (ids i) c owner)
      as [[t p1]| |]; step_bind Hm; [|discriminate Hm|discriminate Hm].
    destruct (ServerJs.makeTickets n (S i) retries fuel rnd p1 ids c owner _)
      as [[[rest s1] p2]| |] eqn:Hr; step_bind Hm; [|discriminate Hm|discriminate Hm].
    injection Hm as <- <- <-. apply IH in Hr. simpl. by rewrite Hr.
Qed.

(** The [player:create-tickets] handler of [server.js] clamps each request
    to the cap, whatever the player already owns. *)
Lemma serverjs_create_tickets_per_request retries fuel rnd p ids socket count st new st' p' :
  ServerJs.onCreateTickets retries fuel rnd p ids socket count st = Returns (inr new, st', p') →
  ∃ pd room,
    ServerJs.playerMap st !! socket = Some pd ∧
    ServerJs.rooms st !! ServerJs.roomCode pd = Some room ∧
    length new = Z.to_nat (Z.min count (ServerJs.ticketsPerPlayer (ServerJs.settings room))).
Proof.
  unfold ServerJs.onCreateTickets. intros Hc.
  destruct (ServerJs.playerMap st !! socket) as [pd|] eqn:Hpd; [|discriminate Hc].
  destruct (ServerJs.rooms st !! ServerJs.roomCode pd) as [room|] eqn:Hroom;
    [|discriminate Hc].
  cbv zeta in Hc.
  destruct (ServerJs.makeTickets _ 0 retries fuel rnd p ids _ _ _) as [[[ts s1] p1]| |] eqn:Hm;
    step_bind Hc; [|discriminate Hc|discriminate Hc].
  injection Hc as <- _ _. exists pd, room. split_and!; [done|done|].
  by apply serverjs_makeTickets_length in Hm.
Qed.

(** C7: the [player:create-tickets] handler of [server.js] does not count
    the tickets a player already owns.  In a room with the default cap of
    5, a player who asked for 5 tickets and asks for 5 more receives 5 new
    tickets and then owns 10, where [min(count, cap - owned)] is 0. *)
Theorem serverjs_create_tickets_exceeds_cap :
  askTwice = Returns (5, [5], [10], 10).
Proof. vm_compute. reflexivity. Qed.

(** ** Marking a cell *)

Lemma alter_involutive {A} (f : A → A) (l : list A) (i : nat) :
  (∀ x, l !! i = Some x → f (f x) = x) → alter f i (alter f i l) = l.
Proof.
  intros Hf. apply list_eq. intros j. destruct (decide (j = i)) as [->|Hne].
  - rewrite !list_lookup_alter_eq. destruct (l !! i) as [x|] eqn:E; [|done].
    simpl. f_equal. by apply Hf.
  - by rewrite !list_lookup_alter_ne.
Qed.

Lemma jsWrite_inside (arr : list bool) (i : nat) (v : bool) :
  i < length arr → jsWrite arr i v = <[i := v]> arr.
Proof. intros Hi. unfold jsWrite. by rewrite decide_True. Qed.

Lemma toggleMarked_twice (row : TicketRow) (col : nat) :
  col < length (marked row) → toggleMarked (toggleMarked row col) col = row.
Proof.
  intros Hcol. destruct row as [cs ms]. unfold toggleMarked. cbn [cells marked] in *.
  destruct (lookup_lt_is_Some_2 ms col Hcol) as [b Hb].
  rewrite (jsWrite_inside ms) by done.
  rewrite jsWrite_inside by by rewrite length_insert.
  unfold jsNot. rewrite list_lookup_insert_eq by done. rewrite Hb.
  rewrite list_insert_insert_eq, negb_involutive.
  by rewrite list_insert_id.
Qed.

Lemma toggleCell_twice (ticket : LotoTicket) (g r col : nat) grid row :
  grids ticket !! g = Some grid → rows grid !! r = Some row →
  col < length (marked row) →
  toggleCell (toggleCell ticket g r col) g r col = ticket.
Proof.
  intros Hg Hr Hcol. destruct ticket as [tid gs owner room]. unfold toggleCell. simpl in *.
  f_equal. apply alter_involutive. intros grid' Hg'. simplify_eq. destruct grid as [rs].
  simpl in *. f_equal. apply alter_involutive. intros row' Hr'. simplify_eq.
  by apply toggleMarked_twice.
Qed.

Lemma toggleCell_id (ticket : LotoTicket) (g r col : nat) :
  ticketId (toggleCell ticket g r col) = ticketId ticket.
Proof. done. Qed.

(** The mark of the addressed cell flips and nothing else changes. *)
Lemma toggleCell_marked (ticket : LotoTicket) (g r col : nat) grid row b :
  grids ticket !! g = Some grid → rows grid !! r = Some row → marked row !! col = Some b →
  grids (toggleCell ticket g r col)
  = <[g := mkGrid (<[r := mkRow (cells row) (<[col := negb b]> (marked row))]> (rows grid))]>
      (grids ticket).
Proof.
  intros Hg Hr Hb. unfold toggleCell. simpl.
  apply list_eq. intros j. destruct (decide (j = g)) as [->|Hne].
  - rewrite list_lookup_alter_eq, Hg. apply lookup_lt_Some in Hg as Hlt.
    rewrite list_lookup_insert_eq by done. simpl. do 2 f_equal.
    apply list_eq. intros k. destruct (decide (k = r)) as [->|Hne].
    + rewrite list_lookup_alter_eq, Hr. apply lookup_lt_Some in Hr as Hlt'.
      rewrite list_lookup_insert_eq by done. simpl. do 2 f_equal.
      apply lookup_lt_Some in Hb as Hlt''. unfold toggleMarked.
      rewrite jsWrite_inside by done.
      unfold jsNot. by rewrite Hb.
    + rewrite list_lookup_alter_ne by done. by rewrite list_lookup_insert_ne.
  - rewrite list_lookup_alter_ne by done. by rewrite list_lookup_insert_ne.
Qed.

Lemma list_find_insert_same {A} (P : A → Prop) `{!∀ x, Decision (P x)} (l : list A) i x y :
  list_find P l = Some (i, x) → P y → list_find P (<[i := y]> l) = Some (i, y).
Proof.
  intros Hf Hy. apply list_find_Some in Hf as (Hi & Hx & Hbefore).
  apply list_find_Some. split_and!; [|done|].
  - apply list_lookup_insert_eq. by eapply lookup_lt_Some.
  - intros j z Hj Hlt. rewrite list_lookup_insert_ne in Hj by lia. by eapply Hbefore.
Qed.

Section MarkNumber.
Import Services.
Variables (tid : string) (g r col : nat) (db : Db).
Variables (i : nat) (ticket : LotoTicket) (grid : TicketGrid) (row : TicketRow).
Hypothesis Hfind : list_find (λ t, ticketId t = tid) (ticketDocs db) = Some (i, ticket).
Hypothesis Hgrid : grids ticket !! g = Some grid.
Hypothesis Hrow : rows grid !! r = Some row.

(** A call on an empty cell leaves the store as it was. *)
Lemma markNumber_empty_cell conflict :
  cells row !! col = Some None → markNumber conflict tid g r col db = Returns db.
Proof using Hfind Hgrid Hrow.
  intros Hcell. unfold markNumber. cbn [markLoop]. rewrite Hfind.
  unfold markedTicket. rewrite Hgrid. simpl. rewrite Hrow. unfold notNull. by rewrite Hcell.
Qed.

(** A call on a cell holding a number saves the ticket with that mark
    flipped. *)
Lemma markNumber_number_cell n :
  cells row !! col = Some (Some n) →
  markNumber (λ _, false) tid g r col db
  = Returns (withTickets db (<[i := toggleCell ticket g r col]> (ticketDocs db))).
Proof using Hfind Hgrid Hrow.
  intros Hcell. unfold markNumber. cbn [markLoop]. rewrite Hfind.
  unfold markedTicket. rewrite Hgrid. simpl. rewrite Hrow. unfold notNull. by rewrite Hcell.
Qed.

(** Marking the same cell twice restores the store. *)
Lemma markNumber_twice n :
  cells row !! col = Some (Some n) → col < length (marked row) →
  markNumber (λ _, false) tid g r col db ≫= markNumber (λ _, false) tid g r col
  = Returns db.
Proof using Hfind Hgrid Hrow.
  intros Hcell Hcol. rewrite (markNumber_number_cell n Hcell).
  unfold mbind, outcome_bind.
  assert (list_find (λ t, ticketId t = tid)
            (ticketDocs (withTickets db (<[i := toggleCell ticket g r col]> (ticketDocs db))))
          = Some (i, toggleCell ticket g r col)) as Hfind'.
  { simpl. eapply list_find_insert_same; [done|].
    apply list_find_Some in Hfind as (_ & ? & _). done. }
  unfold markNumber. cbn [markLoop]. rewrite Hfind'.
  assert (markedTicket (toggleCell ticket g r col) g r col = Some ticket) as ->.
  { unfold markedTicket. unfold toggleCell at 1. cbn [grids].
    rewrite list_lookup_alter_eq, Hgrid. simpl. rewrite list_lookup_alter_eq, Hrow. simpl.
    unfold notNull. rewrite Hcell. f_equal. by eapply toggleCell_twice. }
  simpl. unfold withTickets. simpl. rewrite list_insert_insert_eq.
  apply list_find_Some in Hfind as (Hi & _). rewrite list_insert_id by done.
  by destruct db.
Qed.

End MarkNumber.

Section ServerJsMark.
Import ServerJs.
Variables (tid : string) (grid row col : Z) (st : State) (ticket : LotoTicket).
Hypothesis Hticket : ticketMap st !! tid = Some ticket.
Hypothesis Hwide : nineWide ticket.

(** The handler of [server.js] changes the store only when the addressed
    cell exists and holds a number, and then toggles that cell. *)
Lemma serverjs_markNumber_effect :
  onMarkNumber tid grid row col st = st ∨
  ∃ g r n, (0 ≤ grid)%Z ∧ (0 ≤ row)%Z ∧ (0 ≤ col < 9)%Z ∧
    grids ticket !! Z.to_nat grid = Some g ∧ rows g !! Z.to_nat row = Some r ∧
    cells r !! Z.to_nat col = Some (Some n) ∧
    onMarkNumber tid grid row col st
    = mkState (rooms st) (playerMap st)
        (<[tid := toggleCell ticket (Z.to_nat grid) (Z.to_nat row) (Z.to_nat col)]>
           (ticketMap st)).
Proof using Hticket Hwide.
  unfold onMarkNumber. rewrite Hticket. case_decide as Hguard; [|by left].
  destruct (grids ticket !! Z.to_nat grid) as [g|] eqn:Hg; [|by left]. simpl.
  destruct (rows g !! Z.to_nat row) as [r|] eqn:Hr; [|by left].
  unfold notNull. destruct (cells r !! Z.to_nat col) as [[n|]|] eqn:Hc.
  - right. exists g, r, n. split_and!; try done; lia.
  - by left.
  - exfalso. apply lookup_ge_None in Hc.
    unfold nineWide in Hwide. rewrite Forall_lookup in Hwide.
    specialize (Hwide _ _ Hg). rewrite Forall_lookup in Hwide.
    destruct (Hwide _ _ Hr) as [Hcells _]. lia.
Qed.

(** Two calls in a row restore the store. *)
Lemma serverjs_markNumber_twice :
  onMarkNumber tid grid row col (onMarkNumber tid grid row col st) = st.
Proof using Hticket Hwide.
  destruct serverjs_markNumber_effect
    as [Hsame|(g & r & n & Hgrid & Hrow & Hcol9 & Hg & Hr & Hc & Hst)].
  { by rewrite !Hsame. }
  rewrite Hst. unfold onMarkNumber at 1. cbn [ticketMap rooms playerMap].
  rewrite lookup_insert_eq.
  assert (Z.to_nat col < length (marked r)) as Hcol.
  { unfold nineWide in Hwide. rewrite Forall_lookup in Hwide.
    specialize (Hwide _ _ Hg). rewrite Forall_lookup in Hwide.
    destruct (Hwide _ _ Hr) as [Hcells Hmarks]. lia. }
  apply lookup_lt_Some in Hg as Hglt. apply lookup_lt_Some in Hr as Hrlt.
  assert (length (rows g) ≤ 3 → (row < 3)%Z) as Hrow3 by lia.
  rewrite decide_True.
  2:{ unfold toggleCell. cbn [grids]. rewrite length_alter.
      revert Hst. unfold onMarkNumber. rewrite Hticket. case_decide as Hguard; [intros _; lia|].
      intros Hst. exfalso. apply Hguard. split_and!; try lia.
      (* the first call changed the store, so its guard held *)
      apply (f_equal (λ s, ticketMap s !! tid)) in Hst. cbn [ticketMap] in Hst.
      rewrite lookup_insert_eq, Hticket in Hst. injection Hst as Hst.
      destruct (lookup_lt_is_Some_2 _ _ Hcol) as [b Hb].
      apply (f_equal (λ t, grids t !! Z.to_nat grid ≫= λ x, rows x !! Z.to_nat row
                              ≫= λ y, marked y !! Z.to_nat col)) in Hst.
      rewrite (toggleCell_marked ticket _ _ _ g r b Hg Hr Hb) in Hst.
      rewrite Hg in Hst. rewrite list_lookup_insert_eq in Hst by done.
      cbn [mbind option_bind rows] in Hst. rewrite Hr in Hst.
      rewrite list_lookup_insert_eq in Hst by done.
      cbn [mbind option_bind marked] in Hst. rewrite Hb in Hst.
      rewrite list_lookup_insert_eq in Hst by done. injection Hst as Hst.
      by destruct b. }
  unfold toggleCell at 1. cbn [grids]. rewrite list_lookup_alter_eq, Hg. simpl.
  rewrite list_lookup_alter_eq, Hr. simpl. unfold notNull. rewrite Hc.
  rewrite insert_insert_eq. rewrite (toggleCell_twice ticket _ _ _ g r Hg Hr Hcol).
  rewrite insert_id by done. by destruct st.
Qed.

End ServerJsMark.

(** C6: [TicketService.markNumber] checks [grids[grid]] and [rows[row]] but
    not [col].  At column 9, one past the last cell, [cells[9]] is
    [undefined], which is not [null], so the call writes [marked[9]]: a
    tenth mark appears although no cell holds a number there, and a second
    call leaves ten marks behind instead of the original nine.  Inside the
    row the same two calls restore the store. *)
Theorem markNumber_past_last_column :
  cellAt (rows exampleGrid) 0 9 = None ∧
  marksOf (Returns ticketStore) = Some (replicate 9 false) ∧
  marksOf (Services.markNumber (λ _, false) "t1" 0 0 9 ticketStore)
  = Some (replicate 9 false ++ [true]) ∧
  marksOf (markTwice 9) = Some (replicate 10 false) ∧
  markTwice 9 ≠ Returns ticketStore ∧
  markTwice 0 = Returns ticketStore.
Proof.
  split_and!; try reflexivity.
  intros Heq. apply (f_equal marksOf) in Heq. vm_compute in Heq. discriminate Heq.
Qed.

(** ** Winning rows and the end of a session *)



Lemma filter_drops_all {A} (P : A → Prop) `{!∀ x, Decision (P x)} (l : list A) :
  (∀ x, x ∈ l → ¬ P x) → filter P l = [].
Proof.
  induction l as [|x l IH]; [done|]. intros Hall.
  rewrite filter_cons, decide_False by (apply Hall; left).
  apply IH. intros y Hy. apply Hall. by right.
Qed.

Lemma filter_nil_Forall {A} (P : A → Prop) `{!∀ x, Decision (P x)} (l : list A) :
  Forall (λ x, ¬ P x) l → filter P l = [].
Proof. intros Hall. apply filter_drops_all. by rewrite Forall_forall in Hall. Qed.

Lemma findActiveSession_None c (l : list Services.SessionDoc) :
  (∀ j s, l !! j = Some s → Services.sessionRoom s = c → Services.endedAt s ≠ None) →
  Services.findActiveSession c l = None.
Proof.
  intros Hclosed. unfold Services.findActiveSession.
  rewrite filter_nil_Forall; [done|].
  apply Forall_lookup. intros k [j s] Hk. rewrite list_lookup_imap in Hk.
  destruct (l !! k) as [s'|] eqn:Hs; [|done]. injection Hk as <- <-. cbn.
  intros [Hroom Hopen]. by apply (Hclosed k s').
Qed.

Section AutoWinner.
Import Services.
Variables (now : nat) (c : string) (called : list nat) (db : Db).




End AutoWinner.












(** ** The theorems at the example data *)

Lemma generated_grid_valid_witness : validGrid exampleGrid.
Proof.
  apply generated_grid_valid. left.
  exists 100, (λ p, p * 7 + 3), 0, ∅, 24. vm_compute. reflexivity.
Defined.

Lemma ticket_numbers_distinct_witness :
  NoDup (ticketNumbers exampleTicket) ∧ length (ticketNumbers exampleTicket) = 45.
Proof.
  destruct (proj1 (ticket_numbers_distinct exampleTicket)) as (Hnd & _ & _ & Hlen).
  - exists 100, (λ p, p * 7 + 3), 0, "t1"%string, "ABCDEF"%string, "p1"%string, 72.
    vm_compute. reflexivity.
  - split; [exact Hnd|]. apply Hlen. reflexivity.
Defined.

Lemma callRow_judges_claimed_row_witness :
  ∃ res, validateTicket exampleTicket [1; 12; 22; 42; 62] (Some 0%Z) (Some 0%Z) = Returns res ∧
         judgesRow res exampleRow [1; 12; 22; 42; 62].
Proof.
  apply (proj1 (callRow_judges_claimed_row exampleTicket [1; 12; 22; 42; 62] 0 0
                  exampleGrid exampleRow eq_refl eq_refl ltac:(lia) eq_refl)).
Defined.


Lemma generateTicket_terminates_witness :
  ∃ n t p',
    (∀ fuel, n ≤ fuel → generateTicket fuel stubborn 0 "t1" "ABCDEF" "p1" = Returns (t, p')) ∧
    length (grids t) ≤ 3 ∧ NoDup (ticketNumbers t).
Proof.
  exact (proj1 (proj2 generateTicket_terminates) stubborn stubborn_fair 0
           "t1" "ABCDEF" "p1")%string.
Defined.

(* ================================================================== *)
(** * Further properties of the code *)

(** ** Scanning a ticket for a winning row *)

Lemma filter_keeps_all {A} (P : A → Prop) `{!∀ x, Decision (P x)} (l : list A) :
  (∀ x, x ∈ l → P x) → filter P l = l.
Proof.
  induction l as [|x l IH]; [done|]. intros Hall.
  rewrite filter_cons, decide_True by (apply Hall; left).
  f_equal. apply IH. intros y Hy. apply Hall. by right.
Qed.

Lemma validateNumbers_wins (row : TicketRow) (called : list nat) :
  isWinner (validateNumbers (rowNumbers row) called) = true ↔ rowComplete row called.
Proof.
  unfold validateNumbers, rowComplete. cbn [isWinner].
  rewrite andb_true_iff, !bool_decide_eq_true. split.
  - intros [Hm Hl]. split; [done|]. apply filter_all_iff. by rewrite Hl.
  - intros [Hl Hall]. split; [|done]. rewrite <- Hl. by apply filter_all_iff.
Qed.

Lemma validateNumbers_winner_lists (row : TicketRow) (called : list nat) :
  rowComplete row called →
  matchedNumbers (validateNumbers (rowNumbers row) called) = rowNumbers row ∧
  missingNumbers (validateNumbers (rowNumbers row) called) = [].
Proof.
  intros [Hl Hall]. unfold validateNumbers. cbn [matchedNumbers missingNumbers]. split.
  - by apply filter_keeps_all.
  - apply filter_drops_all. intros n Hn Hnot. by apply Hnot, Hall.
Qed.

Lemma scanRows_spec (rs : list TicketRow) (called : list nat) :
  let res := scanRows rs called in
  isValid res = true ∧
  (isWinner res = true ↔ ∃ row, row ∈ rs ∧ rowComplete row called) ∧
  (isWinner res = true →
     ∃ i row, rs !! i = Some row ∧ rowComplete row called ∧
              (∀ j row', j < i → rs !! j = Some row' → ¬ rowComplete row' called) ∧
              matchedNumbers res = rowNumbers row ∧ missingNumbers res = []) ∧
  (isWinner res = false → matchedNumbers res = [] ∧ missingNumbers res = []).
Proof.
  unfold scanRows. cbv zeta.
  destruct (list_find _ _) as [[i res]|] eqn:Hfind.
  - apply list_find_Some in Hfind as (Hi & Hwin & Hbefore).
    rewrite list_lookup_fmap in Hi.
    destruct (rs !! i) as [row|] eqn:Hrow; [|done]. injection Hi as <-.
    assert (rowComplete row called) as Hc by by apply validateNumbers_wins.
    assert (∀ j row', j < i → rs !! j = Some row' → ¬ rowComplete row' called) as Hfirst.
    { intros j row' Hj Hrow' Hc'. apply (Hbefore j (validateNumbers (rowNumbers row') called)).
      - by rewrite list_lookup_fmap, Hrow'.
      - done.
      - by apply validateNumbers_wins. }
    split_and!.
    + done.
    + split; [|done]. intros _. exists row. split; [|done].
      apply list_elem_of_lookup. by exists i.
    + intros _. exists i, row. destruct (validateNumbers_winner_lists row called Hc).
      split_and!; done.
    + intros Hno. by rewrite Hno in Hwin.
  - cbn [isValid isWinner matchedNumbers missingNumbers]. split_and!; try done.
    split; [done|]. intros (row & Hin & Hc). exfalso.
    apply list_elem_of_lookup in Hin as [i Hi].
    eapply list_find_None in Hfind. rewrite Forall_lookup in Hfind.
    apply (Hfind i (validateNumbers (rowNumbers row) called)).
    + by rewrite list_lookup_fmap, Hi.
    + by apply validateNumbers_wins.
Qed.

(** X1: [validateTicket] without a claim, or with claimed indices outside the
    ticket, scans every row of every grid in order: the answer is the
    first row that holds five numbers which are all called, reported with
    all its numbers as matched, and otherwise a non-winning answer with
    both lists empty.  [validateTicket] of [server.js] gives the same
    answer. *)
Theorem validateTicket_scans_every_row (ticket : LotoTicket) (called : list nat)
    (cg cr : option Z) :
  (∀ g r, cg = Some g → cr = Some r →
     ¬ ((0 ≤ g)%Z ∧ (g < Z.of_nat (length (grids ticket)))%Z ∧ (0 ≤ r)%Z ∧ (r < 3)%Z)) →
  ∃ res,
    validateTicket ticket called cg cr = Returns res ∧
    ServerJs.validateTicket (Some ticket) called = res ∧
    isValid res = true ∧
    (isWinner res = true ↔ ∃ row, row ∈ allRows ticket ∧ rowComplete row called) ∧
    (isWinner res = true →
       ∃ i row, allRows ticket !! i = Some row ∧ rowComplete row called ∧
                (∀ j row', j < i → allRows ticket !! j = Some row' →
                           ¬ rowComplete row' called) ∧
                matchedNumbers res = rowNumbers row ∧ missingNumbers res = []) ∧
    (isWinner res = false → matchedNumbers res = [] ∧ missingNumbers res = []).
Proof.
  intros Hout. exists (scanRows (allRows ticket) called). split; [|split].
  - unfold validateTicket. cbv zeta. destruct cg as [g|], cr as [r|]; try done.
    rewrite decide_False; [done|]. by apply Hout.
  - done.
  - apply scanRows_spec.
Qed.

Lemma validateTicket_scans_every_row_witness :
  ∃ res,
    validateTicket exampleTicket [5; 15; 21; 54; 70] (Some 7%Z) (Some 0%Z) = Returns res ∧
    ServerJs.validateTicket (Some exampleTicket) [5; 15; 21; 54; 70] = res ∧
    isValid res = true ∧
    (isWinner res = true ↔
       ∃ row, row ∈ allRows exampleTicket ∧ rowComplete row [5; 15; 21; 54; 70]) ∧
    (isWinner res = true →
       ∃ i row, allRows exampleTicket !! i = Some row ∧
                rowComplete row [5; 15; 21; 54; 70] ∧
                (∀ j row', j < i → allRows exampleTicket !! j = Some row' →
                           ¬ rowComplete row' [5; 15; 21; 54; 70]) ∧
                matchedNumbers res = rowNumbers row ∧ missingNumbers res = []) ∧
    (isWinner res = false → matchedNumbers res = [] ∧ missingNumbers res = []).
Proof.
  apply (validateTicket_scans_every_row exampleTicket [5; 15; 21; 54; 70]
           (Some 7%Z) (Some 0%Z)).
  intros g r [= <-] [= <-]. vm_compute. intros (_ & Hlt & _). discriminate Hlt.
Defined.

(** ** [checkTicketWinner] *)

Lemma checkRowWinner_true (row : TicketRow) (called : list nat) :
  checkRowWinner row called = true ↔ ∀ n, n ∈ rowNumbers row → n ∈ called.
Proof.
  unfold checkRowWinner. rewrite forallb_forall. split.
  - intros H n Hn. apply list_elem_of_In, H, bool_decide_eq_true in Hn. done.
  - intros H n Hn. apply bool_decide_eq_true, H, list_elem_of_In, Hn.
Qed.

Lemma checkRowsFrom_spec (left r : nat) (grid : TicketGrid) (called : list nat) :
  r + left ≤ length (rows grid) →
  ∃ res, GameLogic.checkRowsFrom left r grid called = Returns res ∧
    match res with
    | Some k => r ≤ k < r + left ∧
                (∃ row, rows grid !! k = Some row ∧ checkRowWinner row called = true) ∧
                ∀ j row, r ≤ j < k → rows grid !! j = Some row → checkRowWinner row called = false
    | None => ∀ j row, r ≤ j < r + left → rows grid !! j = Some row →
                       checkRowWinner row called = false
    end.
Proof.
  revert r. induction left as [|left IH]; intros r Hlen; cbn [GameLogic.checkRowsFrom].
  - exists None. split; [done|]. intros j row Hj. lia.
  - destruct (lookup_lt_is_Some_2 (rows grid) r) as [row Hrow]; [lia|]. rewrite Hrow.
    destruct (checkRowWinner row called) eqn:Hw.
    + exists (Some r). split; [done|]. split_and!; [lia|lia|by exists row|].
      intros j row' Hj. lia.
    + destruct (IH (S r)) as (res & -> & Hres); [lia|]. exists res. split; [done|].
      destruct res as [k|].
      * destruct Hres as (Hk & Hwin & Hbefore). split_and!; [lia|lia|done|].
        intros j row' Hj Hrow'. destruct (decide (j = r)) as [->|Hne].
        -- by simplify_eq.
        -- apply (Hbefore j); [lia|done].
      * intros j row' Hj Hrow'. destruct (decide (j = r)) as [->|Hne].
        -- by simplify_eq.
        -- apply (Hres j); [lia|done].
Qed.

Lemma checkGridsFrom_spec (g0 : nat) (gs : list TicketGrid) (called : list nat) :
  Forall (λ g, 3 ≤ length (rows g)) gs →
  ∃ res, GameLogic.checkGridsFrom g0 gs called = Returns res ∧
    match res with
    | Some (g, r) =>
      g0 ≤ g ∧ r < 3 ∧
      (∃ grid row, gs !! (g - g0) = Some grid ∧ rows grid !! r = Some row ∧
                   checkRowWinner row called = true) ∧
      ∀ g' r' grid row, r' < 3 → gs !! g' = Some grid → rows grid !! r' = Some row →
                        checkRowWinner row called = true →
                        g < g0 + g' ∨ (g = g0 + g' ∧ r ≤ r')
    | None => ∀ g' r' grid row, r' < 3 → gs !! g' = Some grid → rows grid !! r' = Some row →
                                checkRowWinner row called = false
    end.
Proof.
  intros Hall. revert g0. induction Hall as [|grid gs Hgrid _ IH]; intros g0;
    cbn [GameLogic.checkGridsFrom].
  - exists None. split; [done|]. intros g' r' grid row _ Hg. done.
  - destruct (checkRowsFrom_spec 3 0 grid called) as (rres & -> & Hrres); [simpl; lia|].
    unfold mbind, outcome_bind. cbv beta iota.
    destruct rres as [r|].
    + exists (Some (g0, r)). split; [done|]. destruct Hrres as (Hr & (row & Hrow & Hw) & Hbefore).
      split_and!; [lia|lia| |].
      * exists grid, row. by rewrite Nat.sub_diag.
      * intros g' r' grid' row' Hr' Hg' Hrow' Hw'. destruct g' as [|g']; [|left; lia].
        right. split; [lia|]. injection Hg' as <-.
        destruct (decide (r ≤ r')) as [|Hlt]; [done|]. exfalso.
        rewrite (Hbefore r' row') in Hw'; [done|lia|done].
    + destruct (IH (S g0)) as (res & -> & Hres). exists res. split; [done|].
      destruct res as [[g r]|].
      * destruct Hres as (Hg & Hr & (grid' & row & Hg' & Hrow & Hw) & Hfirst).
        split_and!; [lia|done| |].
        -- exists grid', row. replace (g - g0) with (S (g - S g0)) by lia. done.
        -- intros g' r' grid'' row' Hr' Hg'' Hrow' Hw'. destruct g' as [|g'].
           ++ injection Hg'' as <-. rewrite (Hrres r' row') in Hw'; [done|lia|done].
           ++ destruct (Hfirst g' r' grid'' row' Hr' Hg'' Hrow' Hw'); lia.
      * intros g' r' grid' row' Hr' Hg' Hrow'. destruct g' as [|g'].
        -- injection Hg' as <-. apply (Hrres r'); [lia|done].
        -- by eapply Hres.
Qed.

(** X2: [checkTicketWinner] on a ticket whose grids have their three rows
    answers with the first position, grid by grid and row by row, of a row
    whose numbers are all called, and with [isWinner: false] exactly when
    there is none; when the first grid lacks a row and no earlier row wins,
    the call raises a [TypeError]. *)
Theorem checkTicketWinner_first_row (ticket : LotoTicket) (called : list nat) :
  (Forall (λ g, 3 ≤ length (rows g)) (grids ticket) →
   ∃ res, GameLogic.checkTicketWinner ticket called = Returns res ∧
     (res = None ↔ ∀ g r, ¬ winsAt ticket called g r) ∧
     (∀ g r, res = Some (g, r) →
        winsAt ticket called g r ∧
        ∀ g' r', winsAt ticket called g' r' → g < g' ∨ (g = g' ∧ r ≤ r'))) ∧
  (∀ grid gs, grids ticket = grid :: gs → length (rows grid) < 3 →
     (∀ row, row ∈ rows grid → checkRowWinner row called = false) →
     GameLogic.checkTicketWinner ticket called = Throws).
Proof.
  split.
  - intros Hall. unfold GameLogic.checkTicketWinner.
    destruct (checkGridsFrom_spec 0 (grids ticket) called Hall) as (res & -> & Hres).
    exists res. split; [done|]. destruct res as [[g r]|].
    + destruct Hres as (_ & Hr & (grid & row & Hg & Hrow & Hw) & Hfirst).
      rewrite Nat.sub_0_r in Hg. rewrite checkRowWinner_true in Hw.
      assert (winsAt ticket called g r) as Hwin by by exists grid, row.
      split; [split; [done|]; intros Hno; by destruct (Hno g r)|].
      intros g1 r1 [= <- <-]. split; [done|].
      intros g' r' (grid' & row' & Hg' & Hrow' & Hr' & Hw').
      apply (proj2 (checkRowWinner_true _ _)) in Hw'.
      by destruct (Hfirst g' r' grid' row' Hr' Hg' Hrow' Hw'); [left|right].
    + split; [|done]. split; [|done]. intros _ g r (grid & row & Hg & Hrow & Hr & Hw).
      apply (proj2 (checkRowWinner_true _ _)) in Hw. by rewrite (Hres g r grid row) in Hw.
  - intros grid gs Hgs Hshort Hnone. unfold GameLogic.checkTicketWinner. rewrite Hgs.
    cbn [GameLogic.checkGridsFrom].
    assert (∀ left r, r ≤ length (rows grid) < r + left →
              GameLogic.checkRowsFrom left r grid called = Throws) as Hthrow.
    { induction left as [|left IH]; intros r Hlen; cbn [GameLogic.checkRowsFrom].
      - lia.
      - destruct (rows grid !! r) as [row|] eqn:Hrow; [|done].
        rewrite Hnone by (apply list_elem_of_lookup; by exists r).
        apply lookup_lt_Some in Hrow. apply IH. lia. }
    rewrite Hthrow by (simpl; lia). done.
Qed.

Lemma checkTicketWinner_first_row_witness :
  ∃ res, GameLogic.checkTicketWinner exampleTicket [5; 15; 21; 54; 70] = Returns res ∧
    (res = None ↔ ∀ g r, ¬ winsAt exampleTicket [5; 15; 21; 54; 70] g r) ∧
    (∀ g r, res = Some (g, r) →
       winsAt exampleTicket [5; 15; 21; 54; 70] g r ∧
       ∀ g' r', winsAt exampleTicket [5; 15; 21; 54; 70] g' r' → g < g' ∨ (g = g' ∧ r ≤ r')).
Proof.
  apply (proj1 (checkTicketWinner_first_row exampleTicket [5; 15; 21; 54; 70])).
  repeat (constructor; [simpl; lia|]). constructor.
Defined.

Lemma winningRowFrom_three (grid : TicketGrid) (called : list nat) :
  length (rows grid) = 3 →
  GameLogic.checkRowsFrom 3 0 grid called
  = Returns (Services.winningRowFrom 0 (rows grid) called).
Proof.
  destruct grid as [[|r0 [|r1 [|r2 [|r3 rs]]]]]; try done. intros _.
  cbn [GameLogic.checkRowsFrom Services.winningRowFrom rows lookup list_lookup].
  fold (checkRowWinner r0 called). fold (checkRowWinner r1 called).
  fold (checkRowWinner r2 called).
  by destruct (checkRowWinner r0 called), (checkRowWinner r1 called),
             (checkRowWinner r2 called).
Qed.

Lemma winningRowOf_three (g0 : nat) (gs : list TicketGrid) (called : list nat) :
  Forall (λ g, length (rows g) = 3) gs →
  ∃ res, GameLogic.checkGridsFrom g0 gs called = Returns res ∧
         Services.winningRowOf gs called = snd <$> res.
Proof.
  intros Hall. revert g0. induction Hall as [|grid gs Hgrid _ IH]; intros g0;
    cbn [GameLogic.checkGridsFrom Services.winningRowOf].
  - by exists None.
  - rewrite (winningRowFrom_three grid called Hgrid).
    unfold mbind, outcome_bind. cbv beta iota.
    destruct (Services.winningRowFrom 0 (rows grid) called) as [r|].
    + by exists (Some (g0, r)).
    + apply IH.
Qed.

(** X3: On a ticket of valid grids the three winner checks agree:
    [checkTicketWinner] finds a row exactly when [validateTicket] without a
    claim answers [isWinner: true], and the row index it reports is the one
    the automatic check of [GameService.checkAutoWinner] records; a row
    wins one of them exactly when its five numbers are all called. *)
Theorem winner_checks_agree (ticket : LotoTicket) (called : list nat) :
  Forall validGrid (grids ticket) →
  ∃ res scan,
    GameLogic.checkTicketWinner ticket called = Returns res ∧
    validateTicket ticket called None None = Returns scan ∧
    Services.winningRowOf (grids ticket) called = snd <$> res ∧
    (is_Some res ↔ isWinner scan = true) ∧
    (is_Some res ↔ ∃ row, row ∈ allRows ticket ∧ rowComplete row called) ∧
    (∀ row, row ∈ allRows ticket →
       (checkRowWinner row called = true ↔ rowComplete row called)).
Proof.
  intros Hvalid.
  assert (Forall (λ g, length (rows g) = 3) (grids ticket)) as H3.
  { eapply Forall_impl; [done|]. by intros g (? & _). }
  assert (∀ row, row ∈ allRows ticket → length (rowNumbers row) = 5) as Hfive.
  { intros row (rs & Hrow & Hrs)%elem_of_concat.
    apply list_elem_of_fmap in Hrs as (g & -> & Hg).
    rewrite Forall_forall in Hvalid. destruct (Hvalid g Hg) as (_ & Hrows & _).
    rewrite Forall_forall in Hrows. by destruct (Hrows row Hrow). }
  assert (∀ row, row ∈ allRows ticket →
            (checkRowWinner row called = true ↔ rowComplete row called)) as Hrow.
  { intros row Hin. rewrite checkRowWinner_true. unfold rowComplete.
    specialize (Hfive row Hin). tauto. }
  destruct (winningRowOf_three 0 (grids ticket) called H3) as (res & Hres & Hauto).
  assert (Forall (λ g, 3 ≤ length (rows g)) (grids ticket)) as Hge.
  { eapply Forall_impl; [done|]. intros g ->. done. }
  destruct (checkGridsFrom_spec 0 (grids ticket) called Hge) as (res' & Hres' & Hspec).
  unfold GameLogic.checkTicketWinner. rewrite Hres in Hres'. injection Hres' as <-.
  assert (is_Some res ↔ ∃ row, row ∈ allRows ticket ∧ rowComplete row called) as Hsome.
  { destruct res as [[g r]|].
    - split; [intros _|by eexists]. destruct Hspec as (_ & _ & (grid & row & Hg & Hr & Hw) & _).
      rewrite Nat.sub_0_r in Hg.
      assert (row ∈ allRows ticket) as Hin.
      { apply elem_of_concat. exists (rows grid). split.
        - apply list_elem_of_lookup. by exists r.
        - apply list_elem_of_fmap. exists grid. split; [done|].
          apply list_elem_of_lookup. by exists g. }
      exists row. split; [done|]. by apply Hrow.
    - split; [by intros [? ?]|]. intros (row & Hin & Hc). exfalso.
      pose proof Hin as Hin'.
      apply elem_of_concat in Hin as (rs & Hrow' & Hrs).
      apply list_elem_of_fmap in Hrs as (g & -> & Hg).
      apply list_elem_of_lookup in Hg as [gi Hg].
      apply list_elem_of_lookup in Hrow' as [ri Hri].
      assert (ri < 3) as Hlt.
      { apply lookup_lt_Some in Hri. rewrite Forall_lookup in H3.
        rewrite (H3 _ _ Hg) in Hri. done. }
      apply (Hrow row Hin') in Hc.
      by rewrite (Hspec gi ri g row Hlt Hg Hri) in Hc. }
  exists res, (scanRows (allRows ticket) called).
  destruct (scanRows_spec (allRows ticket) called) as (_ & Hwin & _).
  split_and!; [done|done|done| |done|done].
  by rewrite Hsome, Hwin.
Qed.

Lemma exampleTicket_generated :
  generateTicket 100 (λ p, p * 7 + 3) 0 "t1" "ABCDEF" "p1" = Returns (exampleTicket, 72).
Proof. vm_compute. reflexivity. Qed.

Lemma exampleTicket_valid : Forall validGrid (grids exampleTicket).
Proof.
  pose proof exampleTicket_generated as Hg. rewrite generateTicket_eq in Hg.
  by apply ticketLoop_ticket in Hg as (_ & ? & _).
Qed.

Lemma winner_checks_agree_witness :
  ∃ res scan,
    GameLogic.checkTicketWinner exampleTicket [5; 15; 21; 54; 70] = Returns res ∧
    validateTicket exampleTicket [5; 15; 21; 54; 70] None None = Returns scan ∧
    Services.winningRowOf (grids exampleTicket) [5; 15; 21; 54; 70] = snd <$> res ∧
    (is_Some res ↔ isWinner scan = true) ∧
    (is_Some res ↔
       ∃ row, row ∈ allRows exampleTicket ∧ rowComplete row [5; 15; 21; 54; 70]) ∧
    (∀ row, row ∈ allRows exampleTicket →
       (checkRowWinner row [5; 15; 21; 54; 70] = true
        ↔ rowComplete row [5; 15; 21; 54; 70])).
Proof.
  apply (winner_checks_agree exampleTicket [5; 15; 21; 54; 70]).
  apply exampleTicket_valid.
Defined.

(** ** Marking a called number *)

Lemma length_jsWrite (arr : list bool) (i : nat) (v : bool) :
  length (jsWrite arr i v) = length arr `max` S i.
Proof.
  unfold jsWrite. case_decide.
  - rewrite length_insert. lia.
  - rewrite !length_app, length_replicate. simpl. lia.
Qed.

Lemma lookup_jsWrite (arr : list bool) (i k : nat) (v : bool) :
  jsWrite arr i v !! k
  = if decide (k = i) then Some v
    else if decide (k < length arr) then arr !! k
    else if decide (k < i) then Some false else None.
Proof.
  unfold jsWrite. destruct (decide (i < length arr)) as [Hi|Hi].
  - destruct (decide (k = i)) as [->|Hne].
    + by rewrite list_lookup_insert_eq.
    + rewrite list_lookup_insert_ne by done.
      destruct (decide (k < length arr)) as [|Hk]; [done|].
      rewrite decide_False by lia. apply lookup_ge_None. lia.
  - destruct (decide (k < length arr)) as [Hk|Hk].
    + rewrite decide_False by lia. by rewrite lookup_app_l.
    + rewrite lookup_app_r by lia.
      destruct (decide (k = i)) as [->|Hne].
      * rewrite lookup_app_r by (rewrite length_replicate; lia).
        rewrite length_replicate, Nat.sub_diag. done.
      * destruct (decide (k < i)) as [Hlt|Hge].
        -- rewrite lookup_app_l by (rewrite length_replicate; lia).
           apply lookup_replicate_2. lia.
        -- apply lookup_ge_None. rewrite length_app, length_replicate. simpl. lia.
Qed.

Lemma jsWrite_again (arr : list bool) (i : nat) (v : bool) :
  jsWrite (jsWrite arr i v) i v = jsWrite arr i v.
Proof.
  apply list_eq. intros k. rewrite !lookup_jsWrite, !length_jsWrite.
  repeat case_decide; try done; lia.
Qed.

Lemma jsWrite_swap (arr : list bool) (i j : nat) :
  jsWrite (jsWrite arr i true) j true = jsWrite (jsWrite arr j true) i true.
Proof.
  apply list_eq. intros k. rewrite !lookup_jsWrite, !length_jsWrite.
  repeat case_decide; try done; lia.
Qed.

Lemma indexOf_Some (cs : list (option nat)) (n c : nat) :
  GameLogic.indexOf cs n = Some c ↔
  cs !! c = Some (Some n) ∧ ∀ j, j < c → cs !! j ≠ Some (Some n).
Proof.
  unfold GameLogic.indexOf. split.
  - destruct (list_find _ cs) as [[i x]|] eqn:Hf; [|done]. intros [= <-].
    apply list_find_Some in Hf as (Hi & -> & Hbefore). split; [done|].
    intros j Hj Hcj. by apply (Hbefore j (Some n)).
  - intros [Hc Hbefore].
    assert (list_find (λ x, x = Some n) cs = Some (c, Some n)) as ->; [|done].
    apply list_find_Some. split_and!; [done|done|].
    intros j y Hy Hj ->. by apply (Hbefore j).
Qed.

Lemma indexOf_None (cs : list (option nat)) (n : nat) :
  GameLogic.indexOf cs n = None ↔ Some n ∉ cs.
Proof.
  unfold GameLogic.indexOf. destruct (list_find _ cs) as [[i x]|] eqn:Hf.
  - apply list_find_Some in Hf as (Hi & -> & _). split; [done|]. intros Hn.
    destruct Hn. apply list_elem_of_lookup. by exists i.
  - split; [intros _|done]. eapply list_find_None in Hf. rewrite Forall_forall in Hf.
    intros Hin. by apply (Hf _ Hin).
Qed.

Lemma rowNumbers_elem (row : TicketRow) (n : nat) :
  n ∈ rowNumbers row ↔ Some n ∈ cells row.
Proof.
  unfold rowNumbers. rewrite list_elem_of_omap. split.
  - by intros (x & Hx & ->).
  - intros H. by exists (Some n).
Qed.

Lemma autoMarkRow_again (n : nat) (row : TicketRow) :
  GameLogic.autoMarkRow n (GameLogic.autoMarkRow n row) = GameLogic.autoMarkRow n row.
Proof.
  unfold GameLogic.autoMarkRow.
  destruct (GameLogic.indexOf (cells row) n) as [c|] eqn:Hc; cbn [cells marked].
  - rewrite Hc. by rewrite jsWrite_again.
  - by rewrite Hc.
Qed.

Lemma autoMarkRow_swap (n m : nat) (row : TicketRow) :
  GameLogic.autoMarkRow n (GameLogic.autoMarkRow m row)
  = GameLogic.autoMarkRow m (GameLogic.autoMarkRow n row).
Proof.
  unfold GameLogic.autoMarkRow.
  destruct (GameLogic.indexOf (cells row) n) as [c|] eqn:Hn,
           (GameLogic.indexOf (cells row) m) as [d|] eqn:Hm;
    cbn [cells marked]; rewrite ?Hn, ?Hm; cbn [cells marked]; try done.
  by rewrite jsWrite_swap.
Qed.

Lemma autoMarkRow_absent (n : nat) (row : TicketRow) :
  n ∉ rowNumbers row → GameLogic.autoMarkRow n row = row.
Proof.
  intros Hn. unfold GameLogic.autoMarkRow.
  assert (GameLogic.indexOf (cells row) n = None) as ->; [|done].
  apply indexOf_None. by rewrite <- rowNumbers_elem.
Qed.

Lemma map_rows_ext (f h : TicketRow → TicketRow) (gs : list TicketGrid) :
  (∀ g row, g ∈ gs → row ∈ rows g → f row = h row) →
  map (λ grid, mkGrid (map f (rows grid))) gs = map (λ grid, mkGrid (map h (rows grid))) gs.
Proof.
  intros Hext. apply map_ext_in. intros g Hg%list_elem_of_In. f_equal.
  apply map_ext_in. intros row Hrow%list_elem_of_In. by eapply Hext.
Qed.

(** X4: [autoMarkNumber] is idempotent, two calls with different numbers can
    be swapped, and a number that is not on the ticket leaves the ticket
    as it was. *)
Theorem autoMarkNumber_algebra (ticket : LotoTicket) (n m : nat) :
  GameLogic.autoMarkNumber (GameLogic.autoMarkNumber ticket n) n
  = GameLogic.autoMarkNumber ticket n ∧
  GameLogic.autoMarkNumber (GameLogic.autoMarkNumber ticket n) m
  = GameLogic.autoMarkNumber (GameLogic.autoMarkNumber ticket m) n ∧
  (n ∉ ticketNumbers ticket → GameLogic.autoMarkNumber ticket n = ticket).
Proof.
  unfold GameLogic.autoMarkNumber. cbn [grids ticketId ownerId roomId]. split_and!.
  - f_equal. rewrite map_map. cbn [rows]. apply map_ext. intros g. f_equal.
    rewrite map_map. apply map_ext. intros row. apply autoMarkRow_again.
  - f_equal. rewrite !map_map. cbn [rows]. apply map_ext. intros g. f_equal.
    rewrite !map_map. apply map_ext. intros row. apply autoMarkRow_swap.
  - intros Hn. destruct ticket as [tid gs owner room]. cbn [grids ticketId ownerId roomId].
    f_equal. rewrite <- (map_id gs) at 2. apply map_ext_in. intros [rs] Hg%list_elem_of_In.
    cbn [rows]. f_equal. rewrite <- (map_id rs) at 2. apply map_ext_in.
    intros row Hrow%list_elem_of_In. apply autoMarkRow_absent. intros Hin. apply Hn.
    unfold ticketNumbers, numbersOf. cbn [grids].
    apply elem_of_concat. exists (concat (map rowNumbers rs)). split.
    + apply elem_of_concat. exists (rowNumbers row). split; [done|].
      apply list_elem_of_fmap. by exists row.
    + apply list_elem_of_fmap. by exists (mkGrid rs).
Qed.

Lemma autoMarkNumber_algebra_witness :
  GameLogic.autoMarkNumber exampleTicket 91 = exampleTicket.
Proof.
  apply (proj2 (proj2 (autoMarkNumber_algebra exampleTicket 91 0))).
  intros Hin. apply (bool_decide_pack _) in Hin. vm_compute in Hin. done.
Defined.

(** X5: [autoMarkNumber] keeps the cells of every row, sets the mark of the
    first cell of the row that holds the number, and on a row with a mark
    for every cell changes no other mark. *)
Theorem autoMarkNumber_marks_first_cell (ticket : LotoTicket) (n g r : nat)
    (row : TicketRow) :
  rowAt ticket g r = Some row →
  ∃ row', rowAt (GameLogic.autoMarkNumber ticket n) g r = Some row' ∧
    cells row' = cells row ∧
    (∀ c, cells row !! c = Some (Some n) → (∀ j, j < c → cells row !! j ≠ Some (Some n)) →
          marked row' !! c = Some true) ∧
    (∀ c, length (cells row) ≤ length (marked row) →
          (cells row !! c ≠ Some (Some n) ∨ ∃ j, j < c ∧ cells row !! j = Some (Some n)) →
          marked row' !! c = marked row !! c) ∧
    (∀ c, marked row !! c = Some true → marked row' !! c = Some true).
Proof.
  unfold rowAt, GameLogic.autoMarkNumber. cbn [grids]. intros Hrow.
  rewrite list_lookup_fmap.
  destruct (grids ticket !! g) as [grid|] eqn:Hg; [|done]. cbn in Hrow |- *.
  rewrite list_lookup_fmap, Hrow. cbn [fmap option_fmap option_map].
  eexists. split; [done|]. unfold GameLogic.autoMarkRow.
  destruct (GameLogic.indexOf (cells row) n) as [i|] eqn:Hi; cbn [cells marked].
  - apply indexOf_Some in Hi as [Hcell Hfirst]. split_and!; [done| | |].
    + intros c Hc Hbefore. assert (c = i) as ->.
      { destruct (Nat.lt_trichotomy c i) as [Hlt|[->|Hgt]]; [|done|].
        - by destruct (Hfirst c Hlt).
        - by destruct (Hbefore i Hgt). }
      rewrite lookup_jsWrite. by rewrite decide_True.
    + intros c Hlen Hother. apply lookup_lt_Some in Hcell as Hlt.
      rewrite lookup_jsWrite.
      assert (c ≠ i) as Hne.
      { intros ->. destruct Hother as [Hno|(j & Hj & Hcj)]; [done|]. by destruct (Hfirst j Hj). }
      rewrite decide_False by done. case_decide as Hc; [done|].
      rewrite decide_False by lia. symmetry. apply lookup_ge_None. lia.
    + intros c Hc. rewrite lookup_jsWrite. apply lookup_lt_Some in Hc as Hlt.
      case_decide; [done|]. by rewrite decide_True.
  - apply indexOf_None in Hi. split_and!; [done| |done|done].
    intros c Hc _. destruct Hi. apply list_elem_of_lookup. by exists c.
Qed.

Lemma autoMarkNumber_marks_first_cell_witness :
  ∃ row', rowAt (GameLogic.autoMarkNumber exampleTicket 42) 0 0 = Some row' ∧
    cells row' = cells exampleRow ∧
    (∀ c, cells exampleRow !! c = Some (Some 42) →
          (∀ j, j < c → cells exampleRow !! j ≠ Some (Some 42)) →
          marked row' !! c = Some true) ∧
    (∀ c, length (cells exampleRow) ≤ length (marked exampleRow) →
          (cells exampleRow !! c ≠ Some (Some 42) ∨
           ∃ j, j < c ∧ cells exampleRow !! j = Some (Some 42)) →
          marked row' !! c = marked exampleRow !! c) ∧
    (∀ c, marked exampleRow !! c = Some true → marked row' !! c = Some true).
Proof. apply (autoMarkNumber_marks_first_cell exampleTicket 42 0 0 exampleRow). reflexivity. Defined.

(** ** Game statistics *)

(** X6: [getGameStats]: the total and the remaining count add up to 90, the
    last number is the number called last and null only for an empty
    list, the percentage is 0 only when nothing is called and, for at most
    90 called numbers, at most 100 and 100 only when all 90 are called.
    For a called list without repeats in [1..90], [remaining] is 0 exactly
    when [generateNextNumber] has no number left to draw. *)
Theorem getGameStats_bounds (called : list CalledNumber) :
  GameLogic.totalCalled (GameLogic.getGameStats called) = length called ∧
  (Z.of_nat (length called) + GameLogic.remaining (GameLogic.getGameStats called) = 90)%Z ∧
  (GameLogic.lastNumber (GameLogic.getGameStats called) = None ↔ called = []) ∧
  (∀ cs c, called = cs ++ [c] →
     GameLogic.lastNumber (GameLogic.getGameStats called) = Some (number c)) ∧
  (GameLogic.percentComplete (GameLogic.getGameStats called) = 0 ↔ called = []) ∧
  (length called ≤ 90 →
     (0 ≤ GameLogic.remaining (GameLogic.getGameStats called))%Z ∧
     GameLogic.percentComplete (GameLogic.getGameStats called) ≤ 100 ∧
     (GameLogic.percentComplete (GameLogic.getGameStats called) = 100
      ↔ length called = 90)) ∧
  (NoDup (map number called) → (∀ n, n ∈ map number called → 1 ≤ n ≤ 90) →
     length called ≤ 90 ∧
     (GameLogic.remaining (GameLogic.getGameStats called) = 0%Z
      ↔ ∀ rnd p, generateNextNumber rnd p (map number called) = None)).
Proof.
  unfold GameLogic.getGameStats.
  cbn [GameLogic.totalCalled GameLogic.remaining GameLogic.lastNumber
       GameLogic.percentComplete].
  pose proof (Nat.div_mod_eq (20 * length called + 9) 18) as Hdiv.
  pose proof (Nat.mod_upper_bound (20 * length called + 9) 18) as Hmod.
  split_and!.
  - done.
  - lia.
  - rewrite fmap_None. apply last_None.
  - intros cs c ->. by rewrite last_snoc.
  - rewrite <- length_zero_iff_nil. lia.
  - intros Hlen. split_and!; [lia|lia|lia].
  - intros Hnd Hin.
    pose proof (availableNumbers_length 90 (map number called) Hnd Hin) as Hav.
    rewrite length_map in Hav. split; [lia|]. split.
    + intros Hzero rnd p. unfold generateNextNumber. cbv zeta.
      rewrite decide_True; [done|lia].
    + intros Hnone. specialize (Hnone (λ _, 0) 0). unfold generateNextNumber in Hnone.
      cbv zeta in Hnone. case_decide; [lia|done].
Qed.

Lemma getGameStats_bounds_witness :
  length [mkCalled 5 0; mkCalled 17 1] ≤ 90 ∧
  (GameLogic.remaining (GameLogic.getGameStats [mkCalled 5 0; mkCalled 17 1]) = 0%Z
   ↔ ∀ rnd p, generateNextNumber rnd p (map number [mkCalled 5 0; mkCalled 17 1]) = None).
Proof.
  apply (proj2 (proj2 (proj2 (proj2 (proj2 (proj2
           (getGameStats_bounds [mkCalled 5 0; mkCalled 17 1]))))))).
  - apply (bool_decide_unpack _). vm_compute. exact I.
  - intros n Hn. cbn [map number] in Hn. set_unfold. lia.
Defined.

(** ** Room codes *)

Lemma string_app_cons (a : Ascii.ascii) (s t : string) :
  String a s +:+ t = String a (s +:+ t).
Proof. reflexivity. Qed.


Lemma toUpperCase_app (s t : string) :
  toUpperCase (s +:+ t) = toUpperCase s +:+ toUpperCase t.
Proof.
  induction s as [|a s IH]; [done|].
  rewrite string_app_cons. cbn [toUpperCase]. by rewrite string_app_cons, IH.
Qed.




Lemma list_find_snoc {A} (P : A → Prop) `{!∀ x, Decision (P x)} (l : list A) (x : A) :
  list_find P l = None → P x → list_find P (l ++ [x]) = Some (length l, x).
Proof.
  intros Hnone Hx. apply list_find_Some. split_and!.
  - by rewrite lookup_app_r, Nat.sub_diag.
  - done.
  - intros j y Hy Hj. rewrite lookup_app_l in Hy by done.
    eapply list_find_None in Hnone. rewrite Forall_lookup in Hnone. by eapply Hnone.
Qed.


(** ** Fresh tickets *)

Lemma setCell_marks (rs rs' : list TicketRow) (r c n : nat) :
  setCell rs r c n = Returns rs' → map marked rs' = map marked rs.
Proof.
  unfold setCell. destruct (rs !! r) as [row|] eqn:Hrow; [|done]. intros [= <-].
  apply list_eq. intros k. rewrite !list_lookup_fmap.
  destruct (decide (k = r)) as [->|Hne].
  - rewrite list_lookup_insert_eq by by eapply lookup_lt_Some. by rewrite Hrow.
  - by rewrite list_lookup_insert_ne.
Qed.

Lemma placeColumn_marks (rs rs' : list TicketRow) (c : nat) (rowIndices nums : list nat) :
  placeColumn rs c rowIndices nums = Returns rs' → map marked rs' = map marked rs.
Proof.
  revert rs rowIndices. induction nums as [|n nums IH]; intros rs ris Hp;
    cbn [placeColumn] in Hp.
  - by injection Hp as <-.
  - destruct ris as [|r ris]; [done|].
    destruct (setCell rs r c n) as [rs1| |] eqn:Hs; step_bind Hp; [|done|done].
    apply setCell_marks in Hs. apply IH in Hp. congruence.
Qed.

Lemma placeColumns_marks (rs rs' : list TicketRow) (cs : list nat) (ra gn : list (list nat)) :
  placeColumns rs cs ra gn = Returns rs' → map marked rs' = map marked rs.
Proof.
  revert rs. induction cs as [|c cs IH]; intros rs Hp; cbn [placeColumns] in Hp.
  - by injection Hp as <-.
  - cbv zeta in Hp.
    destruct (placeColumn rs c (sortCmp ascending (ra !!! c)) (gn !!! c)) as [rs1| |] eqn:Hc;
      step_bind Hp; [|done|done].
    apply placeColumn_marks in Hc. apply IH in Hp. congruence.
Qed.

Lemma distributeRows_marks attempts rnd p colCounts gn g p' :
  distributeRows attempts rnd p colCounts gn = Returns (Some g, p') →
  map marked (rows g) = replicate 3 (replicate 9 false).
Proof.
  revert p. induction attempts as [|attempts IH]; intros p Hd;
    cbn [distributeRows] in Hd; [done|].
  destruct (assignRows rnd p colCounts (colsIndices colCounts) (replicate 9 []) [0; 0; 0])
    as [[[valid ra] rf] p1] eqn:Ha.
  destruct (valid && forallb (λ c, bool_decide (c = 5)) rf) eqn:Hok; [|by eapply IH].
  destruct (placeColumns [emptyRow; emptyRow; emptyRow] (seq 0 9) ra gn) as [rs| |] eqn:Hp;
    step_bind Hd; [|done|done].
  injection Hd as <- _. cbn [rows]. by apply placeColumns_marks in Hp.
Qed.

Lemma generateUniqueGrid_marks fuel rnd p exclude g p' :
  generateUniqueGrid fuel rnd p exclude = Returns (Some g, p') →
  map marked (rows g) = replicate 3 (replicate 9 false).
Proof.
  unfold generateUniqueGrid. intros Hg.
  destruct (fillColCounts fuel rnd p (replicate 9 1) 6) as [[colCounts p1]| |] eqn:Hfill;
    [|done|done].
  step_bind Hg.
  destruct (uniqueNumbers rnd p1 exclude colCounts (seq 0 9) []) as [[gn|] p2] eqn:Hu;
    [|by simplify_eq].
  by eapply distributeRows_marks.
Qed.

Lemma generateGrid_marks retries fuel rnd p g p' :
  ServerJs.generateGrid retries fuel rnd p = Returns (g, p') →
  map marked (rows g) = replicate 3 (replicate 9 false).
Proof.
  revert p. induction retries as [|retries IH]; intros p Hg;
    cbn [ServerJs.generateGrid] in Hg; [done|].
  destruct (fillColCounts fuel rnd p (replicate 9 1) 6) as [[colCounts p1]| |] eqn:Hfill;
    [|done|done].
  step_bind Hg.
  destruct (ServerJs.randomNumbers fuel rnd p1 colCounts (seq 0 9) [])
    as [[gn p2]| |] eqn:Hr; [|done|done].
  step_bind Hg.
  destruct (distributeRows 100 rnd p2 colCounts gn) as [[[g'|] p3]| |] eqn:Hd;
    step_bind Hg; [| |done|done].
  - injection Hg as <- _. by eapply distributeRows_marks.
  - by eapply IH.
Qed.

Lemma ticketLoop_marks budget fuel rnd p gs used gs' p' :
  ticketLoop budget fuel rnd p gs used = Returns (gs', p') →
  Forall (λ g, map marked (rows g) = replicate 3 (replicate 9 false)) gs →
  Forall (λ g, map marked (rows g) = replicate 3 (replicate 9 false)) gs'.
Proof.
  revert p gs used.
  induction budget as [|budget IH]; intros p gs used Hloop Hall; cbn [ticketLoop] in Hloop.
  - by injection Hloop as <- _.
  - case_decide as Hlt; [|by injection Hloop as <- _].
    destruct (generateUniqueGrid fuel rnd p used) as [[[g|] p1]| |] eqn:Hg;
      step_bind Hloop; [| |done|done].
    + apply generateUniqueGrid_marks in Hg. eapply IH; [done|].
      apply Forall_app. split; [done|]. by constructor.
    + by eapply IH.
Qed.

Lemma threeGrids_marks n retries fuel rnd p gs gs' p' :
  ServerJs.threeGrids n retries fuel rnd p gs = Returns (gs', p') →
  Forall (λ g, map marked (rows g) = replicate 3 (replicate 9 false)) gs →
  Forall (λ g, map marked (rows g) = replicate 3 (replicate 9 false)) gs'.
Proof.
  revert p gs. induction n as [|n IH]; intros p gs Ht Hall; cbn [ServerJs.threeGrids] in Ht.
  - by injection Ht as <- _.
  - destruct (ServerJs.generateGrid retries fuel rnd p) as [[g p1]| |] eqn:Hg;
      step_bind Ht; [|done|done].
    apply generateGrid_marks in Hg. eapply IH; [done|].
    apply Forall_app. split; [done|]. by constructor.
Qed.

Lemma fresh_grids_wide (gs : list TicketGrid) :
  Forall validGrid gs →
  Forall (λ g, map marked (rows g) = replicate 3 (replicate 9 false)) gs →
  Forall (λ g, Forall (λ row, marked row = replicate 9 false) (rows g)) gs ∧
  Forall (λ g, Forall (λ row, length (cells row) = 9 ∧ length (marked row) = 9) (rows g)) gs.
Proof.
  intros Hvalid Hmarks.
  assert (∀ g row, g ∈ gs → row ∈ rows g →
            marked row = replicate 9 false ∧ length (cells row) = 9) as Hrow.
  { intros g row Hg Hrow. rewrite Forall_forall in Hvalid, Hmarks.
    destruct (Hvalid g Hg) as (_ & Hcells & _). specialize (Hmarks g Hg).
    rewrite Forall_forall in Hcells. destruct (Hcells row Hrow) as [Hnine _].
    split; [|done]. apply list_elem_of_lookup in Hrow as [k Hk].
    assert (map marked (rows g) !! k = Some (marked row)) as Hm
      by by rewrite list_lookup_fmap, Hk.
    rewrite Hmarks in Hm. apply lookup_replicate in Hm as [Hm _]. done. }
  split; apply Forall_forall; intros g Hg; apply Forall_forall; intros row Hin;
    destruct (Hrow g row Hg Hin) as [Hm Hc]; [done|]. by rewrite Hm.
Qed.

(** X8: A ticket either generator returns is unmarked, with nine cells and
    nine marks in every row; on such a ticket two [player:mark-number]
    requests of [server.js] for the same position, whatever the indices,
    restore the state. *)
Theorem fresh_tickets_unmarked (t : LotoTicket) :
  (∃ fuel rnd p uuid room owner p',
     generateTicket fuel rnd p uuid room owner = Returns (t, p')) ∨
  (∃ retries fuel rnd p newId room owner p',
     ServerJs.generateTicket retries fuel rnd p newId room owner = Returns (t, p')) →
  unmarked t ∧ nineWide t ∧
  ∀ st tid g r c,
    ServerJs.ticketMap st !! tid = Some t →
    ServerJs.onMarkNumber tid g r c (ServerJs.onMarkNumber tid g r c st) = st.
Proof.
  intros Hgen.
  assert (Forall validGrid (grids t) ∧
          Forall (λ g, map marked (rows g) = replicate 3 (replicate 9 false)) (grids t))
    as [Hvalid Hmarks].
  { destruct Hgen as [(fuel & rnd & p & uuid & room & owner & p' & Hg)
                     |(retries & fuel & rnd & p & newId & room & owner & p' & Hg)].
    - rewrite generateTicket_eq in Hg. pose proof Hg as Hg'.
      apply ticketLoop_ticket in Hg' as (_ & Hvalid & _). split; [done|].
      destruct (ticketLoop 50 fuel rnd p [] ∅) as [[gs p1]| |] eqn:Hloop;
        step_bind Hg; [|discriminate Hg|discriminate Hg].
      injection Hg as <- _. cbn [grids]. by eapply ticketLoop_marks.
    - rewrite serverjs_generateTicket_eq in Hg. pose proof Hg as Hg'.
      apply threeGrids_ticket in Hg' as (_ & Hvalid & _). split; [done|].
      destruct (ServerJs.threeGrids 3 retries fuel rnd p []) as [[gs p1]| |] eqn:Hloop;
        step_bind Hg; [|discriminate Hg|discriminate Hg].
      injection Hg as <- _. cbn [grids]. by eapply threeGrids_marks. }
  destruct (fresh_grids_wide (grids t) Hvalid Hmarks) as [Hun Hwide].
  split_and!; [done|done|].
  intros st tid g r c Hticket. by apply (serverjs_markNumber_twice tid g r c st t).
Qed.

Lemma fresh_tickets_unmarked_witness :
  unmarked exampleTicket ∧ nineWide exampleTicket ∧
  ∀ st tid g r c,
    ServerJs.ticketMap st !! tid = Some exampleTicket →
    ServerJs.onMarkNumber tid g r c (ServerJs.onMarkNumber tid g r c st) = st.
Proof.
  apply (fresh_tickets_unmarked exampleTicket). left.
  exists 100, (λ p, p * 7 + 3), 0, "t1"%string, "ABCDEF"%string, "p1"%string, 72.
  vm_compute. reflexivity.
Defined.

(** ** Marking inside the row *)

Lemma markNumber_no_row conflict tid g r col db i ticket :
  list_find (λ t, ticketId t = tid) (Services.ticketDocs db) = Some (i, ticket) →
  rowAt ticket g r = None →
  Services.markNumber conflict tid g r col db = Returns db.
Proof.
  intros Hfind Hrow. unfold Services.markNumber. cbn [Services.markLoop]. rewrite Hfind.
  unfold Services.markedTicket. unfold rowAt in Hrow. by rewrite Hrow.
Qed.

(** X9: For a column inside the row, [TicketService.markNumber] called twice
    on the same position of a ticket with nine cells and nine marks per
    row restores the store, whatever the grid and row indices, and a
    ticket id the store does not hold changes nothing. *)
Theorem markNumber_round_trip_inside (tid : string) (g r col : nat) (db : Services.Db) :
  (∀ i ticket,
     list_find (λ t, ticketId t = tid) (Services.ticketDocs db) = Some (i, ticket) →
     nineWide ticket → col < 9 →
     Services.markNumber (λ _, false) tid g r col db
       ≫= Services.markNumber (λ _, false) tid g r col = Returns db) ∧
  (∀ conflict, Services.getTicketById tid db = None →
     Services.markNumber conflict tid g r col db = Returns db).
Proof.
  split.
  - intros i ticket Hfind Hwide Hcol.
    destruct (rowAt ticket g r) as [row|] eqn:Hrow.
    + unfold rowAt in Hrow. destruct (grids ticket !! g) as [grid|] eqn:Hg; [|done].
      cbn in Hrow.
      assert (length (cells row) = 9 ∧ length (marked row) = 9) as [Hcells Hmarks].
      { unfold nineWide in Hwide. rewrite Forall_lookup in Hwide.
        specialize (Hwide _ _ Hg). rewrite Forall_lookup in Hwide. by apply (Hwide r). }
      destruct (lookup_lt_is_Some_2 (cells row) col) as [[n|] Hcell]; [lia| |].
      * apply (markNumber_twice tid g r col db i ticket grid row Hfind Hg Hrow n Hcell). lia.
      * rewrite (markNumber_empty_cell tid g r col db i ticket grid row Hfind Hg Hrow _ Hcell).
        unfold mbind, outcome_bind.
        apply (markNumber_empty_cell tid g r col db i ticket grid row Hfind Hg Hrow _ Hcell).
    + rewrite (markNumber_no_row _ tid g r col db i ticket Hfind Hrow).
      unfold mbind, outcome_bind. by apply (markNumber_no_row _ tid g r col db i ticket).
  - intros conflict Hnone. unfold Services.getTicketById in Hnone.
    apply fmap_None in Hnone. unfold Services.markNumber. cbn [Services.markLoop].
    by rewrite Hnone.
Qed.

Lemma markNumber_round_trip_inside_witness :
  Services.markNumber (λ _, false) "t1" 1 2 8 ticketStore
    ≫= Services.markNumber (λ _, false) "t1" 1 2 8 = Returns ticketStore.
Proof.
  apply (proj1 (markNumber_round_trip_inside "t1" 1 2 8 ticketStore) 0 exampleTicket).
  - reflexivity.
  - repeat (constructor; [repeat (constructor; [split; reflexivity|]); constructor|]).
    constructor.
  - lia.
Defined.

(** ** The room cache *)

Lemma list_find_insert_other {A} (P : A → Prop) `{!∀ x, Decision (P x)}
    (l : list A) (i : nat) (x y : A) :
  l !! i = Some x → ¬ P x → ¬ P y → list_find P (<[i := y]> l) = list_find P l.
Proof.
  intros Hi Hx Hy. destruct (list_find P l) as [[j z]|] eqn:Hf.
  - apply list_find_Some in Hf as (Hj & Hz & Hbefore).
    assert (j ≠ i) as Hne by (intros ->; simplify_eq; done).
    apply list_find_Some. split_and!; [by rewrite list_lookup_insert_ne|done|].
    intros k w Hk Hlt. destruct (decide (k = i)) as [->|Hki].
    + rewrite list_lookup_insert_eq in Hk by by eapply lookup_lt_Some. by simplify_eq.
    + rewrite list_lookup_insert_ne in Hk by done. by eapply Hbefore.
  - apply list_find_None. eapply list_find_None in Hf.
    rewrite Forall_lookup in Hf |- *. intros k w Hk.
    destruct (decide (k = i)) as [->|Hki].
    + rewrite list_lookup_insert_eq in Hk by by eapply lookup_lt_Some. by simplify_eq.
    + rewrite list_lookup_insert_ne in Hk by done. by eapply Hf.
Qed.

Lemma list_find_app_left {A} (P : A → Prop) `{!∀ x, Decision (P x)} (l l' : list A) i x :
  list_find P l = Some (i, x) → list_find P (l ++ l') = Some (i, x).
Proof.
  intros Hf. apply list_find_Some in Hf as (Hi & Hx & Hbefore).
  apply list_find_Some. split_and!; [by apply lookup_app_l_Some|done|].
  intros j y Hy Hj. rewrite lookup_app_l in Hy; [by eapply Hbefore|].
  apply lookup_lt_Some in Hi. lia.
Qed.

Lemma findRoom_code c db i room :
  Services.findRoom c db = Some (i, room) →
  Services.roomDocs db !! i = Some room ∧ Services.code room = c.
Proof. unfold Services.findRoom. by intros (? & ? & _)%list_find_Some. Qed.

(** Updating the status of room [c] keeps every other room found. *)
Lemma updateRoomStatus_other c st rooms c' :
  c' ≠ c →
  list_find (λ r, Services.code r = c') (Services.updateRoomStatus c st rooms)
  = list_find (λ r, Services.code r = c') rooms.
Proof.
  intros Hne. unfold Services.updateRoomStatus.
  destruct (list_find (λ r, Services.code r = c) rooms) as [[i room]|] eqn:Hf; [|done].
  apply list_find_Some in Hf as (Hi & Hc & _).
  apply (list_find_insert_other _ _ _ room); [done| |]; cbn; congruence.
Qed.

Lemma updateRoomStatus_same c st rooms i room :
  list_find (λ r, Services.code r = c) rooms = Some (i, room) →
  list_find (λ r, Services.code r = c) (Services.updateRoomStatus c st rooms)
  = Some (i, Services.setStatus room st).
Proof.
  intros Hf. unfold Services.updateRoomStatus. rewrite Hf.
  apply (list_find_insert_same _ _ _ room); [done|].
  apply list_find_Some in Hf as (_ & Hc & _). done.
Qed.

Lemma roomCacheOK_frame db db' :
  Services.roomDocs db' = Services.roomDocs db →
  Services.roomCache db' = Services.roomCache db →
  roomCacheOK db → roomCacheOK db'.
Proof.
  intros Hdocs Hcache Hok c room Hc. unfold Services.findRoom. rewrite Hdocs.
  rewrite Hcache in Hc. by apply Hok.
Qed.

Lemma roomCacheOK_status db c st sessions scache :
  roomCacheOK db →
  roomCacheOK (Services.mkDb (Services.updateRoomStatus c st (Services.roomDocs db))
                             (Services.playerDocs db) (Services.ticketDocs db) sessions
                             (delete c (Services.roomCache db)) scache).
Proof.
  intros Hok c' room Hc. cbn in Hc.
  apply lookup_delete_Some in Hc as [Hne Hc].
  destruct (Hok c' room Hc) as [i Hi]. exists i.
  unfold Services.findRoom in *. cbn. by rewrite updateRoomStatus_other.
Qed.

Lemma serve_roomCacheOK (db : Services.Db) (req : Request) :
  roomCacheOK db → roomCacheOK (serve db req).
Proof.
  intros Hok. destruct req; cbn [serve].
  - (* createRoom *)
    unfold Services.createRoom. cbv zeta.
    destruct (Services.findRoom newCode _) as [[i room]|] eqn:Hf; cbn [snd].
    + by apply (roomCacheOK_frame db).
    + intros c room Hc. cbn in Hc. unfold Services.findRoom. cbn.
      destruct (decide (c = newCode)) as [->|Hne].
      * rewrite lookup_insert_eq in Hc. injection Hc as <-. eexists.
        by apply list_find_snoc.
      * rewrite lookup_insert_ne in Hc by done. destruct (Hok c room Hc) as [i Hi].
        exists i. by apply list_find_app_left.
  - (* getRoom *)
    unfold Services.getRoom.
    destruct (Services.roomCache db !! toUpperCase c) as [room|] eqn:Hc; [done|].
    destruct (Services.findRoom (toUpperCase c) db) as [[i room]|] eqn:Hf; [|done].
    cbn [snd]. intros c' room' Hc'. cbn in Hc'. unfold Services.findRoom. cbn.
    apply findRoom_code in Hf as Hcode. destruct Hcode as [_ Hcode].
    destruct (decide (c' = Services.code room)) as [->|Hne].
    + rewrite lookup_insert_eq in Hc'. injection Hc' as <-. exists i. by rewrite Hcode.
    + rewrite lookup_insert_ne in Hc' by done. by apply Hok.
  - (* joinRoom *)
    unfold Services.joinRoom.
    destruct (Services.findRoom (toUpperCase c) db) as [[i room]|] eqn:Hf; [|done].
    cbv zeta. case_decide; [done|]. cbn [snd].
    apply findRoom_code in Hf as Hcode. destruct Hcode as [Hi Hcode].
    intros c' room' Hc'. cbn in Hc'. unfold Services.findRoom. cbn.
    destruct (decide (c' = Services.code room)) as [->|Hne].
    + rewrite lookup_insert_eq in Hc'. injection Hc' as <-. exists i.
      rewrite Hcode. by apply (list_find_insert_same _ _ _ room).
    + rewrite lookup_insert_ne in Hc' by done. destruct (Hok c' room' Hc') as [j Hj].
      exists j. unfold Services.findRoom in Hj. rewrite <- Hj.
      apply (list_find_insert_other _ _ _ room); [done| |]; cbn; congruence.
  - (* startGame *)
    unfold Services.startGame. cbn [snd]. by apply roomCacheOK_status.
  - (* spinNumber *)
    unfold Services.spinNumber.
    destruct (Services.findActiveSession _ _) as [[i s]|]; [|done].
    cbv zeta. case_decide; [done|]. cbn [fst snd]. by apply (roomCacheOK_frame db).
  - (* resetGame *)
    unfold Services.resetGame. cbv zeta.
    destruct (Services.findActiveSession _ _) as [[i s]|];
      unfold Services.withRooms, Services.withSessions; cbn;
      by apply roomCacheOK_status.
  - (* checkAutoWinner *)
    unfold Services.checkAutoWinner. cbv zeta.
    destruct (Services.firstWinner _ _) as [[t r]|]; [|done].
    cbn [snd]. by apply (roomCacheOK_frame db).
  - (* createTickets *)
    destruct (Services.createTickets _ _ _ _ _ _ _ _ _) as [[[ts db'] p']| |] eqn:Hc;
      [|done|done].
    by apply createTickets_stores_nothing in Hc as (_ & -> & _).
  - (* markNumber *)
    destruct (Services.markNumber _ _ _ _ _ _) as [db'| |] eqn:Hm; [|done|done].
    unfold Services.markNumber in Hm.
    assert (∀ left a, Services.markLoop left a conflict tid grid row col db = Returns db' →
              Services.roomDocs db' = Services.roomDocs db ∧
              Services.roomCache db' = Services.roomCache db) as Hloop.
    { induction left as [|left IH]; intros a Hl; cbn [Services.markLoop] in Hl.
      - by injection Hl as <-.
      - destruct (list_find _ _) as [[i t]|]; [|by injection Hl as <-].
        destruct (Services.markedTicket _ _ _ _); [|by injection Hl as <-].
        destruct (conflict a).
        + case_decide; [by eapply IH|done].
        + by injection Hl as <-. }
    destruct (Hloop _ _ Hm). by apply (roomCacheOK_frame db).
Qed.

(** X10: Whatever calls were made on an empty store, the room cache agrees
    with the stored rooms: every cached room is the stored room of its
    code, and [getRoom] returns exactly the room [Room.findOne] finds for
    the upper-cased code. *)
Theorem room_cache_coherent (requests : list Request) (c : string) :
  roomCacheOK (foldl serve Services.emptyDb requests) ∧
  (Services.getRoom c (foldl serve Services.emptyDb requests)).1
  = snd <$> Services.findRoom (toUpperCase c) (foldl serve Services.emptyDb requests).
Proof.
  assert (roomCacheOK (foldl serve Services.emptyDb requests)) as Hok.
  { induction requests as [|req requests IH] using rev_ind.
    - intros c' room Hc. done.
    - rewrite foldl_app. cbn [foldl]. by apply serve_roomCacheOK. }
  split; [done|]. unfold Services.getRoom.
  destruct (Services.roomCache _ !! toUpperCase c) as [room|] eqn:Hc.
  - destruct (Hok _ _ Hc) as [i ->]. done.
  - by destruct (Services.findRoom _ _) as [[i room]|].
Qed.

(** ** Sessions *)




(** X11: A draw of [GameService.spinNumber] is visible at once to
    [getActiveSession], which the claim handler reads: the cached session
    is the stored one with the new number appended.  The number is in
    [1..89] and was not called before, and the draw touches nothing but
    the session. *)
Theorem spinNumber_updates_cache (rnd : nat → nat) (p now : nat) (c : string)
    (db db' : Services.Db) (n : nat) (s' : Services.SessionDoc) (p' : nat) :
  Services.spinNumber rnd p now c db = (Some (n, s'), db', p') →
  Services.getActiveSession c db' = Some s' ∧
  (∃ i before,
     Services.findActiveSession (toUpperCase c) (Services.sessionDocs db) = Some (i, before) ∧
     Services.findActiveSession (toUpperCase c) (Services.sessionDocs db') = Some (i, s') ∧
     Services.calledNumbers s' = Services.calledNumbers before ++ [mkCalled n now] ∧
     n ∉ map number (Services.calledNumbers before)) ∧
  1 ≤ n ≤ 89 ∧ p' = S p ∧
  Services.roomDocs db' = Services.roomDocs db ∧
  Services.playerDocs db' = Services.playerDocs db ∧
  Services.ticketDocs db' = Services.ticketDocs db ∧
  Services.roomCache db' = Services.roomCache db.
Proof.
  unfold Services.spinNumber.
  destruct (Services.findActiveSession _ _) as [[i before]|] eqn:Hf; [|done].
  cbv zeta. case_decide as Hl; [done|].
  pose proof (findActiveSession_lookup _ _ _ _ Hf) as (Hi & Hroom & Hopen).
  pose proof (pick_fresh 89 _ rnd p Hl) as Hpick. cbv zeta in Hpick. revert Hpick.
  generalize (availableNumbers 89 (map number (Services.calledNumbers before))
                !!! randomIndex rnd p
                      (length (availableNumbers 89
                                 (map number (Services.calledNumbers before))))).
  intros m [Hrange Hfresh] [= <- <- <- <-].
  split_and!; try done; try lia.
  - unfold Services.getActiveSession.
    cbn [Services.sessionCache Services.withSessions Services.pushCalled
         Services.sessionRoom].
    rewrite Hroom. by rewrite lookup_insert_eq.
  - exists i, before. split_and!; [done| |done|done].
    cbn [Services.sessionDocs Services.withSessions].
    by apply findActiveSession_pushCalled.
Qed.

Lemma spinNumber_updates_cache_witness :
  ∃ n s' db' p',
    Services.spinNumber (λ _, 0) 0 5 "abcdef" freshGame = (Some (n, s'), db', p') ∧
    Services.getActiveSession "abcdef" db' = Some s'.
Proof.
  destruct (Services.spinNumber (λ _, 0) 0 5 "abcdef" freshGame)
    as [[[[n s']|] db'] p'] eqn:Hspin.
  - exists n, s', db', p'. split; [reflexivity|].
    eapply (proj1 (spinNumber_updates_cache (λ _, 0) 0 5 "abcdef" freshGame _ _ _ _ Hspin)).
  - vm_compute in Hspin. discriminate Hspin.
Defined.



(** X13: [GameService.resetGame] on a room whose only open session is the
    active one closes it: no session is active afterwards, every draw
    answers null, both cache entries of the room are gone and the room is
    [waiting]; tickets and players stay as they were. *)
Theorem resetGame_stops_drawing (now : nat) (c : string) (db : Services.Db) (i : nat)
    (s : Services.SessionDoc) :
  Services.findActiveSession (toUpperCase c) (Services.sessionDocs db) = Some (i, s) →
  onlyOpenAt (toUpperCase c) i (Services.sessionDocs db) →
  Services.sessionDocs (Services.resetGame now c db)
  = <[i := Services.endSession s now (Services.winner s)]> (Services.sessionDocs db) ∧
  Services.getActiveSession c (Services.resetGame now c db) = None ∧
  (∀ rnd p now', Services.spinNumber rnd p now' c (Services.resetGame now c db)
                 = (None, Services.resetGame now c db, p)) ∧
  Services.roomCache (Services.resetGame now c db) !! toUpperCase c = None ∧
  (∀ j room, Services.findRoom (toUpperCase c) db = Some (j, room) →
             Services.findRoom (toUpperCase c) (Services.resetGame now c db)
             = Some (j, Services.setStatus room waiting)) ∧
  Services.ticketDocs (Services.resetGame now c db) = Services.ticketDocs db ∧
  Services.playerDocs (Services.resetGame now c db) = Services.playerDocs db.
Proof.
  intros Hf Honly.
  pose proof (findActiveSession_lookup _ _ _ _ Hf) as (Hi & Hroom & Hopen).
  assert (Services.findActiveSession (toUpperCase c)
            (<[i := Services.endSession s now (Services.winner s)]> (Services.sessionDocs db))
          = None) as Hnone.
  { apply findActiveSession_None. intros j s' Hj Hr Ho.
    destruct (decide (j = i)) as [->|Hne].
    - rewrite list_lookup_insert_eq in Hj by by eapply lookup_lt_Some.
      injection Hj as <-. done.
    - rewrite list_lookup_insert_ne in Hj by done. by destruct (Hne (Honly j s' Hj Hr Ho)). }
  unfold Services.resetGame. rewrite Hf. cbv zeta.
  unfold Services.getActiveSession, Services.spinNumber, Services.findRoom.
  cbn [Services.sessionDocs Services.sessionCache Services.roomCache Services.roomDocs
       Services.ticketDocs Services.playerDocs Services.withRooms Services.withSessions].
  rewrite !lookup_delete_eq, Hnone.
  split_and!; [reflexivity|reflexivity|reflexivity|reflexivity| |reflexivity|reflexivity].
  intros j room Hroom'. by apply updateRoomStatus_same.
Qed.

Lemma resetGame_stops_drawing_witness :
  Services.getActiveSession "ABCDEF" (Services.resetGame 3 "ABCDEF" freshGame) = None ∧
  Services.spinNumber (λ _, 0) 0 4 "ABCDEF" (Services.resetGame 3 "ABCDEF" freshGame)
  = (None, Services.resetGame 3 "ABCDEF" freshGame, 0).
Proof.
  edestruct (resetGame_stops_drawing 3 "ABCDEF" freshGame 0) as (_ & Hnone & Hspin & _).
  - vm_compute. reflexivity.
  - intros j s Hj _ _. apply lookup_lt_Some in Hj. vm_compute in Hj. lia.
  - split; [exact Hnone|exact (Hspin (λ _, 0) 0 4)].
Defined.

(** ** The automatic winner check *)

Lemma winningRowFrom_spec (k : nat) (rs : list TicketRow) (called : list nat) :
  match Services.winningRowFrom k rs called with
  | Some r => k ≤ r ∧ ∃ row, rs !! (r - k) = Some row ∧ allCalled row called
  | None => ∀ row, row ∈ rs → ¬ allCalled row called
  end.
Proof.
  revert k. induction rs as [|row rs IH]; intros k; cbn [Services.winningRowFrom].
  - intros row Hrow. by apply not_elem_of_nil in Hrow.
  - fold (checkRowWinner row called).
    destruct (checkRowWinner row called) eqn:Hw.
    + split; [done|]. exists row. rewrite Nat.sub_diag. split; [done|].
      exact (proj1 (checkRowWinner_true row called) Hw).
    + specialize (IH (S k)). destruct (Services.winningRowFrom (S k) rs called) as [r|].
      * destruct IH as [Hle (row' & Hrow' & Hall)]. split; [lia|]. exists row'.
        replace (r - k) with (S (r - S k)) by lia. done.
      * intros row' [->|Hin]%elem_of_cons; [|by apply IH].
        intros Hall. pose proof (proj2 (checkRowWinner_true row called) Hall). congruence.
Qed.

Lemma winningRowOf_spec (gs : list TicketGrid) (called : list nat) :
  match Services.winningRowOf gs called with
  | Some r => ∃ grid row, grid ∈ gs ∧ rows grid !! r = Some row ∧ allCalled row called
  | None => ∀ grid row, grid ∈ gs → row ∈ rows grid → ¬ allCalled row called
  end.
Proof.
  induction gs as [|grid gs IH]; cbn [Services.winningRowOf].
  - intros grid row Hg. by apply not_elem_of_nil in Hg.
  - pose proof (winningRowFrom_spec 0 (rows grid) called) as Hrow.
    destruct (Services.winningRowFrom 0 (rows grid) called) as [r|].
    + destruct Hrow as [_ (row & Hrow & Hall)]. rewrite Nat.sub_0_r in Hrow.
      exists grid, row. split; [left|done].
    + destruct (Services.winningRowOf gs called) as [r|].
      * destruct IH as (grid' & row & Hg & Hr & Hall). exists grid', row.
        split; [by right|done].
      * intros grid' row [->|Hg]%elem_of_cons; [by apply Hrow|by apply IH].
Qed.

Lemma firstWinner_spec (ts : list LotoTicket) (called : list nat) :
  match Services.firstWinner ts called with
  | Some (t, r) => t ∈ ts ∧ ∃ grid row, grid ∈ grids t ∧ rows grid !! r = Some row ∧
                                        allCalled row called
  | None => ∀ t grid row, t ∈ ts → grid ∈ grids t → row ∈ rows grid → ¬ allCalled row called
  end.
Proof.
  induction ts as [|t ts IH]; cbn [Services.firstWinner].
  - intros t grid row Ht. by apply not_elem_of_nil in Ht.
  - pose proof (winningRowOf_spec (grids t) called) as Hrow.
    destruct (Services.winningRowOf (grids t) called) as [r|].
    + split; [left|done].
    + destruct (Services.firstWinner ts called) as [[t' r]|].
      * destruct IH as [Hin Hwin]. split; [by right|done].
      * intros t' grid row [->|Ht]%elem_of_cons; [by apply Hrow|by apply IH].
Qed.

(** X14: [GameService.checkAutoWinner] answers null exactly when no row of any
    ticket of the room has all its numbers called; a winner it reports
    names a ticket of the room, its owner, and the index of a row of one
    of its grids whose numbers are all called.  The check writes to the
    sessions only. *)
Theorem checkAutoWinner_finds_complete_row (now : nat) (c : string) (called : list nat)
    (db : Services.Db) :
  ((Services.checkAutoWinner now c called db).1 = None ↔
   ∀ t grid row, t ∈ Services.ticketDocs db → roomId t = toUpperCase c →
                 grid ∈ grids t → row ∈ rows grid → ¬ allCalled row called) ∧
  (∀ w, (Services.checkAutoWinner now c called db).1 = Some w →
     ∃ t grid row,
       t ∈ Services.ticketDocs db ∧ roomId t = toUpperCase c ∧
       Services.winnerTicket w = ticketId t ∧ Services.winnerId w = ownerId t ∧
       grid ∈ grids t ∧ rows grid !! Services.winnerRow w = Some row ∧
       allCalled row called) ∧
  Services.roomDocs (Services.checkAutoWinner now c called db).2 = Services.roomDocs db ∧
  Services.playerDocs (Services.checkAutoWinner now c called db).2 = Services.playerDocs db ∧
  Services.ticketDocs (Services.checkAutoWinner now c called db).2 = Services.ticketDocs db ∧
  Services.roomCache (Services.checkAutoWinner now c called db).2 = Services.roomCache db ∧
  Services.sessionCache (Services.checkAutoWinner now c called db).2
  = Services.sessionCache db.
Proof.
  unfold Services.checkAutoWinner. cbv zeta.
  pose proof (firstWinner_spec
                (filter (λ t, roomId t = toUpperCase c) (Services.ticketDocs db)) called)
    as Hfirst.
  destruct (Services.firstWinner _ called) as [[t r]|]; cbn [fst snd].
  - destruct Hfirst as [[Hroom Hin]%list_elem_of_filter (grid & row & Hg & Hr & Hall)].
    split_and!; try done.
    + split; [done|]. intros Hno. exfalso. apply (Hno t grid row); try done.
      apply list_elem_of_lookup. by exists r.
    + intros w [= <-]. exists t, grid, row. cbn. split_and!; done.
  - split_and!; try done. split; [|done]. intros _ t grid row Ht Hroom.
    apply Hfirst. by apply list_elem_of_filter.
Qed.

(** ** Joining and the capacity of a room *)

Lemma countPlayers_joined C db pl rooms' cache' :
  Services.countPlayers C
    (Services.mkDb rooms' (Services.playerDocs db ++ [pl]) (Services.ticketDocs db)
                   (Services.sessionDocs db) cache' (Services.sessionCache db))
  = Services.countPlayers C db + if decide (Services.roomCode pl = C) then 1 else 0.
Proof.
  unfold Services.countPlayers. cbn [Services.playerDocs].
  rewrite filter_app, length_app. rewrite (filter_cons _ pl). by case_decide.
Qed.

Lemma joinRoom_capacity (newId c nick C : string) (db : Services.Db) (i : nat)
    (room : Services.RoomDoc) :
  Services.findRoom C db = Some (i, room) →
  Services.countPlayers C db ≤ maxPlayers (Services.settings room) →
  ∃ room', Services.findRoom C (Services.joinRoom newId c nick db).2 = Some (i, room') ∧
    Services.settings room' = Services.settings room ∧
    Services.countPlayers C db ≤ Services.countPlayers C (Services.joinRoom newId c nick db).2 ∧
    Services.countPlayers C (Services.joinRoom newId c nick db).2
      ≤ maxPlayers (Services.settings room) ∧
    length (Services.players room') + Services.countPlayers C db
    = length (Services.players room)
      + Services.countPlayers C (Services.joinRoom newId c nick db).2.
Proof.
  intros Hf Hcount. unfold Services.joinRoom.
  destruct (Services.findRoom (toUpperCase c) db) as [[j room0]|] eqn:Hf0;
    [|cbn [snd]; exists room; split_and!; [done|done|lia|done|lia]].
  cbv zeta. case_decide as Hfull;
    [cbn [snd]; exists room; split_and!; [done|done|lia|done|lia]|].
  cbn [snd]. apply findRoom_code in Hf0 as Hcode0. destruct Hcode0 as [Hj Hcode0].
  apply findRoom_code in Hf as Hcode. destruct Hcode as [Hi Hcode].
  rewrite countPlayers_joined. cbn [Services.roomCode].
  destruct (decide (toUpperCase c = C)) as [Heq|Hne].
  - rewrite Heq in *. rewrite Hf in Hf0. injection Hf0 as <- <-.
    eexists. split_and!.
    + unfold Services.findRoom in *. cbn. by apply (list_find_insert_same _ _ _ room).
    + done.
    + lia.
    + lia.
    + cbn. rewrite length_app. cbn. lia.
  - exists room. split_and!; [|done|lia|lia|lia].
    unfold Services.findRoom in *. cbn. rewrite <- Hf.
    apply (list_find_insert_other _ _ _ room0); [done| |]; cbn; congruence.
Qed.

(** X15: However many joins are made, to whatever codes, a room that is within
    its capacity stays within it: its player count never exceeds
    [maxPlayers], never decreases, and the room's embedded roster grows by
    exactly as many players as the player collection, which
    [getRoomPlayers] lists. *)
Theorem joins_respect_capacity (joins : list (string * string * string)) (C : string)
    (db : Services.Db) (i : nat) (room : Services.RoomDoc) :
  Services.findRoom C db = Some (i, room) →
  Services.countPlayers C db ≤ maxPlayers (Services.settings room) →
  ∃ room', Services.findRoom C (joinAll db joins) = Some (i, room') ∧
    Services.settings room' = Services.settings room ∧
    Services.countPlayers C db ≤ Services.countPlayers C (joinAll db joins) ∧
    Services.countPlayers C (joinAll db joins) ≤ maxPlayers (Services.settings room) ∧
    length (Services.players room') + Services.countPlayers C db
    = length (Services.players room) + Services.countPlayers C (joinAll db joins) ∧
    ∀ c, toUpperCase c = C →
         length (Services.getRoomPlayers c (joinAll db joins))
         = Services.countPlayers C (joinAll db joins).
Proof.
  revert db room. induction joins as [|[[newId c] nick] joins IH]; intros db room Hf Hcount.
  - exists room. cbn. split_and!; [done|done|lia|done|lia|by intros c <-].
  - unfold joinAll. cbn [foldl]. fold (joinAll (Services.joinRoom newId c nick db).2 joins).
    destruct (joinRoom_capacity newId c nick C db i room Hf Hcount)
      as (room1 & Hf1 & Hset1 & Hmono1 & Hcap1 & Hlen1).
    destruct (IH _ room1 Hf1) as (room' & Hf' & Hset' & Hmono' & Hcap' & Hlen' & Hlist);
      [by rewrite Hset1|].
    exists room'. rewrite Hset1 in *. split_and!; [done|congruence|lia|done|lia|done].
Qed.

Lemma joins_respect_capacity_witness :
  Services.countPlayers "ABCDEF" (joinAll fullRoom [("p2", "abcdef", "Binh");
                                                    ("p3", "ABCDEF", "Chi")]%string) ≤ 2.
Proof.
  edestruct (joins_respect_capacity [("p2", "abcdef", "Binh"); ("p3", "ABCDEF", "Chi")]%string
               "ABCDEF" fullRoom 0) as (room' & _ & _ & _ & Hcap & _).
  - vm_compute. reflexivity.
  - vm_compute. lia.
  - exact Hcap.
Defined.

(** ** Tickets in the store *)

(** No request of the services stores a ticket in a store without
    tickets. *)
Lemma serve_no_tickets (db : Services.Db) (req : Request) :
  Services.ticketDocs db = [] → Services.ticketDocs (serve db req) = [].
Proof.
  intros Hnone. destruct req; cbn [serve].
  - unfold Services.createRoom. cbv zeta. by destruct (Services.findRoom _ _).
  - unfold Services.getRoom. destruct (_ !! _); [done|].
    by destruct (Services.findRoom _ _) as [[? ?]|].
  - unfold Services.joinRoom. destruct (Services.findRoom _ _) as [[i room]|]; [|done].
    cbv zeta. by case_decide.
  - done.
  - unfold Services.spinNumber. destruct (Services.findActiveSession _ _) as [[? ?]|]; [|done].
    cbv zeta. by case_decide.
  - unfold Services.resetGame. cbv zeta.
    by destruct (Services.findActiveSession _ _) as [[? ?]|].
  - unfold Services.checkAutoWinner. cbv zeta.
    by destruct (Services.firstWinner _ _) as [[? ?]|].
  - destruct (Services.createTickets _ _ _ _ _ _ _ _ _) as [[[ts db'] p']| |] eqn:Hc;
      [|done|done].
    by apply createTickets_stores_nothing in Hc as (_ & -> & _).
  - unfold Services.markNumber. cbn [Services.markLoop]. by rewrite Hnone.
Qed.

(** X16: [TicketService.createTickets] never creates a ticket.  When
    [min(count, max(0, cap - owned))] is not positive it returns the empty
    list and leaves the store as it was.  Otherwise it generates the
    tickets and hands them to [Ticket.insertMany], which rejects them: the
    object [generateTicket] returns has [roomId] where the schema requires
    [roomCode].  The call then never returns, and under a fair random
    source it throws.  So after any calls of the services on an empty
    store no ticket is stored: [getPlayerTickets] answers the empty list,
    [getTicketById] and [checkAutoWinner] answer null. *)
Theorem createTickets_rejected_by_schema :
  (∀ fuel rnd p uuid c owner count cap db,
     (Z.min count (Z.max 0 (cap - Z.of_nat (Services.countTickets (toUpperCase c) owner db)))
      ≤ 0)%Z →
     Services.createTickets fuel rnd p uuid c owner count cap db = Returns ([], db, p)) ∧
  (∀ fuel rnd p uuid c owner count cap db,
     (0 < Z.min count
            (Z.max 0 (cap - Z.of_nat (Services.countTickets (toUpperCase c) owner db))))%Z →
     Services.createTickets fuel rnd p uuid c owner count cap db = Throws ∨
     Services.createTickets fuel rnd p uuid c owner count cap db = Diverges) ∧
  (∀ rnd p uuid c owner count cap db,
     fair rnd →
     (0 < Z.min count
            (Z.max 0 (cap - Z.of_nat (Services.countTickets (toUpperCase c) owner db))))%Z →
     ∃ n, ∀ fuel, n ≤ fuel →
       Services.createTickets fuel rnd p uuid c owner count cap db = Throws) ∧
  (∀ requests c owner tid now called,
     Services.ticketDocs (foldl serve Services.emptyDb requests) = [] ∧
     Services.getPlayerTickets c owner (foldl serve Services.emptyDb requests) = [] ∧
     Services.getTicketById tid (foldl serve Services.emptyDb requests) = None ∧
     (Services.checkAutoWinner now c called (foldl serve Services.emptyDb requests)).1
     = None).
Proof.
  split_and!.
  - intros fuel rnd p uuid c owner count cap db Hle.
    unfold Services.createTickets. cbv zeta. by rewrite decide_True.
  - intros fuel rnd p uuid c owner count cap db Hpos.
    destruct (Services.createTickets fuel rnd p uuid c owner count cap db)
      as [[[new db'] p']| |] eqn:Hc; [|by left|by right].
    apply createTickets_stores_nothing in Hc as (_ & _ & _ & Hle). lia.
  - intros rnd p uuid c owner count cap db Hfair Hpos. by apply createTickets_throws.
  - intros requests c owner tid now called.
    assert (Services.ticketDocs (foldl serve Services.emptyDb requests) = []) as Hnone.
    { induction requests as [|req requests IH] using rev_ind; [done|].
      rewrite foldl_app. cbn [foldl]. by apply serve_no_tickets. }
    unfold Services.getPlayerTickets, Services.getTicketById, Services.checkAutoWinner.
    rewrite Hnone. done.
Qed.

Lemma createTickets_rejected_by_schema_witness :
  ∃ n, ∀ fuel, n ≤ fuel →
    Services.createTickets fuel stubborn 0 ids "abcdef" "p1" 1 2 fullRoom = Throws.
Proof.
  apply (proj1 (proj2 (proj2 createTickets_rejected_by_schema))).
  - exact stubborn_fair.
  - vm_compute. reflexivity.
Defined.

(** ** Version conflicts while marking *)

(** X17: [TicketService.markNumber] retries a save that meets a version
    conflict: as long as one of its three attempts meets none, the result
    is the one of a call without conflicts; when all three do, the call
    throws, unless there was nothing to save, in which case it returns
    with the store unchanged. *)
Theorem markNumber_retries (conflict : nat → bool) (tid : string) (g r col : nat)
    (db : Services.Db) :
  (conflict 0 = false ∨ conflict 1 = false ∨ conflict 2 = false →
   Services.markNumber conflict tid g r col db
   = Services.markNumber (λ _, false) tid g r col db) ∧
  (conflict 0 = true → conflict 1 = true → conflict 2 = true →
   (Services.markNumber conflict tid g r col db = Throws ∧
    Services.markNumber (λ _, false) tid g r col db ≠ Returns db ∨
    Services.markNumber conflict tid g r col db = Returns db ∧
    Services.markNumber (λ _, false) tid g r col db = Returns db)) ∧
  (∀ db', Services.markNumber conflict tid g r col db = Returns db' →
          Services.markNumber (λ _, false) tid g r col db = Returns db').
Proof.
  unfold Services.markNumber. cbn [Services.markLoop].
  destruct (list_find (λ t, ticketId t = tid) (Services.ticketDocs db)) as [[i t]|] eqn:Hf.
  2:{ split_and!; [done| |done]. intros _ _ _. by right. }
  destruct (Services.markedTicket t g r col) as [t'|] eqn:Hm.
  2:{ split_and!; [done| |done]. intros _ _ _. by right. }
  assert (Services.withTickets db (<[i := t']> (Services.ticketDocs db)) ≠ db) as Hchanged.
  { intros Heq. apply (f_equal Services.ticketDocs) in Heq. cbn in Heq.
    apply list_find_Some in Hf as (Hi & _ & _).
    apply (f_equal (λ l, l !! i)) in Heq.
    rewrite list_lookup_insert_eq, Hi in Heq by by eapply lookup_lt_Some.
    injection Heq as ->. unfold Services.markedTicket in Hm.
    destruct (grids t !! g ≫= _) as [row|] eqn:Hrow; [|done].
    destruct (notNull (cells row) col); [|done]. injection Hm as Hm.
    assert (rowAt (toggleCell t g r col) g r = Some (toggleMarked row col)) as Hafter.
    { unfold rowAt, toggleCell. cbn [grids]. rewrite list_lookup_alter_eq.
      destruct (grids t !! g) as [grid|]; [|done]. cbn in Hrow |- *.
      by rewrite list_lookup_alter_eq, Hrow. }
    rewrite Hm in Hafter. unfold rowAt in Hafter. rewrite Hrow in Hafter.
    injection Hafter as Hafter. apply (f_equal (λ x, marked x !! col)) in Hafter.
    unfold toggleMarked in Hafter. cbn [marked] in Hafter.
    rewrite lookup_jsWrite, decide_True in Hafter by done.
    unfold jsNot in Hafter. destruct (marked row !! col) as [[|]|]; done. }
  destruct (conflict 0) eqn:H0, (conflict 1) eqn:H1, (conflict 2) eqn:H2; cbn;
    split_and!; try done; try (intros [|[|]]; done); try (intros _ _ _; left; split; [done|]);
    try congruence.
  all: try (intros db' [= <-]; done).
Qed.

Lemma markNumber_retries_witness :
  Services.markNumber (λ a, bool_decide (a = 0)) "t1" 0 0 0 ticketStore
  = Services.markNumber (λ _, false) "t1" 0 0 0 ticketStore.
Proof.
  apply (proj1 (markNumber_retries (λ a, bool_decide (a = 0)) "t1" 0 0 0 ticketStore)).
  right. left. reflexivity.
Defined.

(** ** What marking leaves alone *)

Lemma toggleMarked_cells row col : cells (toggleMarked row col) = cells row.
Proof. done. Qed.

Lemma map_alter_same {A B} (f : A → B) (h : A → A) (i : nat) (l : list A) :
  (∀ x, f (h x) = f x) → map f (alter h i l) = map f l.
Proof.
  intros Hsame. apply list_eq. intros k. rewrite !list_lookup_fmap.
  destruct (decide (k = i)) as [->|Hne].
  - rewrite list_lookup_alter_eq. destruct (l !! i); [|done]. cbn. by rewrite Hsame.
  - by rewrite list_lookup_alter_ne.
Qed.

Lemma toggleCell_allRows ticket g r col :
  map cells (allRows (toggleCell ticket g r col)) = map cells (allRows ticket).
Proof.
  unfold allRows, toggleCell. cbn [grids].
  rewrite !concat_map, !map_map. f_equal.
  apply (map_alter_same (λ grid, map cells (rows grid))). intros grid. cbn [rows].
  by apply map_alter_same.
Qed.

Lemma scanRows_cells rs rs' called :
  map cells rs' = map cells rs → scanRows rs' called = scanRows rs called.
Proof.
  intros Hcells. unfold scanRows.
  assert (∀ l, map (λ row, validateNumbers (rowNumbers row) called) l
               = map (λ cs, validateNumbers (omap (λ n, n) cs) called) (map cells l)) as Hmap.
  { intros l. by rewrite map_map. }
  by rewrite !Hmap, Hcells.
Qed.

Lemma markLoop_frame left a conflict tid g r col db db' :
  Services.markLoop left a conflict tid g r col db = Returns db' →
  db' = db ∨
  ∃ i t, list_find (λ t, ticketId t = tid) (Services.ticketDocs db) = Some (i, t) ∧
         is_Some (rowAt t g r) ∧
         db' = Services.withTickets db (<[i := toggleCell t g r col]> (Services.ticketDocs db)).
Proof.
  revert a. induction left as [|left IH]; intros a Hl; cbn [Services.markLoop] in Hl.
  - left. by injection Hl as <-.
  - destruct (list_find _ _) as [[i t]|] eqn:Hf; [|left; by injection Hl as <-].
    destruct (Services.markedTicket t g r col) as [t'|] eqn:Hm; [|left; by injection Hl as <-].
    destruct (conflict a).
    + case_decide; [by eapply IH|done].
    + right. exists i, t. injection Hl as <-. unfold Services.markedTicket in Hm.
      unfold rowAt. destruct (grids t !! g ≫= _) as [row|]; [|done].
      destruct (notNull (cells row) col); [|done]. injection Hm as <-. done.
Qed.

Lemma markNumber_frame conflict tid g r col db db' :
  Services.markNumber conflict tid g r col db = Returns db' →
  ∃ ts, db' = Services.withTickets db ts.
Proof.
  intros Hm. unfold Services.markNumber in Hm.
  apply markLoop_frame in Hm as [->|(i & t & _ & _ & ->)]; [|by eexists].
  exists (Services.ticketDocs db). by destruct db.
Qed.

(** X18: [TicketService.markNumber] changes marks and nothing else: rooms,
    players, sessions and caches stay, the tickets keep their number,
    order, identifiers, owners and rooms, every ticket with another
    identifier stays as it was, and the marked ticket keeps its cells, so
    [validateTicket] answers for it as before. *)
Theorem markNumber_changes_marks_only (conflict : nat → bool) (tid : string)
    (g r col : nat) (db db' : Services.Db) :
  Services.markNumber conflict tid g r col db = Returns db' →
  Services.roomDocs db' = Services.roomDocs db ∧
  Services.playerDocs db' = Services.playerDocs db ∧
  Services.sessionDocs db' = Services.sessionDocs db ∧
  Services.roomCache db' = Services.roomCache db ∧
  Services.sessionCache db' = Services.sessionCache db ∧
  map (λ t, (ticketId t, ownerId t, roomId t)) (Services.ticketDocs db')
  = map (λ t, (ticketId t, ownerId t, roomId t)) (Services.ticketDocs db) ∧
  map (λ t, map cells (allRows t)) (Services.ticketDocs db')
  = map (λ t, map cells (allRows t)) (Services.ticketDocs db) ∧
  (∀ j t, Services.ticketDocs db !! j = Some t → ticketId t ≠ tid →
          Services.ticketDocs db' !! j = Some t) ∧
  (∀ j t t' called, Services.ticketDocs db !! j = Some t →
     Services.ticketDocs db' !! j = Some t' →
     validateTicket t' called None None = validateTicket t called None None).
Proof.
  intros Hm. unfold Services.markNumber in Hm.
  apply markLoop_frame in Hm as [->|(i & t & Hf & Hrow & ->)]; [split_and!; try done|].
  { intros j t t' called Ht Ht'. congruence. }
  apply list_find_Some in Hf as (Hi & Hid & _). cbn.
  assert (i < length (Services.ticketDocs db)) as Hlt by by eapply lookup_lt_Some.
  split_and!; try done.
  - apply list_eq. intros j. rewrite !list_lookup_fmap.
    destruct (decide (j = i)) as [->|Hne].
    + by rewrite list_lookup_insert_eq, Hi.
    + by rewrite list_lookup_insert_ne.
  - apply list_eq. intros j. rewrite !list_lookup_fmap.
    destruct (decide (j = i)) as [->|Hne].
    + rewrite list_lookup_insert_eq, Hi by done.
      unfold fmap, option_fmap, option_map. by rewrite toggleCell_allRows.
    + by rewrite list_lookup_insert_ne.
  - intros j t0 Hj Hne. rewrite list_lookup_insert_ne; [done|]. intros ->. congruence.
  - intros j t0 t' called Hj Hj'. destruct (decide (j = i)) as [->|Hne].
    + rewrite list_lookup_insert_eq in Hj' by done. simplify_eq.
      unfold validateTicket. cbv zeta. f_equal. apply scanRows_cells.
      apply toggleCell_allRows.
    + rewrite list_lookup_insert_ne in Hj' by done. congruence.
Qed.

Lemma markNumber_changes_marks_only_witness :
  ∃ db', Services.markNumber (λ _, false) "t1" 0 0 0 ticketStore = Returns db' ∧
         map (λ t, map cells (allRows t)) (Services.ticketDocs db')
         = map (λ t, map cells (allRows t)) (Services.ticketDocs ticketStore).
Proof.
  eexists. split; [vm_compute; reflexivity|].
  eapply (markNumber_changes_marks_only (λ _, false) "t1" 0 0 0 ticketStore).
  vm_compute. reflexivity.
Defined.

(** ** What [server.js] keeps true of its rooms *)

Lemma roomsKept_insert st c room players tickets :
  roomsKept st → roomKept c room →
  roomsKept (ServerJs.mkState (<[c := room]> (ServerJs.rooms st)) players tickets).
Proof.
  intros Hkept Hroom c' room' Hc'. cbn in Hc'.
  destruct (decide (c' = c)) as [->|Hne].
  - rewrite lookup_insert_eq in Hc'. by injection Hc' as <-.
  - rewrite lookup_insert_ne in Hc' by done. by apply Hkept.
Qed.

Lemma roomsKept_frame st st' :
  ServerJs.rooms st' = ServerJs.rooms st → roomsKept st → roomsKept st'.
Proof. intros Hrooms Hkept c room Hc. rewrite Hrooms in Hc. by apply Hkept. Qed.

Lemma onCreate_roomsKept socket newCode newId hostNickname maxP perPlayer st :
  roomsKept st →
  roomsKept (ServerJs.onCreate socket newCode newId hostNickname maxP perPlayer st).2.
Proof.
  intros Hkept. unfold ServerJs.onCreate. cbn [snd]. apply roomsKept_insert; [done|].
  split_and!; [reflexivity|discriminate|]. cbn [ServerJs.status ServerJs.currentSession].
  split; [discriminate|]. by intros [? ?].
Qed.

Lemma onJoin_roomsKept socket newId c nick st :
  roomsKept st → roomsKept (ServerJs.onJoin socket newId c nick st).1.2.
Proof.
  intros Hkept. unfold ServerJs.onJoin.
  destruct (ServerJs.rooms st !! toUpperCase c) as [room|] eqn:Hroom; [|exact Hkept].
  case_decide; [exact Hkept|]. cbn [fst snd]. apply roomsKept_insert; [done|].
  destruct (Hkept _ _ Hroom) as (Hc & Hf & Hs). split_and!; [exact Hc|exact Hf|exact Hs].
Qed.

Lemma onLeave_roomsKept socket st : roomsKept st → roomsKept (ServerJs.onLeave socket st).
Proof.
  intros Hkept. unfold ServerJs.onLeave.
  destruct (ServerJs.playerMap st !! socket) as [pd|]; [|exact Hkept].
  destruct (ServerJs.rooms st !! ServerJs.roomCode pd) as [room|] eqn:Hroom; [|exact Hkept].
  cbv zeta. destruct (ServerJs.dataHost pd).
  - intros c room' Hc. cbn [ServerJs.rooms] in Hc. apply lookup_delete_Some in Hc as [_ Hc].
    by apply Hkept.
  - apply roomsKept_insert; [done|].
    destruct (Hkept _ _ Hroom) as (Hc & Hf & Hs). split_and!; [exact Hc|exact Hf|exact Hs].
Qed.

Lemma onStart_roomsKept socket newId st :
  roomsKept st → roomsKept (ServerJs.onStart socket newId st).
Proof.
  intros Hkept. unfold ServerJs.onStart.
  destruct (ServerJs.playerMap st !! socket) as [pd|]; [|exact Hkept].
  destruct (ServerJs.dataHost pd); [|exact Hkept].
  destruct (ServerJs.rooms st !! ServerJs.roomCode pd) as [room|] eqn:Hroom; [|exact Hkept].
  apply roomsKept_insert; [done|]. destruct (Hkept _ _ Hroom) as (Hc & _ & _).
  split_and!; [exact Hc|discriminate|]. cbn [ServerJs.status ServerJs.currentSession].
  split; [by eexists|reflexivity].
Qed.

Lemma setSession_roomKept c room session session' :
  roomKept c room → ServerJs.currentSession room = Some session →
  roomKept c (ServerJs.setSession room (Some session')).
Proof.
  intros (Hc & Hf & Hs) Hsession. split_and!; [exact Hc|exact Hf|].
  cbn [ServerJs.setSession ServerJs.status ServerJs.currentSession].
  split; [by eexists|]. intros _. apply Hs. by eexists.
Qed.

Lemma onSpin_roomsKept rnd p now socket st res st' p' :
  ServerJs.onSpin rnd p now socket st = Returns (res, st', p') →
  roomsKept st → roomsKept st'.
Proof.
  intros Hs Hkept. unfold ServerJs.onSpin in Hs.
  destruct (ServerJs.playerMap st !! socket) as [pd|]; [|by injection Hs as _ <- _].
  destruct (ServerJs.dataHost pd); [|by injection Hs as _ <- _].
  destruct (ServerJs.rooms st !! ServerJs.roomCode pd) as [room|] eqn:Hroom;
    [|by injection Hs as _ <- _].
  case_decide as Hplaying; [|by injection Hs as _ <- _].
  destruct (ServerJs.currentSession room) as [session|] eqn:Hsession; [|discriminate Hs].
  cbv zeta in Hs. case_decide; [by injection Hs as _ <- _|].
  revert Hs.
  generalize (availableNumbers 90 (map number (ServerJs.calledNumbers session))
                !!! randomIndex rnd p
                      (length (availableNumbers 90
                                 (map number (ServerJs.calledNumbers session))))).
  intros n [= _ <- _]. apply roomsKept_insert; [done|].
  eapply setSession_roomKept; [by apply Hkept|exact Hsession].
Qed.

Lemma onCreateTickets_roomsKept retries fuel rnd p ids socket count st res st' p' :
  ServerJs.onCreateTickets retries fuel rnd p ids socket count st = Returns (res, st', p') →
  roomsKept st → roomsKept st'.
Proof.
  intros Hc Hkept. unfold ServerJs.onCreateTickets in Hc.
  destruct (ServerJs.playerMap st !! socket) as [pd|]; [|by injection Hc as _ <- _].
  destruct (ServerJs.rooms st !! ServerJs.roomCode pd) as [room|] eqn:Hroom;
    [|by injection Hc as _ <- _].
  cbv zeta in Hc.
  destruct (ServerJs.makeTickets _ 0 retries fuel rnd p ids _ _ _) as [[[ts s1] p1]| |];
    step_bind Hc; [|discriminate Hc|discriminate Hc].
  injection Hc as _ <- _. apply roomsKept_insert; [done|].
  destruct (Hkept _ _ Hroom) as (Hcode & Hf & Hs). split_and!; [exact Hcode|exact Hf|exact Hs].
Qed.

Lemma onMarkNumber_rooms tid grid row col st :
  ServerJs.rooms (ServerJs.onMarkNumber tid grid row col st) = ServerJs.rooms st.
Proof.
  unfold ServerJs.onMarkNumber.
  destruct (ServerJs.ticketMap st !! tid) as [ticket|]; [|reflexivity].
  case_decide; [|reflexivity]. destruct (grids ticket !! _ ≫= _) as [row'|]; [|reflexivity].
  by destruct (notNull _ _).
Qed.

Lemma onCallKinh_roomsKept socket nick tid grid row st :
  roomsKept st → roomsKept (ServerJs.onCallKinh socket nick tid grid row st).1.2.
Proof.
  intros Hkept. unfold ServerJs.onCallKinh.
  destruct (ServerJs.playerMap st !! socket) as [pd|]; [|exact Hkept].
  destruct (ServerJs.rooms st !! ServerJs.roomCode pd) as [room|] eqn:Hroom; [|exact Hkept].
  destruct (ServerJs.ticketMap st !! tid) as [ticket|]; [|exact Hkept].
  destruct (ServerJs.currentSession room) as [session|] eqn:Hsession; [|exact Hkept].
  destruct (ServerJs.at_ (grids ticket) grid ≫= _) as [ticketRow|]; [|exact Hkept].
  cbv zeta. destruct (bool_decide _); [|exact Hkept]. cbn [fst snd].
  apply roomsKept_insert; [done|].
  eapply setSession_roomKept; [by apply Hkept|exact Hsession].
Qed.

Lemma onReset_roomsKept socket st : roomsKept st → roomsKept (ServerJs.onReset socket st).
Proof.
  intros Hkept. unfold ServerJs.onReset.
  destruct (ServerJs.playerMap st !! socket) as [pd|]; [|exact Hkept].
  destruct (ServerJs.dataHost pd); [|exact Hkept].
  destruct (ServerJs.rooms st !! ServerJs.roomCode pd) as [room|] eqn:Hroom; [|exact Hkept].
  cbv zeta. apply roomsKept_insert; [done|]. destruct (Hkept _ _ Hroom) as (Hc & _ & _).
  split_and!; [exact Hc|discriminate|]. cbn [ServerJs.status ServerJs.currentSession].
  split; [discriminate|]. by intros [? ?].
Qed.

Lemma handle_roomsKept (st : ServerJs.State) (m : Message) :
  roomsKept st → roomsKept (handle st m).
Proof.
  intros Hkept. destruct m; cbn [handle].
  - by apply onCreate_roomsKept.
  - by apply onJoin_roomsKept.
  - by apply onLeave_roomsKept.
  - by apply onStart_roomsKept.
  - destruct (ServerJs.onSpin rnd p now socket st) as [[[res st'] p']| |] eqn:Hs;
      [|exact Hkept|exact Hkept].
    by eapply onSpin_roomsKept.
  - destruct (ServerJs.onCreateTickets _ _ _ _ _ _ _ _) as [[[res st'] p']| |] eqn:Hc;
      [|exact Hkept|exact Hkept].
    by eapply onCreateTickets_roomsKept.
  - apply (roomsKept_frame st); [|exact Hkept]. apply onMarkNumber_rooms.
  - by apply onCallKinh_roomsKept.
  - by apply onReset_roomsKept.
Qed.

Lemma handled_roomsKept (messages : list Message) :
  roomsKept (foldl handle ServerJs.emptyState messages).
Proof.
  induction messages as [|m messages IH] using rev_ind.
  - intros c room Hc. done.
  - rewrite foldl_app. cbn [foldl]. by apply handle_roomsKept.
Qed.

(** X19: Whatever create, join, leave, start, spin, create-tickets, mark-number,
    call-kinh and reset messages [server.js] has handled since it started,
    every room is stored under its own code and is [playing] exactly when
    it has a session, so the spin handler never meets a playing room
    without one: it does not raise a [TypeError]. *)
Theorem serverjs_spin_never_throws (messages : list Message) (rnd : nat → nat)
    (p now : nat) (socket : string) :
  roomsKept (foldl handle ServerJs.emptyState messages) ∧
  ServerJs.onSpin rnd p now socket (foldl handle ServerJs.emptyState messages) ≠ Throws ∧
  ServerJs.onSpin rnd p now socket (foldl handle ServerJs.emptyState messages) ≠ Diverges.
Proof.
  pose proof (handled_roomsKept messages) as Hkept. split; [done|].
  unfold ServerJs.onSpin.
  destruct (ServerJs.playerMap _ !! socket) as [pd|]; [|done].
  destruct (ServerJs.dataHost pd); [|done].
  destruct (ServerJs.rooms _ !! ServerJs.roomCode pd) as [room|] eqn:Hroom; [|done].
  case_decide as Hplaying; [|done].
  destruct (Hkept _ _ Hroom) as (_ & _ & Hsession).
  apply Hsession in Hplaying as [session ->]. cbv zeta. by case_decide.
Qed.

(** ** The status [finished] *)

Lemma serve_not_finished (db : Services.Db) (req : Request) :
  Forall (λ room, Services.status room ≠ finished) (Services.roomDocs db) →
  Forall (λ room, Services.status room ≠ finished) (Services.roomDocs (serve db req)).
Proof.
  intros Hall.
  assert (∀ c st, st ≠ finished →
            Forall (λ room, Services.status room ≠ finished)
                   (Services.updateRoomStatus c st (Services.roomDocs db))) as Hupdate.
  { intros c st Hst. unfold Services.updateRoomStatus.
    destruct (list_find _ _) as [[i room]|]; [|done]. by apply Forall_insert. }
  destruct req; cbn [serve].
  - unfold Services.createRoom. cbv zeta. destruct (Services.findRoom _ _); cbn; [done|].
    apply Forall_app. split; [done|]. by constructor.
  - unfold Services.getRoom. destruct (_ !! _); [done|].
    by destruct (Services.findRoom _ _) as [[? ?]|].
  - unfold Services.joinRoom.
    destruct (Services.findRoom _ _) as [[i room]|] eqn:Hf; [|done].
    cbv zeta. case_decide; [done|]. cbn. apply Forall_insert; [done|]. cbn.
    apply findRoom_code in Hf as [Hi _]. rewrite Forall_lookup in Hall. by eapply Hall.
  - unfold Services.startGame. cbn. by apply Hupdate.
  - unfold Services.spinNumber. destruct (Services.findActiveSession _ _) as [[? ?]|]; [|done].
    cbv zeta. by case_decide.
  - unfold Services.resetGame. cbv zeta.
    destruct (Services.findActiveSession _ _) as [[? ?]|]; cbn; by apply Hupdate.
  - unfold Services.checkAutoWinner. cbv zeta.
    by destruct (Services.firstWinner _ _) as [[? ?]|].
  - destruct (Services.createTickets _ _ _ _ _ _ _ _ _) as [[[ts db'] p']| |] eqn:Hc;
      [|done|done].
    by apply createTickets_stores_nothing in Hc as (_ & -> & _).
  - destruct (Services.markNumber _ _ _ _ _ _) as [db'| |] eqn:Hm; [|done|done].
    by apply markNumber_frame in Hm as [ts ->].
Qed.

(** X20: No room ever becomes [finished]: neither a stored room of the
    services, whatever calls were made on an empty store, nor a room of
    [server.js], whatever create, join, leave, start, spin, create-tickets,
    mark-number, call-kinh and reset messages it has handled. *)
Theorem finished_is_never_reached :
  (∀ requests room,
     room ∈ Services.roomDocs (foldl serve Services.emptyDb requests) →
     Services.status room ≠ finished) ∧
  (∀ messages c room,
     ServerJs.rooms (foldl handle ServerJs.emptyState messages) !! c = Some room →
     ServerJs.status room ≠ finished).
Proof.
  split.
  - intros requests.
    assert (Forall (λ room, Services.status room ≠ finished)
                   (Services.roomDocs (foldl serve Services.emptyDb requests))) as Hall.
    { induction requests as [|req requests IH] using rev_ind; [by constructor|].
      rewrite foldl_app. cbn [foldl]. by apply serve_not_finished. }
    rewrite Forall_forall in Hall. done.
  - intros messages c room Hc. by destruct (handled_roomsKept messages c room Hc) as (_ & ? & _).
Qed.

(** ** Resetting and leaving in [server.js] *)



(** X22: [room:leave] acts only for a socket whose recorded room code
    names a stored room.  Then the socket is forgotten, so its later ticket
    requests are answered "player not found"; a host who leaves deletes the
    room, so it can no longer be joined, while any other player is taken
    off the roster of a room that otherwise stays as it was; the tickets
    in the ticket map are kept.  For an unknown socket, or when no room is
    stored under the recorded code, the handler returns early and changes
    nothing.  That is the case of a guest who joined under a spelling of
    the code no room is stored under: [room:join] recorded the code as
    typed, so the guest's [room:leave] leaves the socket recorded and the
    guest on the roster. *)
Theorem serverjs_leave_room :
  (∀ socket st pd room,
     ServerJs.playerMap st !! socket = Some pd →
     ServerJs.rooms st !! ServerJs.roomCode pd = Some room →
     ServerJs.playerMap (ServerJs.onLeave socket st) !! socket = None ∧
     ServerJs.ticketMap (ServerJs.onLeave socket st) = ServerJs.ticketMap st ∧
     (∀ retries fuel rnd p ids count,
        ServerJs.onCreateTickets retries fuel rnd p ids socket count
                                 (ServerJs.onLeave socket st)
        = Returns (inl PlayerNotFound, ServerJs.onLeave socket st, p)) ∧
     (ServerJs.dataHost pd = true →
        ServerJs.rooms (ServerJs.onLeave socket st) !! ServerJs.roomCode pd = None ∧
        ∀ socket' newId c nick, toUpperCase c = ServerJs.roomCode pd →
          ServerJs.onJoin socket' newId c nick (ServerJs.onLeave socket st)
          = (inl RoomNotFound, ServerJs.onLeave socket st, [])) ∧
     (ServerJs.dataHost pd = false →
        ∃ room', ServerJs.rooms (ServerJs.onLeave socket st) !! ServerJs.roomCode pd
                 = Some room' ∧
          ServerJs.players room'
          = filter (λ pl, ServerJs.socketId pl ≠ socket) (ServerJs.players room) ∧
          length (ServerJs.players room') ≤ length (ServerJs.players room) ∧
          ServerJs.status room' = ServerJs.status room ∧
          ServerJs.currentSession room' = ServerJs.currentSession room ∧
          ServerJs.settings room' = ServerJs.settings room) ∧
     (∀ c, c ≠ ServerJs.roomCode pd →
        ServerJs.rooms (ServerJs.onLeave socket st) !! c = ServerJs.rooms st !! c)) ∧
  (∀ socket st,
     (ServerJs.playerMap st !! socket = None ∨
      ∃ pd, ServerJs.playerMap st !! socket = Some pd ∧
            ServerJs.rooms st !! ServerJs.roomCode pd = None) →
     ServerJs.onLeave socket st = st) ∧
  (∀ socket newId c nick st room' st' events,
     ServerJs.onJoin socket newId c nick st = (inr room', st', events) →
     ServerJs.rooms st !! c = None →
     ServerJs.onLeave socket st' = st' ∧
     ServerJs.playerMap st' !! socket = Some (ServerJs.mkData newId c false) ∧
     ServerJs.rooms st' !! toUpperCase c = Some room' ∧
     ∃ pl, pl ∈ ServerJs.players room' ∧ ServerJs.socketId pl = socket ∧
           ServerJs.playerId pl = newId).
Proof.
  split_and!.
  - intros socket st pd room Hpd Hroom. unfold ServerJs.onLeave. rewrite Hpd, Hroom. cbv zeta.
    cbn [ServerJs.playerMap ServerJs.ticketMap ServerJs.rooms].
    split_and!.
    + by rewrite lookup_delete_eq.
    + done.
    + intros retries fuel rnd p ids count. unfold ServerJs.onCreateTickets.
      cbn [ServerJs.playerMap]. by rewrite lookup_delete_eq.
    + intros ->. split; [by rewrite lookup_delete_eq|].
      intros socket' newId c nick Hc. unfold ServerJs.onJoin. cbn [ServerJs.rooms].
      by rewrite Hc, lookup_delete_eq.
    + intros ->. eexists. rewrite lookup_insert_eq. split; [reflexivity|].
      cbn [ServerJs.players ServerJs.status ServerJs.currentSession ServerJs.settings].
      split_and!; [reflexivity|apply length_filter|reflexivity|reflexivity|reflexivity].
    + intros c Hne. destruct (ServerJs.dataHost pd).
      * by rewrite lookup_delete_ne.
      * by rewrite lookup_insert_ne.
  - intros socket st [Hnone|(pd & Hpd & Hroom)]; unfold ServerJs.onLeave.
    + by rewrite Hnone.
    + by rewrite Hpd, Hroom.
  - intros socket newId c nick st room' st' events. unfold ServerJs.onJoin.
    destruct (ServerJs.rooms st !! toUpperCase c) as [room|] eqn:Hroom; [|done].
    case_decide; [done|]. intros [= <- <- _] Hnone.
    assert (toUpperCase c ≠ c) as Hne by (intros Heq; rewrite Heq in Hroom; congruence).
    unfold ServerJs.onLeave. cbn [ServerJs.playerMap ServerJs.rooms ServerJs.players].
    rewrite !lookup_insert_eq. cbn [ServerJs.roomCode].
    rewrite lookup_insert_ne by done. rewrite Hnone.
    split_and!; [reflexivity|reflexivity|reflexivity|].
    eexists. split; [apply elem_of_app; right; apply list_elem_of_singleton; reflexivity|].
    split; reflexivity.
Qed.

(** ** The room code a join records *)

(** X23: [room:join] of [server.js] finds the room under the upper-cased code
    but records the code as it was typed for the socket.  A player who
    typed the stored code is served from then on; for a player who typed
    another spelling, under which no room is stored, the ticket request is
    answered "room not found" and a claim as invalid. *)
Theorem serverjs_join_records_typed_code (socket newId c nick : string)
    (st st' : ServerJs.State) (room' : ServerJs.Room) (events : list ServerJs.Event) :
  ServerJs.onJoin socket newId c nick st = (inr room', st', events) →
  ServerJs.playerMap st' !! socket = Some (ServerJs.mkData newId c false) ∧
  ServerJs.rooms st' !! toUpperCase c = Some room' ∧
  (toUpperCase c = c →
     ∀ retries fuel rnd p ids count,
       ServerJs.onCreateTickets retries fuel rnd p ids socket count st'
       ≠ Returns (inl RoomNotFound, st', p) ∧
       ServerJs.onCreateTickets retries fuel rnd p ids socket count st'
       ≠ Returns (inl PlayerNotFound, st', p)) ∧
  (ServerJs.rooms st !! c = None →
     (∀ retries fuel rnd p ids count,
        ServerJs.onCreateTickets retries fuel rnd p ids socket count st'
        = Returns (inl RoomNotFound, st', p)) ∧
     (∀ nick' tid g r,
        ServerJs.onCallKinh socket nick' tid g r st' = (invalidResult, st', []))).
Proof.
  unfold ServerJs.onJoin.
  destruct (ServerJs.rooms st !! toUpperCase c) as [room|] eqn:Hroom; [|done].
  case_decide; [done|]. intros [= <- <- _].
  cbn [ServerJs.playerMap ServerJs.rooms]. rewrite !lookup_insert_eq.
  split_and!; [done|done| |].
  - intros Hc retries fuel rnd p ids count. rewrite Hc. unfold ServerJs.onCreateTickets.
    cbn [ServerJs.playerMap ServerJs.rooms ServerJs.roomCode]. rewrite lookup_insert_eq.
    cbn [ServerJs.roomCode]. rewrite lookup_insert_eq. cbv zeta.
    destruct (ServerJs.makeTickets _ _ _ _ _ _ _ _ _ _) as [[[ts s1] p1]| |];
      unfold mbind, outcome_bind; cbv beta iota; split; discriminate.
  - intros Hnone.
    assert (toUpperCase c ≠ c) as Hne by (intros Heq; rewrite Heq in Hroom; congruence).
    split.
    + intros retries fuel rnd p ids count. unfold ServerJs.onCreateTickets.
      cbn [ServerJs.playerMap ServerJs.rooms ServerJs.roomCode]. rewrite lookup_insert_eq.
      cbn [ServerJs.roomCode]. rewrite lookup_insert_ne by done. by rewrite Hnone.
    + intros nick' tid g r. unfold ServerJs.onCallKinh.
      cbn [ServerJs.playerMap ServerJs.rooms ServerJs.roomCode]. rewrite lookup_insert_eq.
      cbn [ServerJs.roomCode]. rewrite lookup_insert_ne by done. by rewrite Hnone.
Qed.

(** ** Drawing in [server.js] *)

(** X24: The spin handler of [server.js], asked by the host of a playing room,
    draws what [generateNextNumber] draws from the session's called list:
    when every number of [1..90] is called it answers "no numbers left"
    and changes nothing; otherwise it answers a number of [1..90] that was
    not called, appends it to the session, and leaves the rest of the room
    and the tickets alone. *)
Theorem serverjs_spin_draws_fresh (rnd : nat → nat) (p now : nat) (socket : string)
    (st : ServerJs.State) (pd : ServerJs.PlayerData) (room : ServerJs.Room)
    (session : ServerJs.Session) :
  ServerJs.playerMap st !! socket = Some pd → ServerJs.dataHost pd = true →
  ServerJs.rooms st !! ServerJs.roomCode pd = Some room →
  ServerJs.status room = playing → ServerJs.currentSession room = Some session →
  (generateNextNumber rnd p (map number (ServerJs.calledNumbers session)) = None →
   (∀ n, 1 ≤ n ≤ 90 → n ∈ map number (ServerJs.calledNumbers session)) ∧
   ServerJs.onSpin rnd p now socket st = Returns (inl NoNumbersLeft, st, p)) ∧
  (∀ n, generateNextNumber rnd p (map number (ServerJs.calledNumbers session)) = Some n →
     1 ≤ n ≤ 90 ∧ (n ∉ map number (ServerJs.calledNumbers session)) ∧
     ∃ st' room' session',
       ServerJs.onSpin rnd p now socket st = Returns (inr n, st', S p) ∧
       ServerJs.rooms st' !! ServerJs.roomCode pd = Some room' ∧
       ServerJs.currentSession room' = Some session' ∧
       ServerJs.calledNumbers session'
       = ServerJs.calledNumbers session ++ [mkCalled n now] ∧
       ServerJs.winner session' = ServerJs.winner session ∧
       ServerJs.players room' = ServerJs.players room ∧
       ServerJs.status room' = playing ∧
       ServerJs.ticketMap st' = ServerJs.ticketMap st ∧
       ServerJs.playerMap st' = ServerJs.playerMap st).
Proof.
  intros Hpd Hhost Hroom Hplaying Hsession.
  unfold ServerJs.onSpin. rewrite Hpd, Hhost, Hroom, Hsession.
  rewrite decide_True by done. cbv zeta. split.
  - intros Hnone. split; [exact (proj1 (generateNextNumber_None _ _ _) Hnone)|].
    unfold generateNextNumber in Hnone. cbv zeta in Hnone.
    case_decide; [reflexivity|done].
  - intros n Hn. pose proof (generateNextNumber_fresh _ _ _ _ Hn) as [Hrange Hfresh].
    split_and!; [lia|lia|done|].
    unfold generateNextNumber in Hn. cbv zeta in Hn. case_decide as Hl; [done|].
    revert Hn.
    generalize (availableNumbers 90 (map number (ServerJs.calledNumbers session))
                  !!! randomIndex rnd p
                        (length (availableNumbers 90
                                   (map number (ServerJs.calledNumbers session))))).
    intros m [= ->].
    eexists _, _, _. split; [reflexivity|].
    cbn [ServerJs.rooms ServerJs.ticketMap ServerJs.playerMap]. rewrite lookup_insert_eq.
    split; [reflexivity|].
    cbn [ServerJs.setSession ServerJs.currentSession ServerJs.calledNumbers ServerJs.winner
         ServerJs.players ServerJs.status].
    split_and!; [reflexivity|reflexivity|reflexivity|reflexivity|exact Hplaying|reflexivity|
                 reflexivity].
Qed.


Lemma serverjs_leave_room_witness :
  ServerJs.rooms (ServerJs.onLeave "s0" jsGame) !! "ABCDEF"%string = None ∧
  ServerJs.onLeave "s1" jsJoined = jsJoined.
Proof.
  split.
  - edestruct (proj1 serverjs_leave_room "s0" jsGame) as (_ & _ & _ & Hhost & _).
    + vm_compute. reflexivity.
    + vm_compute. reflexivity.
    + apply Hhost. reflexivity.
  - edestruct (proj2 (proj2 serverjs_leave_room) "s1" "p1" "abcdef" "An" jsGame)
      as (Hleft & _).
    + unfold jsJoined. vm_compute. reflexivity.
    + vm_compute. reflexivity.
    + exact Hleft.
Defined.

Lemma serverjs_join_records_typed_code_witness :
  ServerJs.onCreateTickets 5 100 (λ p, p) 0 ids "s1" 1 jsJoined
  = Returns (inl RoomNotFound, jsJoined, 0).
Proof.
  edestruct (serverjs_join_records_typed_code "s1" "p1" "abcdef" "An" jsGame jsJoined)
    as (_ & _ & _ & Htyped).
  - vm_compute. reflexivity.
  - apply Htyped. vm_compute. reflexivity.
Defined.

Lemma serverjs_spin_draws_fresh_witness :
  ∃ st', ServerJs.onSpin (λ _, 0) 0 7 "s0" jsGame = Returns (inr 1, st', 1).
Proof.
  edestruct (serverjs_spin_draws_fresh (λ _, 0) 0 7 "s0" jsGame) as [_ Hdraw].
  - vm_compute. reflexivity.
  - reflexivity.
  - vm_compute. reflexivity.
  - reflexivity.
  - reflexivity.
  - destruct (Hdraw 1) as (_ & _ & st' & _ & _ & Hspin & _); [vm_compute; reflexivity|].
    by exists st'.
Defined.

(** ** Who may control a game *)

(** X25: Only the host controls the game.  On the store-backed server a socket
    that is not a host's starts, resets and draws nothing; on [server.js]
    it moreover gets the invalid answer to both validation requests. *)
Theorem only_the_host_controls_the_game :
  (∀ data rnd p now newId w,
     (∀ d, data = Some d → Server.dataHost d = false) →
     Server.onStart newId now data w = w ∧ Server.onReset now data w = w ∧
     Server.onSpin rnd p now data w = (inl NotHost, w, p)) ∧
  (∀ socket st rnd p now newId numbers tid,
     (∀ pd, ServerJs.playerMap st !! socket = Some pd → ServerJs.dataHost pd = false) →
     ServerJs.onStart socket newId st = st ∧ ServerJs.onReset socket st = st ∧
     ServerJs.onSpin rnd p now socket st = Returns (inl NotHost, st, p) ∧
     ServerJs.onValidateNumbers socket numbers st = invalidResult ∧
     ServerJs.onValidateTicket socket tid st = invalidResult).
Proof.
  split.
  - intros data rnd p now newId w Hguest.
    unfold Server.onStart, Server.onReset, Server.onSpin.
    destruct data as [d|]; [|done]. by rewrite (Hguest d).
  - intros socket st rnd p now newId numbers tid Hguest.
    unfold ServerJs.onStart, ServerJs.onReset, ServerJs.onSpin,
           ServerJs.onValidateNumbers, ServerJs.onValidateTicket.
    destruct (ServerJs.playerMap st !! socket) as [pd|]; [|done].
    by rewrite (Hguest pd).
Qed.

Lemma only_the_host_controls_the_game_witness :
  Server.onStart "s2" 1 (Some (Server.mkData "ABCDEF" "p1" false "An"))
                 (Server.mkWorld autoGame ∅ [])
  = Server.mkWorld autoGame ∅ [].
Proof.
  eapply (proj1 only_the_host_controls_the_game _ (λ _, 0) 0).
  intros d [= <-]. reflexivity.
Defined.

(** ** The auto-call timer *)

Lemma spinNumber_null rnd p now c db :
  (Services.spinNumber rnd p now c db).1.1 = None →
  Services.spinNumber rnd p now c db = (None, db, p).
Proof.
  unfold Services.spinNumber. destruct (Services.findActiveSession _ _) as [[i s]|]; [|done].
  cbv zeta. by case_decide.
Qed.

Lemma stopAutoCall_stopped (c : string) (timers : gset string) :
  c ∉ Server.stopAutoCall c timers.
Proof. unfold Server.stopAutoCall. rewrite elem_of_difference, elem_of_singleton. tauto. Qed.

(** X26: The auto-call timer of a room stops whenever a claim reaches the
    validation, won or lost, whenever a tick finds no number to draw, and
    whenever the host resets; a start by the host leaves it running only
    if it was running or the room's [autoCall] setting is on.  A claim
    broadcasts the winner event exactly when it wins. *)
Theorem auto_call_timer_stops :
  (∀ d tid grid row w session ticket,
     truthy (Server.dataRoom d) = true → truthy (Server.dataOder d) = true →
     Services.getActiveSession (Server.dataRoom d) (Server.db w) = Some session →
     Services.getTicketById tid (Server.db w) = Some ticket →
     (Server.dataRoom d
        ∉ Server.autoCallIntervals (Server.onCallKinh (Some d) tid grid row w).2) ∧
     ∀ res, (Server.onCallKinh (Some d) tid grid row w).1 = Some res →
       (isWinner res = true ↔
        Server.GameWinner (Server.dataRoom d) (Server.dataOder d) (Server.dataNick d)
                          tid grid row
          ∈ drop (length (Server.emitted w))
                 (Server.emitted (Server.onCallKinh (Some d) tid grid row w).2))) ∧
  (∀ rnd p now c w,
     (Services.spinNumber rnd p now c (Server.db w)).1.1 = None →
     Server.autoCallTick rnd p now c w
     = (Server.mkWorld (Server.db w) (Server.autoCallIntervals w ∖ {[c]}) (Server.emitted w),
        p)) ∧
  (∀ now d w,
     Server.dataHost d = true → truthy (Server.dataRoom d) = true →
     Server.dataRoom d ∉ Server.autoCallIntervals (Server.onReset now (Some d) w)) ∧
  (∀ newId now d w,
     Server.dataHost d = true → truthy (Server.dataRoom d) = true →
     Server.dataRoom d ∈ Server.autoCallIntervals (Server.onStart newId now (Some d) w) →
     Server.dataRoom d ∈ Server.autoCallIntervals w ∨
     ∃ r, (Services.getRoom (Server.dataRoom d)
             (Services.startGame newId now (Server.dataRoom d) (Server.db w)).2).1 = Some r ∧
          autoCall (Services.settings r) = true).
Proof.
  split_and!.
  - intros d tid grid row w session ticket Hroom Hoder Hsession Hticket.
    unfold Server.onCallKinh. rewrite Hroom, Hoder, Hsession, Hticket. cbn [andb]. cbv zeta.
    destruct (validateTicket ticket _ grid row) as [res| |];
      cbn [fst snd Server.autoCallIntervals Server.emitted].
    + split; [apply stopAutoCall_stopped|]. intros res' [= <-]. rewrite drop_app_length.
      destruct (isWinner res).
      * split; [intros _|done]. right. left.
      * split; [done|]. intros [Heq|Hin%elem_of_nil]%elem_of_cons; done.
    + split; [apply stopAutoCall_stopped|]. done.
    + split; [apply stopAutoCall_stopped|]. done.
  - intros rnd p now c w Hnone. unfold Server.autoCallTick.
    by rewrite (spinNumber_null _ _ _ _ _ Hnone).
  - intros now d w Hhost Hroom. unfold Server.onReset. rewrite Hhost, Hroom. cbn [andb].
    cbv zeta. destruct (Services.getRoom _ _) as [room db2].
    cbn [Server.autoCallIntervals]. apply stopAutoCall_stopped.
  - intros newId now d w Hhost Hroom. unfold Server.onStart. rewrite Hhost, Hroom. cbn [andb].
    destruct (Services.startGame newId now (Server.dataRoom d) (Server.db w))
      as [session db1] eqn:Hstart. cbn [snd].
    destruct (Services.getRoom (Server.dataRoom d) db1) as [[r|] db2] eqn:Hget;
      cbn [fst Server.autoCallIntervals]; [|by left].
    destruct (autoCall (Services.settings r)) eqn:Hauto; [|by left].
    intros _. right. by exists r.
Qed.

Lemma auto_call_timer_stops_witness :
  "ABCDEF"%string
    ∉ Server.autoCallIntervals
        (Server.onCallKinh (Some (Server.mkData "ABCDEF" "p1" false "An")) "t1"
                           (Some 0%Z) (Some 0%Z)
                           (Server.mkWorld autoGame {["ABCDEF"%string]} [])).2.
Proof.
  eapply (proj1 auto_call_timer_stops (Server.mkData "ABCDEF" "p1" false "An") "t1"
            (Some 0%Z) (Some 0%Z) (Server.mkWorld autoGame {["ABCDEF"%string]} [])).
  all: vm_compute; reflexivity.
Defined.

(** ** Tickets in the maps of [server.js] *)

Lemma serverjs_generateTicket_owner retries fuel rnd p newId c owner t p' :
  ServerJs.generateTicket retries fuel rnd p newId c owner = Returns (t, p') →
  ticketId t = newId ∧ ownerId t = owner ∧ roomId t = c.
Proof.
  rewrite serverjs_generateTicket_eq.
  destruct (ServerJs.threeGrids 3 retries fuel rnd p []) as [[gs p1]| |];
    unfold mbind, outcome_bind; cbv beta iota; [|discriminate|discriminate].
  by intros [= <- _].
Qed.

Lemma serverjs_makeTickets_store n i retries fuel rnd p ids c owner store ts store' p' :
  ServerJs.makeTickets n i retries fuel rnd p ids c owner store = Returns (ts, store', p') →
  store' = foldl (λ m t, <[ticketId t := t]> m) store ts ∧
  ∀ k t, ts !! k = Some t → ticketId t = ids (i + k) ∧ ownerId t = owner ∧ roomId t = c.
Proof.
  revert i p store ts store' p'.
  induction n as [|n IH]; intros i p store ts store' p' Hm.
  - injection Hm as <- <- _. split; [done|]. intros k t Hk. done.
  - rewrite serverjs_makeTickets_S in Hm.
    destruct (ServerJs.generateTicket retries fuel rnd p (ids i) c owner)
      as [[t p1]| |] eqn:Ht; step_bind Hm; [|discriminate Hm|discriminate Hm].
    destruct (ServerJs.makeTickets n (S i) retries fuel rnd p1 ids c owner _)
      as [[[rest s1] p2]| |] eqn:Hr; step_bind Hm; [|discriminate Hm|discriminate Hm].
    injection Hm as <- <- <-. apply IH in Hr as [-> Hrest].
    apply serverjs_generateTicket_owner in Ht as (Hid & Ho & Hc).
    split; [done|]. intros [|k] t' Hk.
    + injection Hk as <-. by rewrite Nat.add_0_r.
    + cbn in Hk. destruct (Hrest k t' Hk) as (-> & ? & ?).
      split_and!; [f_equal; lia|done|done].
Qed.

Lemma lookup_insert_all (store : gmap string LotoTicket) (ts : list LotoTicket) (tid : string) :
  NoDup (map ticketId ts) →
  foldl (λ m t, <[ticketId t := t]> m) store ts !! tid
  = match list_find (λ t, ticketId t = tid) ts with
    | Some (_, t) => Some t
    | None => store !! tid
    end.
Proof.
  revert store. induction ts as [|t ts IH]; intros store Hnd; [done|].
  cbn [foldl]. apply NoDup_cons in Hnd as [Hnew Hnd]. rewrite IH by done.
  cbn [list_find]. destruct (decide (ticketId t = tid)) as [<-|Hne].
  - destruct (list_find (λ t0, ticketId t0 = ticketId t) ts) as [[j t']|] eqn:Hf.
    + apply list_find_Some in Hf as (Hj & Hid & _). destruct Hnew.
      apply list_elem_of_fmap. exists t'. split; [done|].
      apply list_elem_of_lookup. by exists j.
    + cbn. by rewrite lookup_insert_eq.
  - destruct (list_find (λ t0, ticketId t0 = tid) ts) as [[j t']|]; cbn; [done|].
    by rewrite lookup_insert_ne.
Qed.

Lemma giveTickets_spec (oder : string) (new : list string) (ps : list ServerJs.Player) :
  ServerJs.giveTickets oder new ps
  = match list_find (λ pl, ServerJs.playerId pl = oder) ps with
    | Some (i, pl) => <[i := ServerJs.addTickets new pl]> ps
    | None => ps
    end.
Proof.
  induction ps as [|pl ps IH]; [done|]. cbn [ServerJs.giveTickets list_find].
  case_decide; [done|]. rewrite IH.
  by destruct (list_find _ ps) as [[i pl']|].
Qed.

(** X27: The tickets [player:create-tickets] of [server.js] answers with are
    the ones it stored: each carries the identifier it was given, the
    player and the room of the socket; with pairwise distinct identifiers
    every new ticket is in the ticket map under its identifier and every
    other entry of the map is as before; and the first player of the room
    with the socket's player id holds the new identifiers after the ones
    held before. *)
Theorem serverjs_created_tickets_are_stored (retries fuel : nat) (rnd : nat → nat)
    (p : nat) (ids : nat → string) (socket : string) (count : Z)
    (st st' : ServerJs.State) (new : list LotoTicket) (p' : nat) :
  ServerJs.onCreateTickets retries fuel rnd p ids socket count st
  = Returns (inr new, st', p') →
  ∃ pd room room',
    ServerJs.playerMap st !! socket = Some pd ∧
    ServerJs.rooms st !! ServerJs.roomCode pd = Some room ∧
    ServerJs.rooms st' !! ServerJs.roomCode pd = Some room' ∧
    (∀ k t, new !! k = Some t →
       ticketId t = ids k ∧ ownerId t = ServerJs.oderId pd ∧
       roomId t = ServerJs.roomCode pd) ∧
    (NoDup (map ticketId new) →
       (∀ t, t ∈ new → ServerJs.ticketMap st' !! ticketId t = Some t) ∧
       (∀ tid, tid ∉ map ticketId new →
          ServerJs.ticketMap st' !! tid = ServerJs.ticketMap st !! tid)) ∧
    (∀ i pl, list_find (λ pl, ServerJs.playerId pl = ServerJs.oderId pd)
                       (ServerJs.players room) = Some (i, pl) →
       ServerJs.players room'
       = <[i := ServerJs.addTickets (map ticketId new) pl]> (ServerJs.players room)) ∧
    (list_find (λ pl, ServerJs.playerId pl = ServerJs.oderId pd) (ServerJs.players room)
     = None → ServerJs.players room' = ServerJs.players room) ∧
    ServerJs.status room' = ServerJs.status room ∧
    ServerJs.currentSession room' = ServerJs.currentSession room ∧
    ServerJs.playerMap st' = ServerJs.playerMap st.
Proof.
  unfold ServerJs.onCreateTickets. intros Hc.
  destruct (ServerJs.playerMap st !! socket) as [pd|] eqn:Hpd; [|discriminate Hc].
  destruct (ServerJs.rooms st !! ServerJs.roomCode pd) as [room|] eqn:Hroom;
    [|discriminate Hc].
  cbv zeta in Hc.
  destruct (ServerJs.makeTickets _ 0 retries fuel rnd p ids _ _ _) as [[[ts s1] p1]| |] eqn:Hm;
    step_bind Hc; [|discriminate Hc|discriminate Hc].
  injection Hc as <- <- _. apply serverjs_makeTickets_store in Hm as [-> Hids].
  exists pd, room. eexists. cbn [ServerJs.rooms ServerJs.ticketMap ServerJs.playerMap].
  rewrite lookup_insert_eq. split_and!; try done.
  - intros Hnd. split.
    + intros t Ht. rewrite lookup_insert_all by done.
      assert (∃ j, list_find (λ t0, ticketId t0 = ticketId t) ts = Some (j, t)) as [j ->];
        [|done].
      apply list_elem_of_lookup in Ht as [j Hj]. exists j.
      apply list_find_Some. split_and!; [done|done|].
      intros k t' Hk Hlt Heq.
      assert (map ticketId ts !! k = Some (ticketId t')) as Hk'
        by by rewrite list_lookup_fmap, Hk.
      assert (map ticketId ts !! j = Some (ticketId t')) as Hj'
        by by rewrite list_lookup_fmap, Hj, Heq.
      pose proof (NoDup_lookup _ _ _ _ Hnd Hk' Hj'). lia.
    + intros tid Hout. rewrite lookup_insert_all by done.
      destruct (list_find (λ t, ticketId t = tid) ts) as [[j t]|] eqn:Hf; [|done].
      apply list_find_Some in Hf as (Hj & <- & _). destruct Hout.
      apply list_elem_of_fmap. exists t. split; [done|].
      apply list_elem_of_lookup. by exists j.
  - intros i pl Hf. cbn. by rewrite giveTickets_spec, Hf.
  - intros Hf. cbn. by rewrite giveTickets_spec, Hf.
Qed.

Lemma serverjs_created_tickets_are_stored_witness :
  ∃ new st' p',
    ServerJs.onCreateTickets 5 100 (λ p, p) 0 ids "s0" 1 jsGame = Returns (inr new, st', p') ∧
    ∀ k t, new !! k = Some t →
           ticketId t = ids k ∧ ownerId t = "h1"%string ∧ roomId t = "ABCDEF"%string.
Proof.
  eexists _, _, _. split; [vm_compute; reflexivity|].
  edestruct (serverjs_created_tickets_are_stored 5 100 (λ p, p) 0 ids "s0" 1 jsGame)
    as (pd & room & room' & Hpd & _ & _ & Hids & _).
  - vm_compute. reflexivity.
  - vm_compute in Hpd. injection Hpd as <-. exact Hids.
Defined.
